(** * Interpreter_Simulator: scanner, recursive-descent parser and
    tree-walking evaluator of a toy expression language.

    The development embeds [src/Interpreter_Simulator.py] function by
    function: [Lexer.tokenize], the methods of [Parser] and
    [Interpreter.interpret], and then states the properties of the
    specification over these definitions. *)

From Stdlib Require Import ZArith QArith String Ascii List Bool Lia.
From Stdlib Require Import Qabs Qpower Lqa.
From Stdlib Require Import SpecFloat.
From stdpp Require Import gmap strings.

Local Open Scope string_scope.

(** * Tokens

    [Token(type, value)]: the type is one of the four strings the lexer
    uses, and the value is an [int] for a NUMBER and a [str] for the other
    kinds (class docstring: "value (str or int)"). *)
Inductive Token : Type :=
| NUMBER (value : Z)
| IDENTIFIER (value : string)
| KEYWORD (value : string)
| OPERATOR (value : string).

(** [tok.type] *)
Definition type (tok : Token) : string :=
  match tok with
  | NUMBER _ => "NUMBER"
  | IDENTIFIER _ => "IDENTIFIER"
  | KEYWORD _ => "KEYWORD"
  | OPERATOR _ => "OPERATOR"
  end.

(** [tok.value == s] for a string literal [s]; an [int] never equals a
    [str] in Python. *)
Definition value_is (tok : Token) (s : string) : bool :=
  match tok with
  | NUMBER _ => false
  | IDENTIFIER v | KEYWORD v | OPERATOR v => String.eqb v s
  end.

(** [tok.value in (s1, s2)] *)
Definition value_in (tok : Token) (l : list string) : bool :=
  existsb (value_is tok) l.

(** [tok.value] of a token whose type was checked to be NUMBER. *)
Definition int_value (tok : Token) : Z :=
  match tok with
  | NUMBER n => n
  | _ => 0%Z
  end.

(** [tok.value] of a token whose type was checked to carry a string. *)
Definition str_value (tok : Token) : string :=
  match tok with
  | NUMBER _ => ""
  | IDENTIFIER v | KEYWORD v | OPERATOR v => v
  end.

(** * Exceptions

    Every failure of the program is a Python exception.  The first seven
    are the [raise Exception(...)] statements of the source, named after
    the taxonomy of the specification; the last four are raised by the
    Python runtime itself. *)
Inductive exn : Type :=
| UnknownSymbol (c : ascii)                       (* "Unknown symbol: ..." *)
| UnexpectedEnd                                   (* "Unexpected end of input" *)
| UnexpectedKind (expected received : string)     (* "Expected token of type ..." *)
| UnexpectedValue (expected : string) (received : Token) (* "Expected value ..." *)
| InvalidPrimary                                  (* "Number or identifier expected" *)
| DivisionByZero                                  (* "Division by zero" *)
| UnknownNode                                     (* "Unknown node type: ..." *)
| AttributeError      (* [None.type]: attribute access on [None] *)
| TypeError           (* arithmetic on [None] *)
| OverflowError       (* an [int] too large for a [float] *)
| ZeroDivisionError.  (* Python's own check inside [/] *)

(** The result of a call: a returned value, a raised exception, or
    [Timeout] when the model's recursion budget is used up (which is not an
    outcome of the program). *)
Inductive outcome (A : Type) : Type :=
| Ok (a : A)
| Raise (e : exn)
| Timeout.
Arguments Ok {A} a.
Arguments Raise {A} e.
Arguments Timeout {A}.

Definition bind {A B : Type} (m : outcome A) (k : A -> outcome B) : outcome B :=
  match m with
  | Ok a => k a
  | Raise e => Raise e
  | Timeout => Timeout
  end.

Notation "'let!' pat ':=' m 'in' k" :=
  (bind m (fun x => match x with pat => k end))
  (at level 10, pat pattern, k at level 200).

(** * Lexer *)
Module Lexer.

(** [str.isspace], [str.isdigit], [str.isalpha] and [str.isalnum] on
    ASCII characters.  The model reads ASCII text: beyond ASCII the tests
    of [str] accept more (letters such as U+00E9, digits such as U+00B2,
    the spaces U+0085 and U+00A0), so the properties of the lexer that
    depend on the class of a character are stated for ASCII text
    ([Shape.ascii_text]). *)
Definition isspace (c : ascii) : bool :=
  let n := nat_of_ascii c in
  (Nat.leb 9 n && Nat.leb n 13) || (Nat.leb 28 n && Nat.leb n 32).

Definition isdigit (c : ascii) : bool :=
  let n := nat_of_ascii c in Nat.leb 48 n && Nat.leb n 57.

Definition isalpha (c : ascii) : bool :=
  let n := nat_of_ascii c in
  (Nat.leb 65 n && Nat.leb n 90) || (Nat.leb 97 n && Nat.leb n 122).

Definition isalnum (c : ascii) : bool := isalpha c || isdigit c.

(** [c in "+-*/()=<>"] *)
Definition is_operator_char (c : ascii) : bool :=
  existsb (Ascii.eqb c) (list_ascii_of_string "+-*/()=<>").

(** [int(num)] for a run of decimal digits.  CPython refuses a run of
    more than 4300 digits with a ValueError; the model has no such limit,
    so the properties of the lexer that depend on the conversion are
    stated for runs within it ([Shape.within_int_limit]). *)
Definition int_of_digits (num : string) : Z :=
  fold_left (fun acc c => (10 * acc + (Z.of_nat (nat_of_ascii c) - 48))%Z)
            (list_ascii_of_string num) 0%Z.

(** The inner loops of [get_number] and [get_identifier]:
    [while self.pos < len(self.text) and p(self.text[self.pos])]
    appends the character and advances.  The state is the text that
    remains from [self.pos] on. *)
Fixpoint scan_while (p : ascii -> bool) (text : list ascii) (acc : string)
  : string * list ascii :=
  match text with
  | c :: text' =>
      if p c then scan_while p text' (String.append acc (String c ""))
      else (acc, text)
  | [] => (acc, text)
  end.

Definition get_number (text : list ascii) : Token * list ascii :=
  let '(num, rest) := scan_while isdigit text "" in
  (NUMBER (int_of_digits num), rest).

Definition keywords : list string := ["if"; "else"; "while"; "def"].

Definition get_identifier (text : list ascii) : Token * list ascii :=
  let '(id, rest) := scan_while isalnum text "" in
  if existsb (String.eqb id) keywords then (KEYWORD id, rest)
  else (IDENTIFIER id, rest).

(** The loop of [tokenize]; one unit of [fuel] per iteration. *)
Fixpoint tokenize_loop (fuel : nat) (text : list ascii) (tokens : list Token)
  : outcome (list Token) :=
  match text with
  | [] => Ok tokens
  | c :: text' =>
      match fuel with
      | O => Timeout
      | S fuel' =>
          if isspace c then tokenize_loop fuel' text' tokens
          else if isdigit c then
            let '(tok, rest) := get_number text in
            tokenize_loop fuel' rest (tokens ++ [tok])
          else if isalpha c then
            let '(tok, rest) := get_identifier text in
            tokenize_loop fuel' rest (tokens ++ [tok])
          else if is_operator_char c then
            tokenize_loop fuel' text' (tokens ++ [OPERATOR (String c "")])
          else Raise (UnknownSymbol c)
      end
  end.

(** Every iteration consumes a character, so the length of the text is
    budget enough. *)
Definition tokenize (text : string) : outcome (list Token) :=
  tokenize_loop (String.length text) (list_ascii_of_string text) [].

End Lexer.

(** * Abstract syntax

    [if_body], [else_body] and [body] hold what [Parser.statement]
    returned, which is [None] when no statement was read; the other
    children come from [Parser.expression], which returns a node or
    raises. *)
#[warnings="-register-all"]
Inductive node : Type :=
| NumberNode (value : Z)
| VariableNode (name : string)
| BinaryOpNode (left : node) (op : string) (right : node)
| AssignmentNode (name : string) (value : node)
| IfNode (condition : node) (if_body : option node) (else_body : option node)
| WhileNode (condition : node) (body : option node).

(** * Parser *)
Module Parser.
Section WithTokens.

(** [self.tokens]; [self.pos] is threaded through the methods. *)
Variable tokens : list Token.

Definition current_token (pos : nat) : option Token := tokens !! pos.

Definition peek_next_token (pos : nat) : option Token := tokens !! (pos + 1).

(** [expected_value] is [None] by default; the check
    [if expected_value and ...] also skips an empty string. *)
Definition consume (expected_type : string) (expected_value : option string)
           (pos : nat) : outcome (Token * nat) :=
  match current_token pos with
  | None => Raise UnexpectedEnd
  | Some tok =>
      if negb (String.eqb (type tok) expected_type) then
        Raise (UnexpectedKind expected_type (type tok))
      else
        match expected_value with
        | Some v =>
            if negb (String.eqb v "") && negb (value_is tok v) then
              Raise (UnexpectedValue v tok)
            else Ok (tok, S pos)
        | None => Ok (tok, S pos)
        end
  end.

(** [self.current_token().type] raises AttributeError when the tokens
    are exhausted, as [current_token] returns [None] there. *)
Definition primary (pos : nat) : outcome (node * nat) :=
  match current_token pos with
  | None => Raise AttributeError
  | Some tok =>
      if String.eqb (type tok) "NUMBER" then
        let! (t, pos1) := consume "NUMBER" None pos in
        Ok (NumberNode (int_value t), pos1)
      else if String.eqb (type tok) "IDENTIFIER" then
        let! (t, pos1) := consume "IDENTIFIER" None pos in
        Ok (VariableNode (str_value t), pos1)
      else Raise InvalidPrimary
  end.

(** The guard of the [while] loops of [addition] and [multiplication]. *)
Definition at_operator (ops : list string) (pos : nat) : bool :=
  match current_token pos with
  | None => false                       (* self.pos >= len(self.tokens) *)
  | Some tok => String.eqb (type tok) "OPERATOR" && value_in tok ops
  end.

(** The loop of [multiplication], one unit of [fuel] per iteration. *)
Fixpoint multiplication_loop (fuel : nat) (node0 : node) (pos : nat)
  : outcome (node * nat) :=
  if at_operator ["*"; "/"] pos then
    match fuel with
    | O => Timeout
    | S fuel' =>
        let! (t, pos1) := consume "OPERATOR" None pos in
        let! (right_, pos2) := primary pos1 in
        multiplication_loop fuel' (BinaryOpNode node0 (str_value t) right_) pos2
    end
  else Ok (node0, pos).

Definition multiplication (fuel : nat) (pos : nat) : outcome (node * nat) :=
  let! (node0, pos1) := primary pos in
  multiplication_loop fuel node0 pos1.

Fixpoint addition_loop (fuel : nat) (node0 : node) (pos : nat)
  : outcome (node * nat) :=
  if at_operator ["+"; "-"] pos then
    match fuel with
    | O => Timeout
    | S fuel' =>
        let! (t, pos1) := consume "OPERATOR" None pos in
        let! (right_, pos2) := multiplication fuel' pos1 in
        addition_loop fuel' (BinaryOpNode node0 (str_value t) right_) pos2
    end
  else Ok (node0, pos).

Definition addition (fuel : nat) (pos : nat) : outcome (node * nat) :=
  let! (node0, pos1) := multiplication fuel pos in
  addition_loop fuel node0 pos1.

Definition expression (fuel : nat) (pos : nat) : outcome (node * nat) :=
  addition fuel pos.

Definition assignment (fuel : nat) (pos : nat) : outcome (node * nat) :=
  let! (t, pos1) := consume "IDENTIFIER" None pos in
  let! (_, pos2) := consume "OPERATOR" (Some "=") pos1 in
  let! (value, pos3) := expression fuel pos2 in
  Ok (AssignmentNode (str_value t) value, pos3).

(** The test for an [else] in [if_statement]. *)
Definition at_else (pos : nat) : bool :=
  match current_token pos with
  | None => false                       (* self.pos >= len(self.tokens) *)
  | Some tok => String.eqb (type tok) "KEYWORD" && value_is tok "else"
  end.

(** [if_statement] and [while_statement] call back into [statement];
    the recursive call is the parameter [statement]. *)

Definition if_statement (statement : nat -> outcome (option node * nat))
           (fuel : nat) (pos : nat) : outcome (node * nat) :=
  let! (_, pos1) := consume "KEYWORD" (Some "if") pos in
  let! (condition, pos2) := expression fuel pos1 in
  let! (if_body, pos3) := statement pos2 in
  if at_else pos3 then
    let! (_, pos4) := consume "KEYWORD" (Some "else") pos3 in
    let! (else_body, pos5) := statement pos4 in
    Ok (IfNode condition if_body else_body, pos5)
  else Ok (IfNode condition if_body None, pos3).

Definition while_statement (statement : nat -> outcome (option node * nat))
           (fuel : nat) (pos : nat) : outcome (node * nat) :=
  let! (_, pos1) := consume "KEYWORD" (Some "while") pos in
  let! (condition, pos2) := expression fuel pos1 in
  let! (body, pos3) := statement pos2 in
  Ok (WhileNode condition body, pos3).

(** The guard of the [elif] of [statement]. *)
Definition at_assignment (pos : nat) : bool :=
  match current_token pos with
  | None => false
  | Some tok =>
      String.eqb (type tok) "IDENTIFIER" &&
      match peek_next_token pos with
      | None => false
      | Some nxt => String.eqb (type nxt) "OPERATOR" && value_is nxt "="
      end
  end.

Definition some_node (r : outcome (node * nat)) : outcome (option node * nat) :=
  let! (n, pos) := r in Ok (Some n, pos).

(** [statement]: a KEYWORD token that is neither [if] nor [while] takes
    no branch of the inner [if]/[elif], so the method falls off its end
    and returns [None] without consuming anything. *)
Fixpoint statement (fuel : nat) (pos : nat) : outcome (option node * nat) :=
  match fuel with
  | O => Timeout
  | S fuel' =>
      match current_token pos with
      | None => Ok (None, pos)          (* self.pos >= len(self.tokens) *)
      | Some tok =>
          if String.eqb (type tok) "KEYWORD" then
            if value_is tok "if" then
              some_node (if_statement (statement fuel') fuel' pos)
            else if value_is tok "while" then
              some_node (while_statement (statement fuel') fuel' pos)
            else Ok (None, pos)
          else if at_assignment pos then some_node (assignment fuel' pos)
          else some_node (expression fuel' pos)
      end
  end.

(** [parse]: the position starts at 0.  The recursion budget is never
    used up, see [parse_terminates]. *)
Definition parse : outcome (option node * nat) :=
  statement (S (length tokens)) 0.

End WithTokens.
End Parser.

(** * Values

    What [interpret] returns: [None], an [int] (unbounded), or a [float]
    (an IEEE 754 binary64 number, produced by [/]). *)
Inductive value : Type :=
| VNone
| VInt (n : Z)
| VFloat (f : spec_float).

(** * Python's arithmetic on these values *)
Module Py.

Definition prec : Z := 53.
Definition emax : Z := 1024.

(** An [int] as an exact, unrounded binary number. *)
Definition exact (n : Z) : spec_float :=
  match n with
  | Z0 => S754_zero false
  | Zpos p => S754_finite false p 0
  | Zneg p => S754_finite true p 0
  end.

(** A result that left the range of [float] raises OverflowError when it
    comes from an [int]. *)
Definition checked (f : spec_float) : outcome spec_float :=
  match f with
  | S754_infinity _ => Raise OverflowError
  | _ => Ok f
  end.

(** [float(n)]: round to nearest, ties to even. *)
Definition float_of_int (n : Z) : outcome spec_float :=
  checked (binary_normalize prec emax n 0 false).

Definition float_is_zero (f : spec_float) : bool :=
  match f with
  | S754_zero _ => true
  | _ => false
  end.

(** The rational number that a finite [float] stands for. *)
Definition rational (f : spec_float) : option Q :=
  match f with
  | S754_zero _ => Some 0%Q
  | S754_finite s m e =>
      Some (inject_Z (cond_Zopp s (Zpos m)) * Qpower 2 e)%Q
  | _ => None
  end.

(** [v == 0] *)
Definition eq_zero (v : value) : bool :=
  match v with
  | VNone => false
  | VInt n => Z.eqb n 0
  | VFloat f => float_is_zero f
  end.

(** [bool(v)], the test of [if v] and [while v]. *)
Definition truthy (v : value) : bool :=
  match v with
  | VNone => false
  | VInt n => negb (Z.eqb n 0)
  | VFloat f => negb (float_is_zero f)
  end.

(** A numeric value that is zero, and one that is not; [None] is neither. *)
Definition zero (v : value) : Prop :=
  match v with
  | VNone => False
  | VInt n => n = 0%Z
  | VFloat f => float_is_zero f = true
  end.

Definition nonzero (v : value) : Prop :=
  match v with
  | VNone => False
  | VInt n => n <> 0%Z
  | VFloat f => float_is_zero f = false
  end.

(** [a + b], [a - b] and [a * b]: exact on two [int]s; an [int] next to a
    [float] is converted first; [None] is no operand. *)
Definition arith (on_int : Z -> Z -> Z)
           (on_float : spec_float -> spec_float -> spec_float)
           (a b : value) : outcome value :=
  match a, b with
  | VInt x, VInt y => Ok (VInt (on_int x y))
  | VInt x, VFloat g => let! f := float_of_int x in Ok (VFloat (on_float f g))
  | VFloat f, VInt y => let! g := float_of_int y in Ok (VFloat (on_float f g))
  | VFloat f, VFloat g => Ok (VFloat (on_float f g))
  | _, _ => Raise TypeError
  end.

Definition add : value -> value -> outcome value :=
  arith Z.add (SFadd prec emax).
Definition sub : value -> value -> outcome value :=
  arith Z.sub (SFsub prec emax).
Definition mul : value -> value -> outcome value :=
  arith Z.mul (SFmul prec emax).

Definition float_div (f g : spec_float) : outcome value :=
  if float_is_zero g then Raise ZeroDivisionError
  else Ok (VFloat (SFdiv prec emax f g)).

(** [a / b], true division: the quotient of two [int]s is rounded once,
    from the exact operands. *)
Definition truediv (a b : value) : outcome value :=
  match a, b with
  | VInt x, VInt y =>
      if Z.eqb y 0 then Raise ZeroDivisionError
      else let! q := checked (SFdiv prec emax (exact x) (exact y)) in
           Ok (VFloat q)
  | VInt x, VFloat g => let! f := float_of_int x in float_div f g
  | VFloat f, VInt y => let! g := float_of_int y in float_div f g
  | VFloat f, VFloat g => float_div f g
  | _, _ => Raise TypeError
  end.

End Py.

(** * Interpreter *)
Module Interpreter.

(** [self.variables] *)
Abbreviation Env := (gmap string value).

(** A call returns its outcome and the dictionary as the call left it,
    also when it raised. *)
Definition and_then (r : outcome value * Env)
           (k : value -> Env -> outcome value * Env) : outcome value * Env :=
  match r with
  | (Ok v, variables) => k v variables
  | (Raise e, variables) => (Raise e, variables)
  | (Timeout, variables) => (Timeout, variables)
  end.

(** The operator dispatch of the BinaryOpNode branch: an operator that is
    none of the four ends the [if]/[elif] chain without a [return]. *)
Definition binary_op (op : string) (left_ right_ : value) : outcome value :=
  if String.eqb op "+" then Py.add left_ right_
  else if String.eqb op "-" then Py.sub left_ right_
  else if String.eqb op "*" then Py.mul left_ right_
  else if String.eqb op "/" then
    if Py.eq_zero right_ then Raise DivisionByZero
    else Py.truediv left_ right_
  else Ok VNone.

(** [interpret(node)]; the argument is [None] where the parser left no
    statement, which no [isinstance] test accepts.  [fuel] bounds the
    depth of the recursion and the iterations of [while]. *)
Fixpoint interpret (fuel : nat) (n : option node) (variables : Env)
         {struct fuel} : outcome value * Env :=
  match fuel with
  | O => (Timeout, variables)
  | S fuel' =>
      match n with
      | Some (NumberNode v) => (Ok (VInt v), variables)
      | Some (VariableNode name) =>
          (Ok (default (VInt 0) (variables !! name)), variables)
      | Some (BinaryOpNode l op r) =>
          and_then (interpret fuel' (Some l) variables) (fun left_ vars1 =>
          and_then (interpret fuel' (Some r) vars1) (fun right_ vars2 =>
          (binary_op op left_ right_, vars2)))
      | Some (AssignmentNode name e) =>
          and_then (interpret fuel' (Some e) variables) (fun v vars1 =>
          (Ok v, <[name := v]> vars1))
      | Some (IfNode condition if_body else_body) =>
          and_then (interpret fuel' (Some condition) variables) (fun c vars1 =>
          if Py.truthy c then interpret fuel' if_body vars1
          else match else_body with
               | Some _ => interpret fuel' else_body vars1
               | None => (Ok VNone, vars1)
               end)
      | Some (WhileNode condition body) =>
          while_loop fuel' condition body VNone variables
      | None => (Raise UnknownNode, variables)
      end
  end
(** [while self.interpret(node.condition): result = self.interpret(node.body)]
    entered with the current [result]. *)
with while_loop (fuel : nat) (condition : node) (body : option node)
                (result : value) (variables : Env)
                {struct fuel} : outcome value * Env :=
  match fuel with
  | O => (Timeout, variables)
  | S fuel' =>
      and_then (interpret fuel' (Some condition) variables) (fun c vars1 =>
      if Py.truthy c then
        and_then (interpret fuel' body vars1) (fun r vars2 =>
        while_loop fuel' condition body r vars2)
      else (Ok result, vars1))
  end.

(** ** Terminating calls

    [evaluates n env r env']: the call [interpret(n)], started with the
    dictionary [env], ends with the outcome [r] (a value or an exception)
    and leaves the dictionary [env']. *)
Definition evaluates (n : option node) (env : Env)
           (r : outcome value) (env' : Env) : Prop :=
  exists fuel, interpret fuel n env = (r, env') /\ r <> Timeout.

(** The same for the loop of a WhileNode entered with [result = res]. *)
Definition loops (c : node) (b : option node) (res : value) (env : Env)
           (r : outcome value) (env' : Env) : Prop :=
  exists fuel, while_loop fuel c b res env = (r, env') /\ r <> Timeout.

(** [iterations c b env rs env']: starting from [env], the condition was
    checked and gave a non-zero number [length rs] times in a row; each of these
    checks was followed by one evaluation of the body, their results are
    [rs] in order, and the last of them left the dictionary [env']. *)
Inductive iterations (c : node) (b : option node) : Env -> list value -> Env -> Prop :=
| iterations_done env : iterations c b env [] env
| iterations_next env v env1 r env2 rs env3 :
    evaluates (Some c) env (Ok v) env1 ->
    Py.nonzero v ->
    evaluates b env1 (Ok r) env2 ->
    iterations c b env2 rs env3 ->
    iterations c b env (r :: rs) env3.

(** The names that the AssignmentNodes of a tree assign to. *)
Fixpoint assigned (n : node) : gset string :=
  match n with
  | NumberNode _ | VariableNode _ => ∅
  | BinaryOpNode l _ r => assigned l ∪ assigned r
  | AssignmentNode name e => {[name]} ∪ assigned e
  | IfNode c t e =>
      assigned c ∪
      match t with Some t' => assigned t' | None => ∅ end ∪
      match e with Some e' => assigned e' | None => ∅ end
  | WhileNode c b =>
      assigned c ∪ match b with Some b' => assigned b' | None => ∅ end
  end.

Definition assigned_opt (n : option node) : gset string :=
  match n with Some n' => assigned n' | None => ∅ end.

(** Whether a tree contains an AssignmentNode. *)
Fixpoint has_assignment (n : node) : bool :=
  match n with
  | NumberNode _ | VariableNode _ => false
  | BinaryOpNode l _ r => has_assignment l || has_assignment r
  | AssignmentNode _ _ => true
  | IfNode c t e =>
      has_assignment c ||
      match t with Some t' => has_assignment t' | None => false end ||
      match e with Some e' => has_assignment e' | None => false end
  | WhileNode c b =>
      has_assignment c ||
      match b with Some b' => has_assignment b' | None => false end
  end.

Definition has_assignment_opt (n : option node) : bool :=
  match n with Some n' => has_assignment n' | None => false end.

(** [frame A h env env']: going from [env] to [env'], only names in [A]
    changed, and nothing changed at all unless [h] holds. *)
Definition frame (A : gset string) (h : bool) (env env' : Env) : Prop :=
  (forall k, k ∉ A -> env' !! k = env !! k) /\ (h = false -> env' = env).

End Interpreter.

(** * The test driver

    [run_test(code)]: a fresh [Interpreter] starts with an empty
    dictionary. *)
Definition run_test (fuel : nat) (code : string) : outcome value * Interpreter.Env :=
  match Lexer.tokenize code with
  | Ok tokens =>
      match Parser.parse tokens with
      | Ok (ast, _) => Interpreter.interpret fuel ast ∅
      | Raise e => (Raise e, ∅)
      | Timeout => (Timeout, ∅)
      end
  | Raise e => (Raise e, ∅)
  | Timeout => (Timeout, ∅)
  end.

(** * Sample programs *)

Definition newline : string := String "010"%char "".

(** The lines of a text, joined by newlines. *)
Definition lines (l : list string) : string := String.concat newline l.

(** The four tests at the end of the source. *)
Definition precedence_test : string := "2 + 3 * 4".

Definition three_statements : string := lines ["x = 5"; "y = 3"; "x + y"].

Definition if_test : string :=
  lines ["x = 10"; "if x > 5"; "    x * 2"; "else"; "    x / 2"].

Definition while_test : string :=
  lines ["x = 0"; "while x < 5"; "    x = x + 1"; "x"].


(** The loop [while 3 - x: x = x + 1]. *)
Definition count_to_three : node :=
  WhileNode (BinaryOpNode (NumberNode 3) "-" (VariableNode "x"))
            (Some (AssignmentNode "x"
                     (BinaryOpNode (VariableNode "x") "+" (NumberNode 1)))).

(** An [int] beyond the range of [float]. *)
Definition ten_to_the_400 : Z := 10 ^ 400.

(** * Rounding to the nearest float

    What the IEEE 754 operations of [SpecFloat] compute, in integers: a
    number is given as [N / D * 2 ^ e0], with [N] and [D] integers. *)
Module Rounding.

(** The least exponent of the format. *)
Definition emin : Z := -1074.

(** [located N W mrs]: the record [mrs] holds the integer part of
    [N / W], and tells with its two bits where the rest lies: at zero,
    below one half, at one half, or above. *)
Definition located (N W : Z) (mrs : shr_record) : Prop :=
  (0 < W /\ 0 <= shr_m mrs /\
   0 <= N - shr_m mrs * W < W /\
   (shr_r mrs = true <-> W <= 2 * (N - shr_m mrs * W)) /\
   (shr_s mrs = true <->
    N - shr_m mrs * W <> 0 /\ 2 * (N - shr_m mrs * W) <> W))%Z.

(** Where [N / W] lies between two integers. *)
Definition loc (N W : Z) : location :=
  if (N mod W =? 0)%Z then loc_Exact
  else loc_Inexact (2 * (N mod W) ?= W)%Z.

(** The integer nearest to [N / W], the even one of two. *)
Definition nearest_even (N W : Z) : Z := round_nearest_even (N / W) (loc N W).

(** The float of sign [s] with the rounded mantissa [m], between 0 and
    [2 ^ 53], at the exponent [e]. *)
Definition make (s : bool) (m e : Z) : spec_float :=
  (if m =? 0 then S754_zero s
   else if m =? 2 ^ 53 then
     if e + 1 <=? 971 then S754_finite s (Z.to_pos (2 ^ 52)) (e + 1)
     else S754_infinity s
   else if e <=? 971 then S754_finite s (Z.to_pos m) e
   else S754_infinity s)%Z.

(** [rounds N D e0 s f]: the float [f] is the number [N / D * 2 ^ e0],
    taken with the sign [s], rounded to the nearest: the mantissa [m] is
    an integer nearest to the number divided by [2 ^ e], the even one of
    two, where [e] is the exponent of the format for a number of this
    size. *)
Definition rounds (N D e0 : Z) (s : bool) (f : spec_float) : Prop :=
  (exists e m,
    e0 <= e /\ emin <= e /\
    (emin < e -> 2 ^ 52 * (D * 2 ^ (e - e0)) <= N) /\
    N < 2 ^ 53 * (D * 2 ^ (e - e0)) /\
    2 * Z.abs (N - m * (D * 2 ^ (e - e0))) <= D * 2 ^ (e - e0) /\
    (2 * Z.abs (N - m * (D * 2 ^ (e - e0))) = D * 2 ^ (e - e0) ->
     Z.even m = true) /\
    0 <= m /\
    f = make s m e)%Z.

End Rounding.

(** * The true quotient

    What the specification calls the true quotient, said with rational
    numbers: the float that [/] returns is a float nearest to the exact
    quotient of the operands. *)
Module Nearest.

(** The number [x] with the sign [s]. *)
Definition signed (s : bool) (x : Q) : Q := if s then (- x)%Q else x.

(** A [float] of the format: a zero, an infinity, a NaN, or a finite
    number with a mantissa of at most 53 bits at the exponent that
    belongs to it. *)
Definition is_float (f : spec_float) : Prop :=
  valid_binary Py.prec Py.emax f = true.

(** [nearest v f]: the float [f] is a finite number, and no finite float
    is nearer to the number [v]. *)
Definition nearest (v : Q) (f : spec_float) : Prop :=
  is_float f /\
  exists a, Py.rational f = Some a /\
    forall g b, is_float g -> Py.rational g = Some b ->
                (Qabs (a - v) <= Qabs (b - v))%Q.

(** The numbers from here on are rounded beyond the largest float: half
    a unit in the last place above it. *)
Definition huge : Q := inject_Z (2 ^ 1024 - 2 ^ 970).

(** [rounded v q]: the float [q] is the number [v] as IEEE 754 rounds
    it: a nearest float when [v] is below [huge] in magnitude, and an
    infinity from there on. *)
Definition rounded (v : Q) (q : spec_float) : Prop :=
  (huge <= Qabs v /\ exists s, q = S754_infinity s)%Q \/
  (Qabs v < huge /\ nearest v q)%Q.

(** The result of [/] on two floats whose exact quotient is [v]: a
    nearest float, or an infinity when [v] is out of range. *)
Definition float_quotient (v : Q) (res : outcome value) : Prop :=
  (huge <= Qabs v /\ exists s, res = Ok (VFloat (S754_infinity s)))%Q \/
  (Qabs v < huge /\ exists q, nearest v q /\ res = Ok (VFloat q))%Q.

(** The result of [/] on two ints whose exact quotient is [v]: a nearest
    float, or an OverflowError when [v] is out of range. *)
Definition int_quotient (v : Q) (res : outcome value) : Prop :=
  (huge <= Qabs v /\ res = Raise OverflowError)%Q \/
  (Qabs v < huge /\ exists q, nearest v q /\ res = Ok (VFloat q))%Q.

End Nearest.

(** * Shapes of texts, tokens and trees *)
Module Shape.
(** The characters that [tokenize] has a branch for. *)
Definition accepted (c : ascii) : bool :=
  Lexer.isspace c || Lexer.isdigit c || Lexer.isalpha c ||
  Lexer.is_operator_char c.

(** A letter followed by letters and digits. *)
Definition is_word (s : string) : bool :=
  match s with
  | EmptyString => false
  | String c s' =>
      Lexer.isalpha c && forallb Lexer.isalnum (list_ascii_of_string s')
  end.

(** [id in keywords] *)
Definition is_keyword (id : string) : bool :=
  existsb (String.eqb id) Lexer.keywords.

(** The token of a word. *)
Definition word_token (id : string) : Token :=
  if is_keyword id then KEYWORD id else IDENTIFIER id.

(** What the text after a scanned run starts with: nothing, or a
    character that the run's test rejects. *)
Definition stops (p : ascii -> bool) (rest : list ascii) : bool :=
  match rest with
  | [] => true
  | c :: _ => negb (p c)
  end.

(** A character of ASCII. *)
Definition is_ascii (c : ascii) : bool := Nat.ltb (nat_of_ascii c) 128.

(** A text of ASCII characters: on these, [str.isspace], [str.isdigit],
    [str.isalpha] and [str.isalnum] are the tests of [Lexer]. *)
Definition ascii_text (text : list ascii) : bool := forallb is_ascii text.

(** The most digits that [int] converts from a string: the default of
    CPython's limit, [sys.int_info.default_max_str_digits]. *)
Definition max_str_digits : N := 4300.

(** [digit_runs n text]: no run of digits of [text] is longer than the
    limit, the first run being counted with [n] digits before it. *)
Fixpoint digit_runs (n : N) (text : list ascii) : bool :=
  match text with
  | [] => true
  | c :: text' =>
      if Lexer.isdigit c then
        N.leb (N.succ n) max_str_digits && digit_runs (N.succ n) text'
      else digit_runs 0 text'
  end.

(** A text in which every run of digits is within the limit of [int], so
    that the [int(num)] of [get_number] converts it. *)
Definition within_int_limit (text : list ascii) : bool := digit_runs 0 text.

(** A token as [tokenize] builds it. *)
Definition lexed (tok : Token) : bool :=
  match tok with
  | NUMBER n => Z.leb 0 n
  | IDENTIFIER v => is_word v && negb (is_keyword v)
  | KEYWORD v => is_keyword v
  | OPERATOR v =>
      match v with
      | String c EmptyString => Lexer.is_operator_char c
      | _ => false
      end
  end.

(** A token after which the grammar needs an operand: a binary operator,
    [=], [if] or [while]. *)
Definition dangling (tok : Token) : bool :=
  match tok with
  | OPERATOR v => existsb (String.eqb v) ["+"; "-"; "*"; "/"; "="]
  | KEYWORD v => existsb (String.eqb v) ["if"; "while"]
  | _ => false
  end.

(** A token that [primary] accepts. *)
Definition operand (tok : Token) : bool :=
  match tok with
  | NUMBER _ | IDENTIFIER _ => true
  | _ => false
  end.

(** A token that some method of the parser consumes. *)
Definition consumable (tok : Token) : bool :=
  match tok with
  | NUMBER _ | IDENTIFIER _ => true
  | OPERATOR v => existsb (String.eqb v) ["+"; "-"; "*"; "/"; "="]
  | KEYWORD v => existsb (String.eqb v) ["if"; "else"; "while"]
  end.

(** How [parse] can fail: with the AttributeError of [primary], the last
    token being one that needs an operand after it; or with the exception
    of [primary] for a token that is no operand, such a token being
    there. *)
Definition parse_failure (tokens : list Token) (e : exn) : Prop :=
  (e = AttributeError /\
   exists tok, tokens !! (length tokens - 1) = Some tok /\ dangling tok = true) \/
  (e = InvalidPrimary /\
   exists pos tok, tokens !! pos = Some tok /\ operand tok = false).

(** A position where an operand may be asked for: a token is there, or
    the token before needs an operand. *)
Definition ready (tokens : list Token) (pos : nat) : Prop :=
  (exists tok, tokens !! pos = Some tok) \/
  (exists p tok, pos = S p /\ tokens !! p = Some tok /\ dangling tok = true).

(** One of the four operators of the grammar. *)
Definition is_arithmetic (op : string) : bool :=
  existsb (String.eqb op) ["+"; "-"; "*"; "/"].

(** A tree of the production [expression]: numbers and variables under
    the four operators. *)
Fixpoint is_expression (n : node) : bool :=
  match n with
  | NumberNode _ | VariableNode _ => true
  | BinaryOpNode l op r =>
      is_arithmetic op && is_expression l && is_expression r
  | _ => false
  end.

(** A tree of the production [statement]: conditions and assigned values
    are expressions, bodies are statements or missing. *)
Fixpoint is_statement (n : node) : bool :=
  match n with
  | AssignmentNode _ e => is_expression e
  | IfNode c t e =>
      is_expression c &&
      match t with Some t' => is_statement t' | None => true end &&
      match e with Some e' => is_statement e' | None => true end
  | WhileNode c b =>
      is_expression c &&
      match b with Some b' => is_statement b' | None => true end
  | _ => is_expression n
  end.

(** The tokens from [pos] up to [pos'] are all consumable. *)
Definition consumed (tokens : list Token) (pos pos' : nat) : Prop :=
  forall i, pos <= i < pos' ->
            exists tok, tokens !! i = Some tok /\ consumable tok = true.

(** The tokens [op1 n1 op2 n2 ...] of a list of operators with their
    right operands. *)
Definition operand_tokens (items : list (string * Z)) : list Token :=
  flat_map (fun item => [OPERATOR item.1; NUMBER item.2]) items.

(** The operands applied one after the other, from the left. *)
Definition chain (first : node) (items : list (string * Z)) : node :=
  fold_left (fun acc item => BinaryOpNode acc item.1 (NumberNode item.2))
            items first.

(** Every operator of the list is one of [ops]. *)
Definition operators_in (ops : list string) (items : list (string * Z)) : bool :=
  forallb (fun item => existsb (String.eqb item.1) ops) items.

(** A tree without WhileNode. *)
Fixpoint loop_free (n : node) : bool :=
  match n with
  | NumberNode _ | VariableNode _ => true
  | BinaryOpNode l _ r => loop_free l && loop_free r
  | AssignmentNode _ e => loop_free e
  | IfNode c t e =>
      loop_free c &&
      match t with Some t' => loop_free t' | None => true end &&
      match e with Some e' => loop_free e' | None => true end
  | WhileNode _ _ => false
  end.

(** The height of a tree: the depth that the recursion of [interpret]
    reaches below its first call. *)
Fixpoint height (n : node) : nat :=
  match n with
  | NumberNode _ | VariableNode _ => 0
  | BinaryOpNode l _ r => S (Nat.max (height l) (height r))
  | AssignmentNode _ e => S (height e)
  | IfNode c t e =>
      S (Nat.max (height c)
           (Nat.max match t with Some t' => height t' | None => 0 end
                    match e with Some e' => height e' | None => 0 end))
  | WhileNode c b =>
      S (Nat.max (height c) match b with Some b' => height b' | None => 0 end)
  end.

(** A tree whose [if] and [while] have their body; the else-branch may be
    missing. *)
Fixpoint complete (n : node) : bool :=
  match n with
  | NumberNode _ | VariableNode _ => true
  | BinaryOpNode l _ r => complete l && complete r
  | AssignmentNode _ e => complete e
  | IfNode c t e =>
      complete c &&
      match t with Some t' => complete t' | None => false end &&
      match e with Some e' => complete e' | None => true end
  | WhileNode c b =>
      complete c && match b with Some b' => complete b' | None => false end
  end.

(** The exceptions that [interpret] can end with. *)
Definition interpreter_exception (e : exn) : bool :=
  match e with
  | DivisionByZero | UnknownNode | TypeError | OverflowError => true
  | _ => false
  end.

(** An expression over [+], [-] and [*]. *)
Fixpoint int_expression (n : node) : bool :=
  match n with
  | NumberNode _ | VariableNode _ => true
  | BinaryOpNode l op r =>
      existsb (String.eqb op) ["+"; "-"; "*"] &&
      int_expression l && int_expression r
  | _ => false
  end.

(** A dictionary that holds [int]s only. *)
Definition int_env (env : gmap string value) : Prop :=
  forall k v, env !! k = Some v -> exists z, v = VInt z.

(** The integer that such an expression stands for, a variable without
    binding standing for 0. *)
Fixpoint int_denotation (env : gmap string value) (n : node) : Z :=
  match n with
  | NumberNode v => v
  | VariableNode x =>
      match env !! x with
      | Some (VInt z) => z
      | _ => 0
      end
  | BinaryOpNode l op r =>
      if String.eqb op "+" then int_denotation env l + int_denotation env r
      else if String.eqb op "-" then int_denotation env l - int_denotation env r
      else int_denotation env l * int_denotation env r
  | _ => 0
  end%Z.

(** An [int] or a [float]. *)
Definition numeric (v : value) : bool :=
  match v with
  | VNone => false
  | VInt _ | VFloat _ => true
  end.

(** A dictionary that holds numbers only. *)
Definition numeric_env (env : gmap string value) : Prop :=
  forall k v, env !! k = Some v -> numeric v = true.

(** What the evaluation of a tree of the parser can raise. *)
Definition program_exception (e : exn) : bool :=
  match e with
  | DivisionByZero | UnknownNode | OverflowError => true
  | _ => false
  end.

(** What the evaluation of a tree of [expression] can raise. *)
Definition expression_exception (e : exn) : bool :=
  match e with
  | DivisionByZero | OverflowError => true
  | _ => false
  end.

(** What [run_test] can raise. *)
Definition run_test_exception (e : exn) : bool :=
  match e with
  | UnknownSymbol _ | AttributeError | InvalidPrimary => true
  | _ => program_exception e
  end.

(** The keyword [while]. *)
Definition is_while (tok : Token) : bool :=
  match tok with
  | KEYWORD v => String.eqb v "while"
  | _ => false
  end.

(** A text of whitespace only (the empty text too). *)
Definition blank (text : string) : bool :=
  forallb Lexer.isspace (list_ascii_of_string text).

End Shape.

(** * Proof tactics *)

(** Destructs the call bound first in hypothesis [H]. *)
Ltac first_call m :=
  match m with
  | bind ?m' _ => first_call m'
  | _ => m
  end.

Ltac step_in H :=
  match type of H with
  | bind ?m _ = _ =>
      let m' := first_call m in
      let E := fresh "E" in
      destruct m' as [[? ?]| ? |] eqn:E; simpl in H; try discriminate H
  end.


(** Splits hypotheses [a || b = false] and goals of that form. *)
Ltac split_orb :=
  simpl; intros;
  repeat match goal with
         | H : _ || _ = false |- _ => apply orb_false_elim in H; destruct H
         end;
  repeat first [assumption | split | apply orb_false_intro].

(** * Facts about the lexer *)
Module LexerFacts.
Import Lexer.

Lemma scan_while_rest (p : ascii -> bool) (text : list ascii) :
  forall acc, length (scan_while p text acc).2 <= length text.
Proof.
  induction text as [|c text IH]; intros acc; simpl; [lia|].
  destruct (p c); simpl; [|lia]. specialize (IH (String.append acc (String c ""))). lia.
Qed.

Lemma get_number_rest (c : ascii) (text : list ascii) :
  isdigit c = true -> length (get_number (c :: text)).2 <= length text.
Proof.
  intros H. unfold get_number. simpl. rewrite H.
  match goal with
  | |- context [scan_while ?p ?t ?a] =>
      pose proof (scan_while_rest p t a) as Hr; destruct (scan_while p t a)
  end.
  exact Hr.
Qed.

Lemma get_identifier_rest (c : ascii) (text : list ascii) :
  isalpha c = true -> length (get_identifier (c :: text)).2 <= length text.
Proof.
  intros H. unfold get_identifier. simpl. unfold isalnum at 1. rewrite H. simpl.
  match goal with
  | |- context [scan_while ?p ?t ?a] =>
      pose proof (scan_while_rest p t a) as Hr; destruct (scan_while p t a)
  end.
  match goal with
  | |- context [if ?b then _ else _] => destruct b
  end; exact Hr.
Qed.

Lemma tokenize_loop_total (fuel : nat) :
  forall text tokens,
    length text <= fuel -> tokenize_loop fuel text tokens <> Timeout.
Proof.
  induction fuel as [|fuel IH]; intros [|c text] tokens Hlen; simpl in *;
    try discriminate; try lia.
  destruct (isspace c); [apply IH; lia|].
  destruct (isdigit c) eqn:D.
  { pose proof (get_number_rest c text D) as Hr.
    destruct (get_number (c :: text)) as [tok rest]. apply IH. simpl in Hr. lia. }
  destruct (isalpha c) eqn:A.
  { pose proof (get_identifier_rest c text A) as Hr.
    destruct (get_identifier (c :: text)) as [tok rest]. apply IH. simpl in Hr. lia. }
  destruct (is_operator_char c); [apply IH; lia | discriminate].
Qed.

Lemma length_list_ascii (s : string) :
  length (list_ascii_of_string s) = String.length s.
Proof. induction s as [|c s IH]; simpl; congruence. Qed.

(** [tokenize] returns or raises on every text. *)
Lemma tokenize_terminates (text : string) : tokenize text <> Timeout.
Proof.
  unfold tokenize. apply tokenize_loop_total. rewrite length_list_ascii. lia.
Qed.

End LexerFacts.

(** * Facts about the arithmetic *)
Module PyFacts.

Local Open Scope Z_scope.

(** ** The conversion of a non-zero [int] is not zero *)

Lemma digits2_pos_lower (p : positive) :
  2 ^ (Zpos (digits2_pos p) - 1) <= Zpos p.
Proof.
  induction p as [p IH|p IH|]; simpl digits2_pos; [| |simpl; lia].
  - rewrite Pos2Z.inj_succ.
    replace (Z.succ (Zpos (digits2_pos p)) - 1)
      with (Z.succ (Zpos (digits2_pos p) - 1)) by lia.
    rewrite Z.pow_succ_r by lia. lia.
  - rewrite Pos2Z.inj_succ.
    replace (Z.succ (Zpos (digits2_pos p)) - 1)
      with (Z.succ (Zpos (digits2_pos p) - 1)) by lia.
    rewrite Z.pow_succ_r by lia. lia.
Qed.

Lemma shr_1_m (r : shr_record) :
  0 <= shr_m r -> shr_m (shr_1 r) = shr_m r / 2 /\ 0 <= shr_m (shr_1 r).
Proof.
  destruct r as [m r s]. cbn [shr_m]. intros Hm.
  destruct m as [|[p|p|]|p]; cbn [shr_1 shr_m]; [| | | |lia];
    (split; [|lia]).
  - reflexivity.
  - apply (Z.div_unique _ 2 _ 1); lia.
  - apply (Z.div_unique _ 2 _ 0); lia.
  - reflexivity.
Qed.

Lemma iter_pos_shr_1_m (n : positive) :
  forall r : shr_record,
    0 <= shr_m r ->
    shr_m (SpecFloat.iter_pos shr_1 n r) = shr_m r / 2 ^ Zpos n /\
    0 <= shr_m (SpecFloat.iter_pos shr_1 n r).
Proof.
  induction n as [n IH|n IH|]; intros r Hr; simpl SpecFloat.iter_pos.
  - destruct (shr_1_m r Hr) as [E1 P1].
    destruct (IH _ P1) as [E2 P2]. destruct (IH _ P2) as [E3 P3].
    split; [|exact P3]. rewrite E3, E2, E1.
    rewrite !Z.div_div by lia. f_equal.
    replace (Zpos n~1) with (1 + Zpos n + Zpos n) by lia.
    rewrite !Z.pow_add_r by lia. lia.
  - destruct (IH _ Hr) as [E2 P2]. destruct (IH _ P2) as [E3 P3].
    split; [|exact P3]. rewrite E3, E2.
    rewrite !Z.div_div by lia. f_equal.
    replace (Zpos n~0) with (Zpos n + Zpos n) by lia.
    rewrite !Z.pow_add_r by lia. lia.
  - destruct (shr_1_m r Hr) as [E1 P1]. split; [|exact P1].
    rewrite E1. reflexivity.
Qed.

Lemma shr_record_of_loc_m m l : shr_m (shr_record_of_loc m l) = m.
Proof. destruct l as [|[]]; reflexivity. Qed.

(** A right shift to the precision of [float] keeps a positive
    mantissa positive, unless the exponent is below the subnormals. *)
Lemma shr_fexp_positive m e l :
  0 < m -> -1074 <= e ->
  0 < shr_m (shr_fexp Py.prec Py.emax m e l).1 /\
  e <= (shr_fexp Py.prec Py.emax m e l).2.
Proof.
  intros Hm He. unfold shr_fexp, shr.
  destruct m as [|p|p]; try lia.
  pose proof (digits2_pos_lower p) as Hd.
  unfold fexp, emin, Py.prec, Py.emax. simpl Zdigits2.
  set (d := Zpos (digits2_pos p)) in *.
  assert (Hd1 : 1 <= d) by (unfold d; lia).
  destruct (Z.max (d + e - 53) (3 - 1024 - 53) - e) as [|n|n] eqn:En;
    simpl; rewrite ?shr_record_of_loc_m; try lia.
  destruct (iter_pos_shr_1_m n (shr_record_of_loc (Zpos p) l)) as [E _];
    [rewrite shr_record_of_loc_m; lia|].
  rewrite E, shr_record_of_loc_m. split; [|lia].
  apply Z.div_str_pos. split; [apply Z.pow_pos_nonneg; lia|].
  assert (Zpos n <= d - 1) by lia.
  transitivity (2 ^ (d - 1)); [|exact Hd].
  apply Z.pow_le_mono_r; lia.
Qed.

Lemma round_nearest_even_positive m l :
  0 < m -> 0 < round_nearest_even m l.
Proof.
  intros Hm. destruct l as [|[]]; simpl; try lia.
  destruct (Z.even m); lia.
Qed.

Lemma binary_round_aux_nonzero sx m e l :
  0 < m -> -1074 <= e ->
  Py.float_is_zero (binary_round_aux Py.prec Py.emax sx m e l) = false.
Proof.
  intros Hm He. unfold binary_round_aux.
  pose proof (shr_fexp_positive m e l Hm He) as [P1 P2].
  destruct (shr_fexp Py.prec Py.emax m e l) as [mrs' e']. simpl in P1, P2.
  pose proof (round_nearest_even_positive _ (loc_of_shr_record mrs') P1) as P3.
  assert (He' : -1074 <= e') by lia.
  pose proof (shr_fexp_positive _ e' loc_Exact P3 He') as [P4 _].
  destruct (shr_fexp Py.prec Py.emax _ e' loc_Exact) as [mrs'' e''].
  simpl in P4. destruct (shr_m mrs'') as [|q|q]; try lia.
  destruct (e'' <=? Py.emax - Py.prec); reflexivity.
Qed.

Lemma binary_normalize_nonzero (n : Z) :
  n <> 0 ->
  Py.float_is_zero (binary_normalize Py.prec Py.emax n 0 false) = false.
Proof.
  intros Hn.
  assert (H : forall s p,
             Py.float_is_zero (binary_round Py.prec Py.emax s p 0) = false).
  { intros s p. unfold binary_round, shl_align.
    set (ex' := fexp Py.prec Py.emax (Zpos (digits2_pos p) + 0)).
    assert (-1074 <= ex').
    { unfold ex', fexp, emin, Py.prec, Py.emax. lia. }
    destruct (ex' - 0) as [|d|d] eqn:E;
      apply binary_round_aux_nonzero; lia. }
  destruct n as [|p|p]; [congruence| |]; apply H.
Qed.

Lemma float_of_int_nonzero (n : Z) (f : spec_float) :
  n <> 0 -> Py.float_of_int n = Ok f -> Py.float_is_zero f = false.
Proof.
  intros Hn. unfold Py.float_of_int, Py.checked.
  pose proof (binary_normalize_nonzero n Hn) as H.
  destruct (binary_normalize Py.prec Py.emax n 0 false); try discriminate;
    intros [= <-]; exact H.
Qed.

(** ** True division by a number that is not zero

    The quotient is a [float], also for two [int]s; the only failure is
    the OverflowError of an [int] that has no [float], or of a quotient
    of two [int]s that has none. *)
Lemma truediv_nonzero (vl vr : value) :
  vl <> VNone -> vr <> VNone -> Py.nonzero vr ->
  (exists q, Py.truediv vl vr = Ok (VFloat q)) \/
  Py.truediv vl vr = Raise OverflowError.
Proof.
  intros Hl Hr Hnz.
  destruct vl as [|x|f]; [congruence| |];
    destruct vr as [|y|g]; try congruence; simpl in Hnz; simpl.
  - apply Z.eqb_neq in Hnz. rewrite Hnz.
    destruct (SFdiv Py.prec Py.emax (Py.exact x) (Py.exact y)); simpl; eauto.
  - unfold Py.float_of_int.
    destruct (binary_normalize Py.prec Py.emax x 0 false); simpl; auto;
      unfold Py.float_div; rewrite Hnz; eauto.
  - destruct (Py.float_of_int y) as [g| e |] eqn:E; simpl.
    + unfold Py.float_div.
      rewrite (float_of_int_nonzero y g Hnz E). eauto.
    + unfold Py.float_of_int, Py.checked in E.
      destruct (binary_normalize Py.prec Py.emax y 0 false);
        try discriminate E. injection E as <-. auto.
    + unfold Py.float_of_int, Py.checked in E.
      destruct (binary_normalize Py.prec Py.emax y 0 false); discriminate E.
  - unfold Py.float_div. rewrite Hnz. eauto.
Qed.

(** [5 / 2] is the float 2.5, and [1 / 3] is the float next to one third,
    less than 2 ** -54 away from it. *)
Example truediv_five_by_two :
  exists q r, Py.truediv (VInt 5) (VInt 2) = Ok (VFloat q) /\
              Py.rational q = Some r /\ (r == 5 # 2)%Q.
Proof. eexists _, _. repeat split. Qed.

Example truediv_one_by_three :
  exists q r, Py.truediv (VInt 1) (VInt 3) = Ok (VFloat q) /\
              Py.rational q = Some r /\
              (r < 1 # 3)%Q /\ ((1 # 3) - r < Qpower 2 (-54))%Q.
Proof. eexists _, _. repeat split. Qed.

(** [10 ** 400 / 10 ** 399] is the float 10.0: two [int]s are divided
    exactly, whatever their size, and the quotient is rounded once. *)
Example truediv_large_ints :
  exists q r, Py.truediv (VInt (10 ^ 400)) (VInt (10 ^ 399)) = Ok (VFloat q) /\
              Py.rational q = Some r /\ (r == 10)%Q.
Proof.
  eexists _, _. split; [vm_compute; reflexivity|].
  split; [reflexivity|]. vm_compute. reflexivity.
Qed.

End PyFacts.

(** * Facts about the parser *)
Module ParserFacts.
Import Parser.

(** [primary] by cases on the current token: the two [consume] calls it
    makes cannot fail, their type was just tested. *)
Lemma primary_eq (tokens : list Token) (pos : nat) :
  primary tokens pos =
  match tokens !! pos with
  | None => Raise AttributeError
  | Some (NUMBER n) => Ok (NumberNode n, S pos)
  | Some (IDENTIFIER s) => Ok (VariableNode s, S pos)
  | Some _ => Raise InvalidPrimary
  end.
Proof.
  unfold primary, consume, current_token.
  destruct (tokens !! pos) as [[n|s|s|s]|]; reflexivity.
Qed.

Lemma at_operator_true (tokens : list Token) (ops : list string) (pos : nat) :
  at_operator tokens ops pos = true ->
  exists op, tokens !! pos = Some (OPERATOR op) /\ existsb (String.eqb op) ops = true.
Proof.
  unfold at_operator, current_token.
  destruct (tokens !! pos) as [[n|s|s|s]|]; simpl; try discriminate.
  intros H. exists s. split; [reflexivity | exact H].
Qed.

Lemma consume_operator (tokens : list Token) (pos : nat) (op : string) :
  tokens !! pos = Some (OPERATOR op) ->
  consume tokens "OPERATOR" None pos = Ok (OPERATOR op, S pos).
Proof. intros H. unfold consume, current_token. rewrite H. reflexivity. Qed.

Lemma lookup_in_range (tokens : list Token) (pos : nat) (tok : Token) :
  tokens !! pos = Some tok -> pos < length tokens.
Proof. intros H. apply lookup_lt_is_Some. eauto. Qed.

(** ** Positions only grow *)

Lemma primary_pos (tokens : list Token) pos a pos' :
  primary tokens pos = Ok (a, pos') -> pos' = S pos /\ pos < length tokens.
Proof.
  rewrite primary_eq.
  destruct (tokens !! pos) as [[n|s|s|s]|] eqn:E; try discriminate;
    intros [= <- <-]; split; eauto using lookup_in_range.
Qed.

Lemma multiplication_loop_pos (tokens : list Token) fuel :
  forall node0 pos a pos',
    multiplication_loop tokens fuel node0 pos = Ok (a, pos') -> pos <= pos'.
Proof.
  induction fuel as [|fuel IH]; intros node0 pos a pos'; simpl;
    destruct (at_operator tokens _ pos) eqn:G; try discriminate;
    try (intros [= <- <-]; lia).
  destruct (at_operator_true _ _ _ G) as (op & Htok & _).
  rewrite (consume_operator _ _ _ Htok). simpl.
  intros H. step_in H. apply primary_pos in E as [-> _].
  apply IH in H. lia.
Qed.

Lemma multiplication_pos (tokens : list Token) fuel pos a pos' :
  multiplication tokens fuel pos = Ok (a, pos') -> pos < pos'.
Proof.
  unfold multiplication. intros H. step_in H.
  apply primary_pos in E as [-> _].
  apply multiplication_loop_pos in H. lia.
Qed.

Lemma addition_loop_pos (tokens : list Token) fuel :
  forall node0 pos a pos',
    addition_loop tokens fuel node0 pos = Ok (a, pos') -> pos <= pos'.
Proof.
  induction fuel as [|fuel IH]; intros node0 pos a pos'; simpl;
    destruct (at_operator tokens _ pos) eqn:G; try discriminate;
    try (intros [= <- <-]; lia).
  destruct (at_operator_true _ _ _ G) as (op & Htok & _).
  rewrite (consume_operator _ _ _ Htok). simpl.
  intros H. step_in H. apply multiplication_pos in E.
  apply IH in H. lia.
Qed.

Lemma expression_pos (tokens : list Token) fuel pos a pos' :
  expression tokens fuel pos = Ok (a, pos') -> pos < pos'.
Proof.
  unfold expression, addition. intros H. step_in H.
  apply multiplication_pos in E.
  apply addition_loop_pos in H. lia.
Qed.

Lemma consume_pos (tokens : list Token) ty v pos tok pos' :
  consume tokens ty v pos = Ok (tok, pos') ->
  pos' = S pos /\ tokens !! pos = Some tok.
Proof.
  unfold consume, current_token.
  destruct (tokens !! pos) as [t|]; [|discriminate].
  destruct (negb _); [discriminate|].
  destruct v as [v|]; [destruct (_ && _); [discriminate|]|];
    intros [= <- <-]; auto.
Qed.

Lemma statement_pos (tokens : list Token) fuel :
  forall pos a pos',
    statement tokens fuel pos = Ok (a, pos') -> pos <= pos'.
Proof.
  induction fuel as [|fuel IH]; intros pos a pos'; simpl; [discriminate|].
  unfold current_token.
  destruct (tokens !! pos) as [tok|] eqn:Htok; [|intros [= <- <-]; lia].
  destruct (String.eqb (type tok) "KEYWORD").
  - destruct (value_is tok "if"); [|destruct (value_is tok "while")].
    + unfold some_node, if_statement. intros H.
      step_in H. step_in H. step_in H.
      apply consume_pos in E as [-> _]. apply expression_pos in E0.
      apply IH in E1.
      destruct (at_else tokens _).
      * step_in H. step_in H. injection H as <- <-.
        apply consume_pos in E as [-> _]. apply IH in E2. lia.
      * injection H as <- <-. lia.
    + unfold some_node, while_statement. intros H.
      step_in H. step_in H. step_in H.
      injection H as <- <-.
      apply consume_pos in E as [-> _]. apply expression_pos in E0.
      apply IH in E1. lia.
    + intros [= <- <-]; lia.
  - destruct (at_assignment tokens pos).
    + unfold some_node, assignment. intros H.
      step_in H. step_in H. step_in H.
      injection H as <- <-.
      apply consume_pos in E as [-> _]. apply consume_pos in E0 as [-> _].
      apply expression_pos in E1. lia.
    + unfold some_node. intros H. step_in H. injection H as <- <-.
      apply expression_pos in E. lia.
Qed.

(** ** A larger budget does not change a result *)






(** ** The budget of [parse] is enough

    Every loop iteration and every nested statement starts after at
    least one more token was consumed. *)

Lemma multiplication_loop_total (tokens : list Token) fuel :
  forall node0 pos,
    length tokens <= pos + fuel ->
    multiplication_loop tokens fuel node0 pos <> Timeout.
Proof.
  induction fuel as [|fuel IH]; intros node0 pos Hlen; simpl;
    destruct (at_operator tokens _ pos) eqn:G; try discriminate;
    destruct (at_operator_true _ _ _ G) as (op & Htok & _);
    pose proof (lookup_in_range _ _ _ Htok); [lia|].
  rewrite (consume_operator _ _ _ Htok). simpl.
  destruct (primary tokens (S pos)) as [[r p2]| |] eqn:E; simpl;
    try discriminate.
  - apply primary_pos in E as [-> _]. apply IH. lia.
  - rewrite primary_eq in E.
    destruct (tokens !! S pos) as [[]|]; discriminate.
Qed.

Lemma multiplication_total (tokens : list Token) fuel pos :
  length tokens <= pos + fuel -> multiplication tokens fuel pos <> Timeout.
Proof.
  intros Hlen. unfold multiplication.
  destruct (primary tokens pos) as [[r p1]| |] eqn:E; simpl; try discriminate.
  - apply primary_pos in E as [-> _]. apply multiplication_loop_total. lia.
  - rewrite primary_eq in E.
    destruct (tokens !! pos) as [[]|]; discriminate.
Qed.

Lemma addition_loop_total (tokens : list Token) fuel :
  forall node0 pos,
    length tokens <= pos + fuel ->
    addition_loop tokens fuel node0 pos <> Timeout.
Proof.
  induction fuel as [|fuel IH]; intros node0 pos Hlen; simpl;
    destruct (at_operator tokens _ pos) eqn:G; try discriminate;
    destruct (at_operator_true _ _ _ G) as (op & Htok & _);
    pose proof (lookup_in_range _ _ _ Htok); [lia|].
  rewrite (consume_operator _ _ _ Htok). simpl.
  destruct (multiplication tokens fuel (S pos)) as [[r p2]| |] eqn:E; simpl;
    try discriminate.
  - apply multiplication_pos in E. apply IH. lia.
  - apply multiplication_total in E; [contradiction | lia].
Qed.

Lemma expression_total (tokens : list Token) fuel pos :
  length tokens <= pos + fuel -> expression tokens fuel pos <> Timeout.
Proof.
  intros Hlen. unfold expression, addition.
  destruct (multiplication tokens fuel pos) as [[r p1]| |] eqn:E; simpl;
    try discriminate.
  - apply multiplication_pos in E. apply addition_loop_total. lia.
  - apply multiplication_total in E; [contradiction | lia].
Qed.

Lemma consume_not_timeout (tokens : list Token) ty v pos :
  consume tokens ty v pos <> Timeout.
Proof.
  unfold consume. destruct (current_token tokens pos); [|discriminate].
  destruct (negb _); [discriminate|].
  destruct v; [destruct (_ && _)|]; discriminate.
Qed.

Lemma statement_total (tokens : list Token) fuel :
  forall pos,
    0 < fuel -> length tokens < pos + fuel ->
    statement tokens fuel pos <> Timeout.
Proof.
  induction fuel as [|fuel IH]; intros pos Hpos Hlen; simpl.
  - lia.
  - destruct (current_token tokens pos) as [tok|] eqn:Htok; [|discriminate].
    apply lookup_in_range in Htok.
    destruct (String.eqb (type tok) "KEYWORD").
    + destruct (value_is tok "if"); [|destruct (value_is tok "while")];
        [| |discriminate].
      * unfold some_node, if_statement.
        destruct (consume tokens "KEYWORD" (Some "if") pos) as [[t p1]| |] eqn:E1;
          simpl; try discriminate; [|apply consume_not_timeout in E1; contradiction].
        apply consume_pos in E1 as [-> _].
        destruct (expression tokens fuel (S pos)) as [[c p2]| |] eqn:E2;
          simpl; try discriminate;
          [|apply expression_total in E2; [contradiction | lia]].
        apply expression_pos in E2.
        destruct (statement tokens fuel p2) as [[ib p3]| |] eqn:E3;
          simpl; try discriminate; [|apply IH in E3; [contradiction | lia | lia]].
        apply statement_pos in E3.
        destruct (at_else tokens p3); [|discriminate].
        destruct (consume tokens "KEYWORD" (Some "else") p3) as [[t' p4]| |] eqn:E4;
          simpl; try discriminate; [|apply consume_not_timeout in E4; contradiction].
        apply consume_pos in E4 as [-> _].
        destruct (statement tokens fuel (S p3)) as [[eb p5]| |] eqn:E5;
          simpl; try discriminate. apply IH in E5; [contradiction | lia | lia].
      * unfold some_node, while_statement.
        destruct (consume tokens "KEYWORD" (Some "while") pos) as [[t p1]| |] eqn:E1;
          simpl; try discriminate; [|apply consume_not_timeout in E1; contradiction].
        apply consume_pos in E1 as [-> _].
        destruct (expression tokens fuel (S pos)) as [[c p2]| |] eqn:E2;
          simpl; try discriminate;
          [|apply expression_total in E2; [contradiction | lia]].
        apply expression_pos in E2.
        destruct (statement tokens fuel p2) as [[ib p3]| |] eqn:E3;
          simpl; try discriminate. apply IH in E3; [contradiction | lia | lia].
    + destruct (at_assignment tokens pos).
      * unfold some_node, assignment.
        destruct (consume tokens "IDENTIFIER" None pos) as [[t p1]| |] eqn:E1;
          simpl; try discriminate; [|apply consume_not_timeout in E1; contradiction].
        apply consume_pos in E1 as [-> _].
        destruct (consume tokens "OPERATOR" (Some "=") (S pos)) as [[t' p2]| |] eqn:E2;
          simpl; try discriminate; [|apply consume_not_timeout in E2; contradiction].
        apply consume_pos in E2 as [-> _].
        destruct (expression tokens fuel (S (S pos))) as [[c p3]| |] eqn:E3;
          simpl; try discriminate.
        apply expression_total in E3; [contradiction | lia].
      * unfold some_node.
        destruct (expression tokens fuel pos) as [[c p3]| |] eqn:E3;
          simpl; try discriminate.
        apply expression_total in E3; [contradiction | lia].
Qed.

(** [parse] returns or raises on every token sequence. *)
Theorem parse_terminates (tokens : list Token) : parse tokens <> Timeout.
Proof. apply statement_total; simpl; lia. Qed.

(** ** The parser reads no token beyond the position it stops at

    Cutting the token list at or after the final position of a
    successful call does not change the call. *)
















(** ** The exceptions of [parse]

    Every [consume] call of the parser comes after a test of the token
    it consumes, so none of the three exceptions of [consume] is ever
    raised; a call fails only inside [primary]. *)

Lemma consume_typed (tokens : list Token) pos tok ty :
  tokens !! pos = Some tok -> String.eqb (type tok) ty = true ->
  consume tokens ty None pos = Ok (tok, S pos).
Proof.
  intros Htok Hty. unfold consume, current_token. rewrite Htok, Hty.
  reflexivity.
Qed.

Lemma consume_checked (tokens : list Token) pos tok ty v :
  tokens !! pos = Some tok -> String.eqb (type tok) ty = true ->
  value_is tok v = true ->
  consume tokens ty (Some v) pos = Ok (tok, S pos).
Proof.
  intros Htok Hty Hv. unfold consume, current_token. rewrite Htok, Hty, Hv.
  simpl. rewrite andb_false_r. reflexivity.
Qed.

Lemma at_else_true (tokens : list Token) pos :
  at_else tokens pos = true ->
  exists tok, tokens !! pos = Some tok /\
              String.eqb (type tok) "KEYWORD" = true /\
              value_is tok "else" = true.
Proof.
  unfold at_else, current_token. destruct (tokens !! pos) as [tok|];
    [|discriminate].
  intros H. apply andb_true_iff in H. eauto.
Qed.

Lemma at_assignment_true (tokens : list Token) pos :
  at_assignment tokens pos = true ->
  exists tok nxt,
    tokens !! pos = Some tok /\ String.eqb (type tok) "IDENTIFIER" = true /\
    tokens !! (S pos) = Some nxt /\ String.eqb (type nxt) "OPERATOR" = true /\
    value_is nxt "=" = true.
Proof.
  unfold at_assignment, current_token, peek_next_token.
  replace (pos + 1) with (S pos) by lia.
  destruct (tokens !! pos) as [tok|]; [|discriminate].
  destruct (tokens !! S pos) as [nxt|]; [|rewrite andb_false_r; discriminate].
  intros H. apply andb_true_iff in H as [H1 H2].
  apply andb_true_iff in H2 as [H2 H3]. eauto 10.
Qed.

Lemma primary_raises (tokens : list Token) pos e :
  primary tokens pos = Raise e -> e = AttributeError \/ e = InvalidPrimary.
Proof.
  rewrite primary_eq.
  destruct (tokens !! pos) as [[]|]; intros [= <-]; auto.
Qed.

Lemma multiplication_loop_raises (tokens : list Token) fuel :
  forall node0 pos e,
    multiplication_loop tokens fuel node0 pos = Raise e ->
    e = AttributeError \/ e = InvalidPrimary.
Proof.
  induction fuel as [|fuel IH]; intros node0 pos e; simpl;
    destruct (at_operator tokens _ pos) eqn:G; try discriminate.
  destruct (at_operator_true _ _ _ G) as (op & Htok & _).
  rewrite (consume_operator _ _ _ Htok). simpl.
  destruct (primary tokens (S pos)) as [[r p2]| x |] eqn:E; simpl;
    try discriminate.
  - apply IH.
  - intros [= <-]. eapply primary_raises; eassumption.
Qed.

Lemma multiplication_raises (tokens : list Token) fuel pos e :
  multiplication tokens fuel pos = Raise e ->
  e = AttributeError \/ e = InvalidPrimary.
Proof.
  unfold multiplication.
  destruct (primary tokens pos) as [[r p1]| x |] eqn:E; simpl;
    try discriminate.
  - apply multiplication_loop_raises.
  - intros [= <-]. eapply primary_raises; eassumption.
Qed.

Lemma addition_loop_raises (tokens : list Token) fuel :
  forall node0 pos e,
    addition_loop tokens fuel node0 pos = Raise e ->
    e = AttributeError \/ e = InvalidPrimary.
Proof.
  induction fuel as [|fuel IH]; intros node0 pos e; simpl;
    destruct (at_operator tokens _ pos) eqn:G; try discriminate.
  destruct (at_operator_true _ _ _ G) as (op & Htok & _).
  rewrite (consume_operator _ _ _ Htok). simpl.
  destruct (multiplication tokens fuel (S pos)) as [[r p2]| x |] eqn:E; simpl;
    try discriminate.
  - apply IH.
  - intros [= <-]. eapply multiplication_raises; eassumption.
Qed.

Lemma expression_raises (tokens : list Token) fuel pos e :
  expression tokens fuel pos = Raise e ->
  e = AttributeError \/ e = InvalidPrimary.
Proof.
  unfold expression, addition.
  destruct (multiplication tokens fuel pos) as [[r p1]| x |] eqn:E; simpl;
    try discriminate.
  - apply addition_loop_raises.
  - intros [= <-]. eapply multiplication_raises; eassumption.
Qed.

Lemma statement_raises (tokens : list Token) fuel :
  forall pos e,
    statement tokens fuel pos = Raise e ->
    e = AttributeError \/ e = InvalidPrimary.
Proof.
  induction fuel as [|fuel IH]; intros pos e; simpl; [discriminate|].
  unfold current_token.
  destruct (tokens !! pos) as [tok|] eqn:Htok; [|discriminate].
  destruct (String.eqb (type tok) "KEYWORD") eqn:K.
  - destruct (value_is tok "if") eqn:V1; [|destruct (value_is tok "while") eqn:V2];
      [| |discriminate].
    + unfold some_node, if_statement.
      rewrite (consume_checked _ _ _ _ _ Htok K V1). simpl.
      destruct (expression tokens fuel (S pos)) as [[c p2]| x |] eqn:E2; simpl;
        try discriminate;
        [|intros [= <-]; eapply expression_raises; eassumption].
      destruct (statement tokens fuel p2) as [[ib p3]| x |] eqn:E3; simpl;
        try discriminate; [|intros [= <-]; eapply IH; eassumption].
      destruct (at_else tokens p3) eqn:GE; [|discriminate].
      destruct (at_else_true _ _ GE) as (tok' & Htok' & K' & V').
      rewrite (consume_checked _ _ _ _ _ Htok' K' V'). simpl.
      destruct (statement tokens fuel (S p3)) as [[eb p5]| x |] eqn:E5; simpl;
        try discriminate. intros [= <-]; eapply IH; eassumption.
    + unfold some_node, while_statement.
      rewrite (consume_checked _ _ _ _ _ Htok K V2). simpl.
      destruct (expression tokens fuel (S pos)) as [[c p2]| x |] eqn:E2; simpl;
        try discriminate;
        [|intros [= <-]; eapply expression_raises; eassumption].
      destruct (statement tokens fuel p2) as [[ib p3]| x |] eqn:E3; simpl;
        try discriminate. intros [= <-]; eapply IH; eassumption.
  - destruct (at_assignment tokens pos) eqn:GA.
    + destruct (at_assignment_true _ _ GA)
        as (tok1 & nxt & Htok1 & K1 & Hnxt & K2 & V2).
      unfold some_node, assignment.
      rewrite (consume_typed _ _ _ _ Htok1 K1). simpl.
      rewrite (consume_checked _ _ _ _ _ Hnxt K2 V2). simpl.
      destruct (expression tokens fuel (S (S pos))) as [[c p2]| x |] eqn:E2;
        simpl; try discriminate.
      intros [= <-]; eapply expression_raises; eassumption.
    + unfold some_node.
      destruct (expression tokens fuel pos) as [[c p2]| x |] eqn:E2;
        simpl; try discriminate.
      intros [= <-]; eapply expression_raises; eassumption.
Qed.

(** [parse] raises nothing but the AttributeError of [primary] at the
    end of the tokens and the exception of [primary] at a token that is
    no NUMBER and no IDENTIFIER. *)
Lemma parse_raises (tokens : list Token) e :
  parse tokens = Raise e -> e = AttributeError \/ e = InvalidPrimary.
Proof. apply statement_raises. Qed.

(** [primary] raises AttributeError exactly where the tokens are
    exhausted. *)
Lemma primary_at_end (tokens : list Token) pos :
  length tokens <= pos -> primary tokens pos = Raise AttributeError.
Proof.
  intros H. rewrite primary_eq, (lookup_ge_None_2 tokens pos) by exact H.
  reflexivity.
Qed.

Lemma some_node_not_none (r : outcome (node * nat)) pos :
  some_node r <> Ok (None, pos).
Proof. destruct r as [[? ?]| |]; discriminate. Qed.

(** When [statement] returns [None]. *)
Lemma statement_none (tokens : list Token) fuel pos pos' :
  statement tokens (S fuel) pos = Ok (None, pos') <->
  pos' = pos /\
  (tokens !! pos = None \/
   exists v, tokens !! pos = Some (KEYWORD v) /\ v <> "if" /\ v <> "while").
Proof.
  simpl. unfold current_token.
  destruct (tokens !! pos) as [tok|].
  2: { split; [intros [= <-]; auto | intros [-> _]; reflexivity]. }
  destruct tok as [n|s|s|s]; simpl.
  1, 2, 4:
    split;
    [ intros H; exfalso; destruct (at_assignment tokens pos);
      eapply some_node_not_none; exact H
    | intros [_ [H|(v & H & _)]]; discriminate H ].
  destruct (String.eqb s "if") eqn:V1; [|destruct (String.eqb s "while") eqn:V2].
  - apply String.eqb_eq in V1 as ->. split.
    + intros H. exfalso. eapply some_node_not_none; exact H.
    + intros [_ [H|(v & [= <-] & H & _)]]; [discriminate | congruence].
  - apply String.eqb_eq in V2 as ->. split.
    + intros H. exfalso. eapply some_node_not_none; exact H.
    + intros [_ [H|(v & [= <-] & _ & H)]]; [discriminate | congruence].
  - apply String.eqb_neq in V1, V2. split.
    + intros [= <-]. split; [reflexivity|]. right. eauto.
    + intros [-> _]. reflexivity.
Qed.

(** [parse] returns no statement for an empty token list and for one
    that starts with a KEYWORD other than [if] and [while]. *)
Lemma parse_none (tokens : list Token) pos :
  parse tokens = Ok (None, pos) <->
  pos = 0 /\
  (tokens = [] \/
   exists v rest, tokens = KEYWORD v :: rest /\ v <> "if" /\ v <> "while").
Proof.
  unfold parse. rewrite statement_none.
  destruct tokens as [|tok rest]; simpl.
  - intuition.
  - split.
    + intros [-> [H|(v & [= ->] & Hv)]]; [discriminate H|]. eauto 6.
    + intros [-> [H|(v & rest' & [= -> ->] & Hv)]]; [discriminate H|]. eauto.
Qed.

End ParserFacts.

(** * Facts about the interpreter *)
Module InterpreterFacts.
Import Interpreter.

Lemma and_then_not_timeout (m : outcome value * Env) k :
  (and_then m k).1 <> Timeout ->
  m.1 <> Timeout /\ forall v env, m = (Ok v, env) -> (k v env).1 <> Timeout.
Proof.
  destruct m as [[v| e |] env]; simpl; intros H; split; congruence.
Qed.

Lemma and_then_ext (m m' : outcome value * Env) k k' :
  m' = m ->
  (forall v env, m = (Ok v, env) -> k' v env = k v env) ->
  and_then m' k' = and_then m k.
Proof.
  intros -> Hk. destruct m as [[v| e |] env]; simpl; auto.
Qed.

(** ** A larger budget does not change a result *)
Lemma interpret_while_loop_mono (fuel : nat) :
  (forall n env fuel',
      (interpret fuel n env).1 <> Timeout -> fuel <= fuel' ->
      interpret fuel' n env = interpret fuel n env) /\
  (forall c b res env fuel',
      (while_loop fuel c b res env).1 <> Timeout -> fuel <= fuel' ->
      while_loop fuel' c b res env = while_loop fuel c b res env).
Proof.
  induction fuel as [|fuel [IHi IHw]]; split; simpl; try congruence.
  - intros n env [|fuel'] Hnt Hle; [lia|]. simpl.
    destruct n as [[v|name|l op r|name e|c t e|c b]|]; try reflexivity.
    + apply and_then_not_timeout in Hnt as [Hl Hk].
      apply and_then_ext; [apply IHi; [assumption | lia]|].
      intros vl env1 E. specialize (Hk _ _ E).
      apply and_then_not_timeout in Hk as [Hr _].
      apply and_then_ext; [apply IHi; [assumption | lia]|]. reflexivity.
    + apply and_then_not_timeout in Hnt as [Hl _].
      apply and_then_ext; [apply IHi; [assumption | lia]|]. reflexivity.
    + apply and_then_not_timeout in Hnt as [Hc Hk].
      apply and_then_ext; [apply IHi; [assumption | lia]|].
      intros vc env1 E. specialize (Hk _ _ E). simpl in Hk.
      destruct (Py.truthy vc); [apply IHi; [assumption | lia]|].
      destruct e; [apply IHi; [assumption | lia] | reflexivity].
    + apply IHw; [assumption | lia].
  - intros c b res env [|fuel'] Hnt Hle; [lia|]. simpl.
    apply and_then_not_timeout in Hnt as [Hc Hk].
    apply and_then_ext; [apply IHi; [assumption | lia]|].
    intros vc env1 E. specialize (Hk _ _ E). simpl in Hk.
    destruct (Py.truthy vc); [|reflexivity].
    apply and_then_not_timeout in Hk as [Hb Hk].
    apply and_then_ext; [apply IHi; [assumption | lia]|].
    intros vb env2 E2. apply IHw; [eauto | lia].
Qed.

Lemma interpret_mono fuel fuel' n env r env' :
  interpret fuel n env = (r, env') -> r <> Timeout -> fuel <= fuel' ->
  interpret fuel' n env = (r, env').
Proof.
  intros H Hr Hle. rewrite <- H.
  apply (proj1 (interpret_while_loop_mono fuel)); [rewrite H; exact Hr | exact Hle].
Qed.

Lemma while_loop_mono fuel fuel' c b res env r env' :
  while_loop fuel c b res env = (r, env') -> r <> Timeout -> fuel <= fuel' ->
  while_loop fuel' c b res env = (r, env').
Proof.
  intros H Hr Hle. rewrite <- H.
  apply (proj2 (interpret_while_loop_mono fuel)); [rewrite H; exact Hr | exact Hle].
Qed.

Lemma evaluates_det n env r1 env1 r2 env2 :
  evaluates n env r1 env1 -> evaluates n env r2 env2 ->
  r1 = r2 /\ env1 = env2.
Proof.
  intros (f1 & H1 & N1) (f2 & H2 & N2).
  apply (interpret_mono _ (f1 + f2)) in H1; [|assumption|lia].
  apply (interpret_mono _ (f1 + f2)) in H2; [|assumption|lia].
  rewrite H1 in H2. injection H2 as <- <-. auto.
Qed.

Lemma loops_det c b res env r1 env1 r2 env2 :
  loops c b res env r1 env1 -> loops c b res env r2 env2 ->
  r1 = r2 /\ env1 = env2.
Proof.
  intros (f1 & H1 & N1) (f2 & H2 & N2).
  apply (while_loop_mono _ (f1 + f2)) in H1; [|assumption|lia].
  apply (while_loop_mono _ (f1 + f2)) in H2; [|assumption|lia].
  rewrite H1 in H2. injection H2 as <- <-. auto.
Qed.

Lemma evaluates_fuel n env r env' :
  evaluates n env r env' ->
  exists fuel, forall fuel', fuel <= fuel' -> interpret fuel' n env = (r, env').
Proof.
  intros (fuel & H & Hr). exists fuel. intros fuel' Hle.
  eapply interpret_mono; eassumption.
Qed.

(** A call made first inside a terminating call: it ended with the
    outcome it is known to have. *)
Lemma and_then_known fuel n env v env1 k r env' :
  evaluates n env (Ok v) env1 ->
  and_then (interpret fuel n env) k = (r, env') -> r <> Timeout ->
  k v env1 = (r, env').
Proof.
  intros Hn H Hr.
  destruct (interpret fuel n env) as [o env0] eqn:E.
  assert (Ho : o <> Timeout) by (intros ->; simpl in H; congruence).
  destruct (evaluates_det n env o env0 (Ok v) env1) as [-> ->];
    [exists fuel; auto | assumption | exact H].
Qed.

Lemma binary_op_not_timeout op vl vr : binary_op op vl vr <> Timeout.
Proof.
  unfold binary_op, Py.add, Py.sub, Py.mul, Py.truediv, Py.arith, Py.float_div,
    Py.float_of_int, Py.checked.
  repeat match goal with
         | |- context [if ?c then _ else _] => destruct c
         | |- context [match ?x with _ => _ end] => destruct x
         end; simpl; discriminate.
Qed.

(** ** The evaluation of each kind of node *)

Lemma evaluates_number v env :
  evaluates (Some (NumberNode v)) env (Ok (VInt v)) env.
Proof. exists 1. split; [reflexivity | discriminate]. Qed.

Lemma evaluates_variable name env :
  evaluates (Some (VariableNode name)) env
            (Ok (default (VInt 0) (env !! name))) env.
Proof. exists 1. split; [reflexivity | discriminate]. Qed.

Lemma evaluates_none env : evaluates None env (Raise UnknownNode) env.
Proof. exists 1. split; [reflexivity | discriminate]. Qed.

Lemma evaluates_binary_op l op r env vl env1 vr env2 :
  evaluates (Some l) env (Ok vl) env1 ->
  evaluates (Some r) env1 (Ok vr) env2 ->
  evaluates (Some (BinaryOpNode l op r)) env (binary_op op vl vr) env2.
Proof.
  intros Hl Hr.
  destruct (evaluates_fuel _ _ _ _ Hl) as (f1 & H1).
  destruct (evaluates_fuel _ _ _ _ Hr) as (f2 & H2).
  exists (S (f1 + f2)). split; [|apply binary_op_not_timeout].
  simpl. rewrite H1 by lia. simpl. rewrite H2 by lia. reflexivity.
Qed.

Lemma evaluates_assignment name e env v env1 :
  evaluates (Some e) env (Ok v) env1 ->
  evaluates (Some (AssignmentNode name e)) env (Ok v) (<[name := v]> env1).
Proof.
  intros (f & H & _). exists (S f). split; [|discriminate].
  simpl. rewrite H. reflexivity.
Qed.

Lemma evaluates_if c t e env v env1 r env2 :
  evaluates (Some c) env (Ok v) env1 ->
  (evaluates (Some (IfNode c t e)) env r env2 <->
   if Py.truthy v then evaluates t env1 r env2
   else match e with
        | Some _ => evaluates e env1 r env2
        | None => r = Ok VNone /\ env2 = env1
        end).
Proof.
  intros Hc. split.
  - intros ([|f] & H & Hr); simpl in H; [congruence|].
    apply (and_then_known _ _ _ _ _ _ _ _ Hc) in H; [|exact Hr].
    cbv beta in H.
    destruct (Py.truthy v); [exists f; split; assumption|].
    destruct e as [e'|]; [exists f; split; assumption|].
    injection H as <- <-. auto.
  - intros H. destruct (evaluates_fuel _ _ _ _ Hc) as (f1 & H1).
    assert (exists f2, forall f', f2 <= f' ->
              (if Py.truthy v then interpret f' t env1
               else match e with
                    | Some _ => interpret f' e env1
                    | None => (Ok VNone, env1)
                    end) = (r, env2)) as (f2 & H2).
    { destruct (Py.truthy v); [apply evaluates_fuel; exact H|].
      destruct e; [apply evaluates_fuel; exact H|].
      destruct H as [-> ->]. exists 0. reflexivity. }
    exists (S (f1 + f2)). split.
    + simpl. rewrite H1 by lia. simpl. apply H2. lia.
    + destruct (Py.truthy v); [destruct H as (? & ? & ?); assumption|].
      destruct e; [destruct H as (? & ? & ?); assumption|].
      destruct H as [-> _]. discriminate.
Qed.

Lemma evaluates_while c b env r env' :
  evaluates (Some (WhileNode c b)) env r env' <-> loops c b VNone env r env'.
Proof.
  split.
  - intros ([|f] & H & Hr); simpl in H; [congruence|]. exists f. auto.
  - intros (f & H & Hr). exists (S f). auto.
Qed.

Lemma loops_unfold c b res env v env1 r env' :
  evaluates (Some c) env (Ok v) env1 ->
  (loops c b res env r env' <->
   if Py.truthy v then
     (exists rb env2, evaluates b env1 (Ok rb) env2 /\ loops c b rb env2 r env') \/
     (exists e, evaluates b env1 (Raise e) env' /\ r = Raise e)
   else r = Ok res /\ env' = env1).
Proof.
  intros Hc. split.
  - intros ([|f] & H & Hr); simpl in H; [congruence|].
    apply (and_then_known _ _ _ _ _ _ _ _ Hc) in H; [|exact Hr].
    cbv beta in H.
    destruct (Py.truthy v); [|injection H as <- <-; auto].
    destruct (interpret f b env1) as [[rb| e |] env2] eqn:E; simpl in H.
    + left. exists rb, env2. split; exists f; split; auto; discriminate.
    + right. injection H as <- <-. exists e. split; [|reflexivity].
      exists f. split; [assumption | discriminate].
    + congruence.
  - intros H. destruct (evaluates_fuel _ _ _ _ Hc) as (f1 & H1).
    destruct (Py.truthy v) eqn:T.
    + destruct H as [(rb & env2 & Hb & (f3 & H3 & Hr))|(e & Hb & ->)].
      * destruct (evaluates_fuel _ _ _ _ Hb) as (f2 & H2).
        exists (S (f1 + f2 + f3)). split; [|exact Hr].
        simpl. rewrite H1 by lia. simpl. rewrite T, H2 by lia. simpl.
        eapply while_loop_mono; [eassumption | assumption | lia].
      * destruct (evaluates_fuel _ _ _ _ Hb) as (f2 & H2).
        exists (S (f1 + f2)). split; [|discriminate].
        simpl. rewrite H1 by lia. simpl. rewrite T, H2 by lia. reflexivity.
    + destruct H as [-> ->]. exists (S f1). split; [|discriminate].
      simpl. rewrite H1 by lia. simpl. rewrite T. reflexivity.
Qed.

(** ** Only AssignmentNodes write the dictionary *)

#[local] Set Warnings "-clear-no-such-hyp".

Lemma frame_refl A h env : frame A h env env.
Proof. split; reflexivity. Qed.

Lemma frame_trans A1 h1 A2 h2 A h env env1 env2 :
  frame A1 h1 env env1 -> frame A2 h2 env1 env2 ->
  A1 ∪ A2 ⊆ A -> (h = false -> h1 = false /\ h2 = false) ->
  frame A h env env2.
Proof.
  intros [H1 G1] [H2 G2] HA Hh. split.
  - intros k Hk. rewrite H2, H1 by set_solver. reflexivity.
  - intros E. destruct (Hh E) as [E1 E2]. rewrite G2, G1 by assumption.
    reflexivity.
Qed.

Lemma frame_weaken A1 h1 A h env env1 :
  frame A1 h1 env env1 -> A1 ⊆ A -> (h = false -> h1 = false) ->
  frame A h env env1.
Proof.
  intros H HA Hh.
  apply (frame_trans A1 h1 ∅ false A h env env1 env1);
    [assumption | apply frame_refl | set_solver | auto].
Qed.

Lemma frame_insert name v A env :
  frame ({[name]} ∪ A) true env (<[name := v]> env).
Proof.
  split; [|discriminate].
  intros k Hk. apply lookup_insert_ne. set_solver.
Qed.

Lemma interpret_while_loop_frame (fuel : nat) :
  (forall n env r env',
      interpret fuel n env = (r, env') ->
      frame (assigned_opt n) (has_assignment_opt n) env env') /\
  (forall c b res env r env',
      while_loop fuel c b res env = (r, env') ->
      frame (assigned c ∪ assigned_opt b)
            (has_assignment c || has_assignment_opt b) env env').
Proof.
  induction fuel as [|fuel [IHi IHw]]; split; simpl;
    try (intros; simplify_eq; apply frame_refl).
  - intros [[v|name|l op r0|name e|c t e|c b]|] env r env' H;
      try (simplify_eq; apply frame_refl).
    + destruct (interpret fuel (Some l) env) as [[vl| x |] env1] eqn:E1;
        simpl in H; apply IHi in E1;
        try (simplify_eq; eapply frame_weaken;
             [eassumption | simpl; set_solver | simpl; split_orb]).
      destruct (interpret fuel (Some r0) env1) as [[vr| x |] env2] eqn:E2;
        simpl in H; apply IHi in E2; simplify_eq;
        (eapply frame_trans; [eassumption | eassumption
                             | simpl; set_solver | simpl; split_orb]).
    + destruct (interpret fuel (Some e) env) as [[v| x |] env1] eqn:E1;
        simpl in H; apply IHi in E1; simplify_eq;
        try (eapply frame_weaken;
             [eassumption | simpl; set_solver | simpl; discriminate]).
      eapply frame_trans;
        [eassumption | apply (frame_insert name v ∅)
        | simpl; set_solver | discriminate].
    + destruct (interpret fuel (Some c) env) as [[vc| x |] env1] eqn:E1;
        simpl in H; apply IHi in E1;
        try (simplify_eq; eapply frame_weaken;
             [eassumption | simpl; set_solver | simpl; split_orb]).
      destruct (Py.truthy vc).
      * apply IHi in H.
        eapply frame_trans;
          [exact E1 | exact H | destruct t, e; simpl; set_solver
          | destruct t, e; split_orb].
      * destruct e as [e'|].
        -- apply IHi in H.
           eapply frame_trans;
             [exact E1 | exact H | destruct t; simpl; set_solver
             | destruct t; split_orb].
        -- simplify_eq.
           eapply frame_weaken;
             [exact E1 | destruct t; simpl; set_solver
             | destruct t; split_orb].
    + apply IHw in H. exact H.
  - intros c b res env r env' H.
    destruct (interpret fuel (Some c) env) as [[vc| x |] env1] eqn:E1;
      simpl in H; apply IHi in E1;
      try (simplify_eq; eapply frame_weaken;
           [eassumption | simpl; set_solver | simpl; split_orb]).
    destruct (Py.truthy vc).
    + destruct (interpret fuel b env1) as [[vb| x |] env2] eqn:E2;
        simpl in H; apply IHi in E2.
      * apply IHw in H.
        apply (frame_trans (assigned c) (has_assignment c)
                 (assigned c ∪ assigned_opt b)
                 (has_assignment c || has_assignment_opt b) _ _ env env1 env');
          [exact E1 | | set_solver | split_orb].
        eapply frame_trans; [exact E2 | exact H | set_solver | split_orb].
      * simplify_eq.
        eapply frame_trans; [exact E1 | exact E2 | simpl; set_solver | split_orb].
      * simplify_eq.
        eapply frame_trans; [exact E1 | exact E2 | simpl; set_solver | split_orb].
    + simplify_eq.
      eapply frame_weaken; [exact E1 | simpl; set_solver | split_orb].
Qed.

(** ** Truth values *)

Lemma truthy_nonzero v : Py.nonzero v -> Py.truthy v = true.
Proof.
  destruct v as [|n|f]; simpl; [contradiction| |intros ->; reflexivity].
  intros H. apply negb_true_iff, Z.eqb_neq. exact H.
Qed.

Lemma truthy_zero v : Py.zero v -> Py.truthy v = false.
Proof.
  destruct v as [|n|f]; simpl; [contradiction| |intros ->; reflexivity].
  intros ->. reflexivity.
Qed.

Lemma truthy_true_iff v : Py.truthy v = true <-> Py.nonzero v.
Proof.
  split; [|apply truthy_nonzero].
  destruct v as [|n|f]; simpl; [discriminate| |].
  - intros H. apply negb_true_iff, Z.eqb_neq in H. exact H.
  - apply negb_true_iff.
Qed.

Lemma truthy_false_iff v : Py.truthy v = false <-> ~ Py.nonzero v.
Proof.
  rewrite <- truthy_true_iff. destruct (Py.truthy v); split; congruence.
Qed.

(** ** The iterations of a loop *)

Lemma last_cons (a d : value) (l : list value) :
  List.last (a :: l) d = List.last l a.
Proof.
  revert a d. induction l as [|b l IH]; intros a d; [reflexivity|].
  change (List.last (a :: b :: l) d) with (List.last (b :: l) d).
  rewrite (IH b d), (IH b a). reflexivity.
Qed.

Lemma while_loop_iterations c b fuel :
  forall res env r env',
    while_loop fuel c b res env = (Ok r, env') ->
    exists rs envk v,
      iterations c b env rs envk /\
      evaluates (Some c) envk (Ok v) env' /\
      ~ Py.nonzero v /\
      r = List.last rs res.
Proof.
  induction fuel as [|fuel IH]; intros res env r env'; simpl; [discriminate|].
  destruct (interpret fuel (Some c) env) as [[vc| x |] env1] eqn:E1; simpl;
    try discriminate.
  assert (Hc : evaluates (Some c) env (Ok vc) env1)
    by (exists fuel; split; [assumption | discriminate]).
  destruct (Py.truthy vc) eqn:T.
  - destruct (interpret fuel b env1) as [[vb| x |] env2] eqn:E2; simpl;
      try discriminate.
    intros H. apply IH in H as (rs & envk & v & Hit & Hv & Tv & ->).
    exists (vb :: rs), envk, v. repeat split; try assumption.
    + eapply iterations_next; try eassumption.
      * apply truthy_true_iff. exact T.
      * exists fuel; split; [assumption | discriminate].
    + symmetry. apply last_cons.
  - intros [= <- <-]. exists [], env, vc.
    split; [constructor|]. split; [assumption|].
    split; [apply truthy_false_iff; exact T | reflexivity].
Qed.

Lemma iterations_loops c b env rs envk :
  iterations c b env rs envk ->
  forall v env' res,
    evaluates (Some c) envk (Ok v) env' -> ~ Py.nonzero v ->
    loops c b res env (Ok (List.last rs res)) env'.
Proof.
  induction 1 as [env|env v0 env1 r env2 rs env3 Hc T Hb Hit IH];
    intros v env' res Hv Tv.
  - apply (loops_unfold _ _ _ _ _ _ _ _ Hv).
    apply truthy_false_iff in Tv. rewrite Tv. auto.
  - apply (loops_unfold _ _ _ _ _ _ _ _ Hc).
    apply truthy_true_iff in T. rewrite T.
    left. exists r, env2. split; [assumption|].
    rewrite last_cons. eapply IH; eassumption.
Qed.

Lemma eq_zero_iff v : Py.eq_zero v = true <-> Py.zero v.
Proof.
  destruct v as [|n|f]; simpl; [split; [discriminate | contradiction]| |tauto].
  apply Z.eqb_eq.
Qed.

End InterpreterFacts.

(** * Facts about rounding

    The operations of [SpecFloat] that the arithmetic uses round to the
    nearest float, ties to even: this is shown on integers first. *)
Module RoundingFacts.
Import Py Rounding.
Local Open Scope Z_scope.

Lemma shr_1_located N W mrs :
  located N W mrs -> located N (2 * W) (shr_1 mrs).
Proof.
  destruct mrs as [m r s]. unfold located, shr_1.
  cbn [shr_m shr_r shr_s].
  intros (HW & Hm & Hrho & Hr & Hs).
  assert (Hrs : orb r s = true <-> N - m * W <> 0).
  { rewrite orb_true_iff. destruct r, s; intuition (try congruence; try lia). }
  destruct m as [|[p|p|]|p]; cbn [shr_m shr_r shr_s]; try lia.
  - intuition (try congruence; try lia).
  - replace (Z.pos p~1) with (2 * Z.pos p + 1) in * by lia.
    replace ((2 * Z.pos p + 1) * W) with (2 * (Z.pos p * W) + W) in * by ring.
    replace (Z.pos p * (2 * W)) with (2 * (Z.pos p * W)) by ring.
    intuition (try congruence; try lia).
  - replace (Z.pos p~0) with (2 * Z.pos p) in * by lia.
    replace (2 * Z.pos p * W) with (2 * (Z.pos p * W)) in * by ring.
    replace (Z.pos p * (2 * W)) with (2 * (Z.pos p * W)) by ring.
    intuition (try congruence; try lia).
  - intuition (try congruence; try lia).
Qed.

Lemma iter_shr_1_located N (p : positive) :
  forall W mrs,
    located N W mrs ->
    located N (W * 2 ^ Z.pos p) (SpecFloat.iter_pos shr_1 p mrs).
Proof.
  induction p as [p IH|p IH|]; intros W mrs H; cbn [SpecFloat.iter_pos].
  - apply shr_1_located in H. apply IH in H. apply IH in H.
    replace (W * 2 ^ Z.pos p~1) with (2 * W * 2 ^ Z.pos p * 2 ^ Z.pos p);
      [exact H|].
    replace (Z.pos p~1) with (1 + Z.pos p + Z.pos p) by lia.
    rewrite !Z.pow_add_r by lia. change (2 ^ 1) with 2. ring.
  - apply IH in H. apply IH in H.
    replace (W * 2 ^ Z.pos p~0) with (W * 2 ^ Z.pos p * 2 ^ Z.pos p);
      [exact H|].
    replace (Z.pos p~0) with (Z.pos p + Z.pos p) by lia.
    rewrite !Z.pow_add_r by lia. ring.
  - apply shr_1_located in H.
    replace (W * 2 ^ 1) with (2 * W) by (change (2 ^ 1) with 2; ring).
    exact H.
Qed.

(** ** Digits *)

Lemma digits2_pos_bounds (p : positive) :
  2 ^ (Z.pos (digits2_pos p) - 1) <= Z.pos p < 2 ^ Z.pos (digits2_pos p).
Proof.
  induction p as [p IH|p IH|]; cbn [digits2_pos].
  - rewrite Pos2Z.inj_succ.
    replace (Z.pos p~1) with (2 * Z.pos p + 1) by lia.
    replace (Z.succ (Z.pos (digits2_pos p)) - 1)
      with (1 + (Z.pos (digits2_pos p) - 1)) by lia.
    replace (Z.succ (Z.pos (digits2_pos p)))
      with (1 + Z.pos (digits2_pos p)) by lia.
    rewrite !Z.pow_add_r by lia. change (2 ^ 1) with 2. lia.
  - rewrite Pos2Z.inj_succ.
    replace (Z.pos p~0) with (2 * Z.pos p) by lia.
    replace (Z.succ (Z.pos (digits2_pos p)) - 1)
      with (1 + (Z.pos (digits2_pos p) - 1)) by lia.
    replace (Z.succ (Z.pos (digits2_pos p)))
      with (1 + Z.pos (digits2_pos p)) by lia.
    rewrite !Z.pow_add_r by lia. change (2 ^ 1) with 2. lia.
  - simpl. lia.
Qed.

Lemma Zdigits2_bounds (m : Z) :
  0 < m -> 0 < Zdigits2 m /\ 2 ^ (Zdigits2 m - 1) <= m < 2 ^ Zdigits2 m.
Proof.
  destruct m as [|p|p]; try lia. intros _. cbn [Zdigits2].
  split; [lia | apply digits2_pos_bounds].
Qed.

Lemma Zdigits2_nonneg (m : Z) : 0 <= Zdigits2 m.
Proof. destruct m; simpl; lia. Qed.

Lemma Zdigits2_unique (m k : Z) :
  2 ^ (k - 1) <= m < 2 ^ k -> 0 < k -> Zdigits2 m = k.
Proof.
  intros H Hk.
  assert (Hm : 0 < m) by (pose proof (Z.pow_pos_nonneg 2 (k - 1)); lia).
  destruct (Zdigits2_bounds m Hm) as [Hd Hb].
  destruct (Z.lt_trichotomy (Zdigits2 m) k) as [L|[E|G]]; [|exact E|].
  - assert (2 ^ Zdigits2 m <= 2 ^ (k - 1)) by (apply Z.pow_le_mono_r; lia). lia.
  - assert (2 ^ k <= 2 ^ (Zdigits2 m - 1)) by (apply Z.pow_le_mono_r; lia). lia.
Qed.

(** ** The exponent of binary64 *)

Lemma fexp_eq (k : Z) : fexp prec emax k = Z.max (k - 53) emin.
Proof. reflexivity. Qed.

(** ** Locations *)

Lemma new_location_loc (N D : Z) :
  0 < D -> new_location D (N mod D) = loc N D.
Proof.
  intros HD. pose proof (Z.mod_pos_bound N D HD) as Hb.
  unfold new_location, new_location_even, new_location_odd, loc.
  destruct (Z.even D) eqn:Ev; [reflexivity|].
  destruct (N mod D =? 0); [reflexivity|].
  f_equal.
  assert (Hodd : Z.odd D = true) by (rewrite <- Z.negb_even, Ev; reflexivity).
  apply Z.odd_spec in Hodd. destruct Hodd as [k Hk].
  generalize dependent (N mod D). intros r Hb.
  destruct (Z.compare_spec (2 * r + 1) D) as [C1|C1|C1]; symmetry;
    [apply Z.compare_lt_iff|apply Z.compare_lt_iff|apply Z.compare_gt_iff]; lia.
Qed.

Lemma located_of_loc (N W : Z) :
  0 <= N -> 0 < W -> located N W (shr_record_of_loc (N / W) (loc N W)).
Proof.
  intros HN HW. pose proof (Z.mod_pos_bound N W HW) as Hb.
  pose proof (Z.div_pos N W HN HW) as Hq.
  assert (E : N - N / W * W = N mod W) by (rewrite Z.mod_eq by lia; ring).
  unfold loc.
  destruct (N mod W =? 0) eqn:Z0; [apply Z.eqb_eq in Z0|apply Z.eqb_neq in Z0].
  - unfold located; cbn [shr_record_of_loc shr_m shr_r shr_s]. rewrite E.
    intuition (try congruence; try lia).
  - destruct (Z.compare_spec (2 * (N mod W)) W) as [C|C|C];
      unfold located; cbn [shr_record_of_loc shr_m shr_r shr_s]; rewrite E;
      intuition (try congruence; try lia).
Qed.

Lemma located_div (N W : Z) mrs :
  located N W mrs -> shr_m mrs = N / W /\ loc_of_shr_record mrs = loc N W.
Proof.
  destruct mrs as [m r s]. unfold located. cbn [shr_m shr_r shr_s].
  intros (HW & Hm & Hrho & Hr & Hs).
  assert (Hq : m = N / W) by (apply (Z.div_unique N W m (N - m * W)); lia).
  assert (E : N mod W = N - m * W) by (rewrite Z.mod_eq by lia; rewrite <- Hq; ring).
  split; [exact Hq|]. unfold loc. rewrite E.
  destruct (N - m * W =? 0) eqn:Z0; [apply Z.eqb_eq in Z0|apply Z.eqb_neq in Z0].
  - destruct r, s; simpl; try reflexivity; exfalso;
      intuition (try congruence; try lia).
  - destruct (Z.compare_spec (2 * (N - m * W)) W) as [C|C|C];
      destruct r, s; simpl; try reflexivity; exfalso;
      intuition (try congruence; try lia).
Qed.

(** ** Shifting to the exponent of the format *)

Lemma shr_located N W mrs e n :
  located N W mrs -> 0 <= n ->
  located N (W * 2 ^ n) (fst (shr mrs e n)) /\ snd (shr mrs e n) = e + n.
Proof.
  intros H Hn. destruct n as [|p|p]; try lia; cbn [shr fst snd].
  - rewrite Z.mul_1_r. split; [exact H | lia].
  - split; [apply iter_shr_1_located; exact H | reflexivity].
Qed.

Lemma nearest_even_spec (N W : Z) :
  0 <= N -> 0 < W ->
  let m := nearest_even N W in
  N / W <= m <= N / W + 1 /\
  2 * Z.abs (N - m * W) <= W /\
  (2 * Z.abs (N - m * W) = W -> Z.even m = true).
Proof.
  intros HN HW. pose proof (Z.mod_pos_bound N W HW) as Hb.
  assert (E : N = N / W * W + N mod W) by (rewrite Z.mod_eq by lia; ring).
  unfold nearest_even, loc, round_nearest_even.
  set (q := N / W) in *. set (r := N mod W) in *.
  destruct (r =? 0) eqn:Z0; [apply Z.eqb_eq in Z0|apply Z.eqb_neq in Z0].
  - cbv zeta. split; [lia|]. split; [lia|]. lia.
  - destruct (Z.compare_spec (2 * r) W) as [C|C|C]; cbv zeta.
    + destruct (Z.even q) eqn:Ev.
      * split; [lia|]. split; [lia|]. intros _. exact Ev.
      * split; [lia|]. split; [lia|]. intros _.
        rewrite Z.even_add, Ev. reflexivity.
    + split; [lia|]. split; [lia|]. lia.
    + split; [lia|]. split; [lia|]. lia.
Qed.

Lemma div_bounds (N D : Z) :
  0 <= N -> 0 < D -> N / D * D <= N < (N / D + 1) * D.
Proof.
  intros HN HD. pose proof (Z.mod_pos_bound N D HD).
  pose proof (Z.div_mod N D ltac:(lia)). nia.
Qed.

Lemma shift_bounds (N D e0 : Z) :
  0 <= N -> 0 < D ->
  e0 <= fexp prec emax (Zdigits2 (N / D) + e0) ->
  let e := fexp prec emax (Zdigits2 (N / D) + e0) in
  let W := D * 2 ^ (e - e0) in
  emin <= e /\ 0 < W /\ (emin < e -> 2 ^ 52 * W <= N) /\ N < 2 ^ 53 * W.
Proof.
  intros HN HD P e W. subst W. unfold e in *. clear e.
  rewrite fexp_eq in *.
  set (mx := N / D) in *. set (d := Zdigits2 mx) in *.
  pose proof (Zdigits2_nonneg mx) as Hd. fold d in Hd.
  pose proof (div_bounds N D HN HD) as Hdiv. fold mx in Hdiv.
  assert (Hmx : 0 <= mx) by (apply Z.div_pos; lia).
  set (n := Z.max (d + e0 - 53) emin - e0) in *.
  assert (Hn : 0 <= n) by (unfold n; lia).
  assert (Hp : 0 < 2 ^ n) by (apply Z.pow_pos_nonneg; lia).
  split; [lia|]. split; [nia|]. split.
  - intros He. assert (En : n = d - 53) by (unfold n; lia).
    assert (Hd53 : 53 <= d) by lia.
    assert (Hpos : 0 < mx).
    { destruct (Z.eq_dec mx 0) as [E|E]; [|lia].
      unfold d in Hd53. rewrite E in Hd53. simpl in Hd53. lia. }
    destruct (Zdigits2_bounds mx Hpos) as [_ [Hlo _]]. fold d in Hlo.
    replace (d - 1) with (52 + n) in Hlo by lia.
    rewrite Z.pow_add_r in Hlo by lia. nia.
  - assert (Hup : mx + 1 <= 2 ^ d).
    { destruct (Z.eq_dec mx 0) as [E|E].
      - unfold d. rewrite E. simpl. lia.
      - destruct (Zdigits2_bounds mx ltac:(lia)) as [_ [_ Hhi]].
        fold d in Hhi. lia. }
    assert (Hle : 2 ^ d <= 2 ^ (53 + n)) by (apply Z.pow_le_mono_r; unfold n; lia).
    rewrite Z.pow_add_r in Hle by lia. nia.
Qed.

Lemma Zdigits2_le_53 (m : Z) : 0 <= m -> m < 2 ^ 53 -> Zdigits2 m <= 53.
Proof.
  intros H0 H. destruct (Z.eq_dec m 0) as [->|Hne]; [simpl; lia|].
  destruct (Zdigits2_bounds m ltac:(lia)) as [Hd [Hlo _]].
  destruct (Z_le_gt_dec (Zdigits2 m) 53) as [L|G]; [exact L|].
  assert (2 ^ 53 <= 2 ^ (Zdigits2 m - 1)) by (apply Z.pow_le_mono_r; lia). lia.
Qed.

Lemma binary_round_aux_spec (s : bool) (N D e0 : Z) :
  0 <= N -> 0 < D ->
  e0 <= fexp prec emax (Zdigits2 (N / D) + e0) ->
  let e := fexp prec emax (Zdigits2 (N / D) + e0) in
  binary_round_aux prec emax s (N / D) e0 (loc N D) =
  make s (nearest_even N (D * 2 ^ (e - e0))) e.
Proof.
  intros HN HD P e.
  destruct (shift_bounds N D e0 HN HD P) as (Hemin & HW & Hlo & Hhi).
  fold e in Hemin, HW, Hlo, Hhi. set (W := D * 2 ^ (e - e0)) in *.
  unfold binary_round_aux, shr_fexp at 1. fold e.
  pose proof (shr_located N D _ e0 (e - e0)
                (located_of_loc N D HN HD) ltac:(lia)) as [Hloc He].
  fold W in Hloc.
  destruct (shr (shr_record_of_loc (N / D) (loc N D)) e0 (e - e0))
    as [mrs' e'] eqn:E1.
  cbn [fst snd] in Hloc, He.
  replace e' with e by lia.
  destruct (located_div N W mrs' Hloc) as [-> ->].
  fold (nearest_even N W).
  destruct (nearest_even_spec N W HN HW) as (Hm & _).
  set (m := nearest_even N W) in *.
  assert (Hq : 0 <= N / W < 2 ^ 53).
  { split; [apply Z.div_pos; lia|].
    apply Z.div_lt_upper_bound; lia. }
  unfold shr_fexp, make.
  destruct (Z.eqb_spec m 0) as [E0|N0].
  - rewrite E0. cbn [Zdigits2 shr_record_of_loc].
    assert (Hs : fexp prec emax (0 + e) - e <= 0)
      by (rewrite fexp_eq; lia).
    destruct (fexp prec emax (0 + e) - e) as [|p|p]; try lia; reflexivity.
  - destruct (Z.eqb_spec m (2 ^ 53)) as [E53|N53].
    + rewrite E53.
      replace (fexp prec emax (Zdigits2 (2 ^ 53) + e) - e) with 1
        by (change (Zdigits2 (2 ^ 53)) with 54; rewrite fexp_eq; lia).
      reflexivity.
    + assert (Hs : fexp prec emax (Zdigits2 m + e) - e <= 0).
      { pose proof (Zdigits2_le_53 m ltac:(lia) ltac:(lia)).
        rewrite fexp_eq. lia. }
      assert (Hpos : 0 < m) by lia.
      destruct m as [|p|p]; try lia.
      destruct (fexp prec emax (Zdigits2 (Z.pos p) + e) - e) as [|q|q];
        try lia; reflexivity.
Qed.

Lemma binary_round_aux_rounds (s : bool) (N D e0 : Z) :
  0 <= N -> 0 < D ->
  e0 <= fexp prec emax (Zdigits2 (N / D) + e0) ->
  rounds N D e0 s (binary_round_aux prec emax s (N / D) e0 (loc N D)).
Proof.
  intros HN HD P.
  pose proof (binary_round_aux_spec s N D e0 HN HD P) as E. cbv zeta in E.
  destruct (shift_bounds N D e0 HN HD P) as (Hemin & HW & Hlo & Hhi).
  set (e := fexp prec emax (Zdigits2 (N / D) + e0)) in *.
  destruct (nearest_even_spec N (D * 2 ^ (e - e0)) HN HW) as (Hm & Hb & Ht).
  exists e, (nearest_even N (D * 2 ^ (e - e0))).
  repeat split; try assumption.
  pose proof (Z.div_pos N (D * 2 ^ (e - e0)) HN HW). lia.
Qed.

(** ** Division of two finite floats *)

Lemma div_eucl_div_mod (a b : Z) : Z.div_eucl a b = (a / b, a mod b).
Proof.
  unfold Z.div, Z.modulo. destruct (Z.div_eucl a b). reflexivity.
Qed.

Lemma Zdigits2_lower (q k : Z) : 0 <= q -> 2 ^ (k - 1) <= q -> k <= Zdigits2 q.
Proof.
  intros Hq H. destruct (Z_le_gt_dec k 0) as [L|G].
  { pose proof (Zdigits2_nonneg q). lia. }
  assert (Hpos : 0 < q) by (pose proof (Z.pow_pos_nonneg 2 (k - 1)); lia).
  destruct (Zdigits2_bounds q Hpos) as [Hd [_ Hhi]].
  destruct (Z_le_gt_dec k (Zdigits2 q)) as [L|G']; [exact L|].
  assert (2 ^ Zdigits2 q <= 2 ^ (k - 1)) by (apply Z.pow_le_mono_r; lia). lia.
Qed.

Lemma shifted (m s : Z) :
  0 <= s ->
  match s with
  | 0 => m
  | Z.pos _ => Z.shiftl m s
  | Z.neg _ => 0
  end = m * 2 ^ s.
Proof.
  intros Hs. destruct s as [|p|p]; try lia.
  rewrite Z.shiftl_mul_pow2 by lia. reflexivity.
Qed.

Lemma SFdiv_finite_rounds (sx : bool) (mx : positive) (ex : Z)
      (sy : bool) (my : positive) (ey : Z) :
  exists s0 e0,
    0 <= s0 /\ e0 = ex - ey - s0 /\
    rounds (Z.pos mx * 2 ^ s0) (Z.pos my) e0 (xorb sx sy)
           (SFdiv prec emax (S754_finite sx mx ex) (S754_finite sy my ey)).
Proof.
  cbn [SFdiv]. unfold SFdiv_core_binary.
  set (d1 := Zdigits2 (Z.pos mx)). set (d2 := Zdigits2 (Z.pos my)).
  set (e' := Z.min (fexp prec emax (d1 + ex - (d2 + ey))) (ex - ey)).
  set (s0 := ex - ey - e').
  assert (Hs : 0 <= s0) by (unfold s0, e'; lia).
  set (m' := match s0 with
             | 0 => Z.pos mx
             | Z.pos _ => Z.shiftl (Z.pos mx) s0
             | Z.neg _ => 0
             end).
  assert (Em : m' = Z.pos mx * 2 ^ s0).
  { apply shifted. exact Hs. }
  rewrite div_eucl_div_mod.
  exists s0, e'. split; [exact Hs|]. split; [unfold s0; lia|].
  rewrite Em. set (N := Z.pos mx * 2 ^ s0). set (D := Z.pos my).
  assert (Hp : 0 < 2 ^ s0) by (apply Z.pow_pos_nonneg; lia).
  assert (HN : 0 <= N) by (unfold N; nia).
  assert (HD : 0 < D) by (unfold D; lia).
  rewrite new_location_loc by exact HD.
  apply binary_round_aux_rounds; [exact HN | exact HD|].
  (* the quotient has digits enough *)
  assert (Hk : d1 + s0 - d2 <= Zdigits2 (N / D)).
  { apply Zdigits2_lower; [apply Z.div_pos; lia|].
    destruct (Z_le_gt_dec (d1 + s0 - d2) 0) as [L|G].
    - assert (N / D >= 0) by (apply Z.le_ge, Z.div_pos; lia).
      destruct (Z_le_gt_dec (d1 + s0 - d2 - 1) (-1)) as [L'|G'].
      + rewrite Z.pow_neg_r by lia. lia.
      + lia.
    - apply Z.div_le_lower_bound; [exact HD|].
      destruct (digits2_pos_bounds mx) as [Hlo _].
      destruct (digits2_pos_bounds my) as [_ Hhi].
      change (Z.pos (digits2_pos mx)) with d1 in Hlo.
      change (Z.pos (digits2_pos my)) with d2 in Hhi.
      assert (Hd2 : 0 < d2) by (unfold d2; simpl; lia).
      assert (Hd1 : 0 < d1) by (unfold d1; simpl; lia).
      assert (E : 2 ^ (d1 - 1) * 2 ^ s0 = 2 ^ d2 * 2 ^ (d1 + s0 - d2 - 1)).
      { rewrite <- !Z.pow_add_r by lia. f_equal. lia. }
      assert (0 < 2 ^ (d1 + s0 - d2 - 1)) by (apply Z.pow_pos_nonneg; lia).
      unfold N, D. nia. }
  assert (Hmono : forall a b, a <= b -> fexp prec emax a <= fexp prec emax b).
  { intros a b Hab. rewrite !fexp_eq. lia. }
  pose proof (Hmono (d1 + ex - (d2 + ey)) (Zdigits2 (N / D) + e')
                ltac:(unfold s0 in Hk; lia)).
  unfold e' at 1. lia.
Qed.

(** ** The conversion of an integer *)

Lemma iter_xO (d : positive) (p : positive) :
  Z.pos (Pos.iter xO p d) = Z.pos p * 2 ^ Z.pos d.
Proof.
  revert p. induction d as [|d IH] using Pos.peano_ind; intros p.
  - cbn [Pos.iter]. change (2 ^ 1) with 2. lia.
  - rewrite Pos.iter_succ. replace (Z.pos (Pos.iter xO p d)~0)
      with (2 * Z.pos (Pos.iter xO p d)) by lia.
    rewrite IH, Pos2Z.inj_succ, Z.pow_succ_r by lia. ring.
Qed.

Lemma binary_round_rounds (s : bool) (m : positive) (e0 : Z) :
  exists N e1,
    0 < N /\ e1 <= e0 /\ N = Z.pos m * 2 ^ (e0 - e1) /\
    rounds N 1 e1 s (binary_round prec emax s m e0).
Proof.
  unfold binary_round, shl_align.
  set (e' := fexp prec emax (Z.pos (digits2_pos m) + e0)).
  assert (Hloc : forall N, loc N 1 = loc_Exact).
  { intros N. unfold loc. rewrite Z.mod_1_r. reflexivity. }
  destruct (e' - e0) as [|p|p] eqn:E.
  - exists (Z.pos m), e0. split; [lia|]. split; [lia|].
    split; [rewrite Z.sub_diag, Z.pow_0_r; lia|].
    rewrite <- (Hloc (Z.pos m)).
    rewrite <- (Z.div_1_r (Z.pos m)) at 2.
    apply binary_round_aux_rounds; try lia.
    rewrite Z.div_1_r. change (Zdigits2 (Z.pos m)) with (Z.pos (digits2_pos m)).
    fold e'. lia.
  - exists (Z.pos m), e0. split; [lia|]. split; [lia|].
    split; [rewrite Z.sub_diag, Z.pow_0_r; lia|].
    rewrite <- (Hloc (Z.pos m)).
    rewrite <- (Z.div_1_r (Z.pos m)) at 2.
    apply binary_round_aux_rounds; try lia.
    rewrite Z.div_1_r. change (Zdigits2 (Z.pos m)) with (Z.pos (digits2_pos m)).
    fold e'. lia.
  - exists (Z.pos (Pos.iter xO m p)), e'. split; [lia|]. split; [lia|].
    split; [rewrite iter_xO; f_equal; f_equal; lia|].
    rewrite <- (Hloc (Z.pos (Pos.iter xO m p))).
    rewrite <- (Z.div_1_r (Z.pos (Pos.iter xO m p))) at 2.
    apply binary_round_aux_rounds; try lia.
    rewrite Z.div_1_r.
    (* the shifted mantissa has the digits of [m] and the shift *)
    assert (Hd : Zdigits2 (Z.pos (Pos.iter xO m p)) =
                 Z.pos (digits2_pos m) + Z.pos p).
    { apply Zdigits2_unique; [|lia].
      rewrite iter_xO. destruct (digits2_pos_bounds m) as [Hlo Hhi].
      replace (Z.pos (digits2_pos m) + Z.pos p - 1)
        with (Z.pos (digits2_pos m) - 1 + Z.pos p) by lia.
      rewrite !Z.pow_add_r by lia.
      assert (0 < 2 ^ Z.pos p) by (apply Z.pow_pos_nonneg; lia). nia. }
    rewrite Hd.
    replace (Z.pos (digits2_pos m) + Z.pos p + e')
      with (Z.pos (digits2_pos m) + e0) by lia.
    fold e'. lia.
Qed.

End RoundingFacts.

(** * Facts about the nearest float

    The same with rational numbers: the quotient of two floats, the
    quotient of two integers and the float of an integer are floats
    nearest to the exact number, or out of range. *)
Module NearestFacts.
Import Py Rounding Nearest RoundingFacts.
Local Open Scope Q_scope.

Lemma Qabs_signed (s : bool) (x : Q) : 0 <= x -> Qabs (signed s x) == x.
Proof.
  intros H. destruct s; unfold signed.
  - rewrite Qabs_opp. apply Qabs_pos. exact H.
  - apply Qabs_pos. exact H.
Qed.

Lemma dist_same (s : bool) (x y : Q) :
  Qabs (signed s x - signed s y) == Qabs (x - y).
Proof.
  destruct s; unfold signed; [|reflexivity].
  rewrite <- (Qabs_opp (x - y)). apply Qabs_wd. ring.
Qed.

Lemma dist_opp (s : bool) (x y : Q) :
  0 <= x -> 0 <= y -> Qabs (signed (negb s) x - signed s y) == x + y.
Proof.
  intros Hx Hy. destruct s; unfold signed, negb.
  - assert (E : x - - y == x + y) by ring. rewrite E. apply Qabs_pos. lra.
  - assert (E : - x - y == - (x + y)) by ring. rewrite E.
    rewrite Qabs_opp. apply Qabs_pos. lra.
Qed.

Lemma near_int (t : Q) (m k : Z) :
  Qabs (t - inject_Z m) <= 1 # 2 ->
  Qabs (t - inject_Z m) <= Qabs (t - inject_Z k).
Proof.
  intros H. destruct (Z.eq_dec k m) as [->|Hne]; [apply Qle_refl|].
  apply Qle_trans with (1 # 2); [exact H|].
  apply Qabs_Qle_condition in H. destruct H as [H1 H2].
  destruct (Z_lt_le_dec k m) as [L|G].
  - assert (Hk : inject_Z k + 1 <= inject_Z m).
    { change 1 with (inject_Z 1). rewrite <- inject_Z_plus, <- Zle_Qle. lia. }
    apply Qle_trans with (t - inject_Z k); [lra | apply Qle_Qabs].
  - assert (Hk : inject_Z m + 1 <= inject_Z k).
    { change 1 with (inject_Z 1). rewrite <- inject_Z_plus, <- Zle_Qle. lia. }
    rewrite Qabs_Qminus.
    apply Qle_trans with (inject_Z k - t); [lra | apply Qle_Qabs].
Qed.

Lemma near_below (t u : Q) (m k : Z) :
  Qabs (t - inject_Z m) <= 1 # 2 ->
  u <= inject_Z k -> inject_Z k <= t ->
  Qabs (t - inject_Z m) <= Qabs (t - u).
Proof.
  intros H Hu Hk.
  apply Qle_trans with (Qabs (t - inject_Z k)); [apply near_int; exact H|].
  rewrite !Qabs_pos by lra. lra.
Qed.

Lemma pow2_pos (z : Z) : 0 < 2 ^ z.
Proof. apply Qpower_0_lt. reflexivity. Qed.

Lemma pow2_add (a b : Z) : 2 ^ (a + b) == 2 ^ a * 2 ^ b.
Proof. apply Qpower_plus. discriminate. Qed.

Lemma pow2_Z (n : Z) : (0 <= n)%Z -> inject_Z (2 ^ n) == 2 ^ n.
Proof. intros H. apply (Zpower_Qpower 2 n H). Qed.

Lemma pow2_le (a b : Z) : (a <= b)%Z -> 2 ^ a <= 2 ^ b.
Proof.
  intros H. replace b with (a + (b - a))%Z by lia. rewrite pow2_add.
  assert (1 <= 2 ^ (b - a)).
  { rewrite <- pow2_Z by lia. change 1 with (inject_Z 1).
    rewrite <- Zle_Qle. pose proof (Z.pow_pos_nonneg 2 (b - a)). lia. }
  pose proof (pow2_pos a). nra.
Qed.

Lemma valid_finite (s : bool) (m : positive) (e : Z) :
  is_float (S754_finite s m e) ->
  (emin <= e)%Z /\ (Z.pos m < 2 ^ 53)%Z /\ (e <= 971)%Z.
Proof.
  unfold is_float, valid_binary, bounded, canonical_mantissa.
  intros H. apply andb_true_iff in H as [H1 H2].
  apply Z.eqb_eq in H1. apply Z.leb_le in H2. rewrite fexp_eq in H1.
  change (emax - prec)%Z with 971%Z in H2.
  destruct (digits2_pos_bounds m) as [Hlo _].
  split; [lia|]. split; [|exact H2].
  destruct (Z_lt_le_dec (Z.pos m) (2 ^ 53)) as [L|G]; [exact L|].
  assert (Hd : (53 <= Z.pos (digits2_pos m) - 1)%Z).
  { destruct (Z_lt_le_dec (Z.pos (digits2_pos m) - 1) 53) as [L|G']; [|exact G'].
    destruct (digits2_pos_bounds m) as [_ Hhi].
    assert (2 ^ Z.pos (digits2_pos m) <= 2 ^ 53)%Z
      by (apply Z.pow_le_mono_r; lia). lia. }
  lia.
Qed.

Lemma make_float (s : bool) (m e : Z) :
  (emin <= e)%Z -> (0 <= m <= 2 ^ 53)%Z ->
  ((emin < e)%Z -> (2 ^ 52 <= m)%Z) ->
  make s m e <> S754_infinity s ->
  is_float (make s m e).
Proof.
  intros He Hm Hlo. unfold make, is_float.
  destruct (Z.eqb_spec m 0) as [E0|N0]; [reflexivity|].
  assert (Hcan : forall m' e', (2 ^ 52 <= m' < 2 ^ 53)%Z -> (emin <= e')%Z ->
                   canonical_mantissa prec emax (Z.to_pos m') e' = true).
  { intros m' e' Hm' He'. unfold canonical_mantissa. apply Z.eqb_eq.
    pose proof (Zdigits2_unique m' 53 ltac:(simpl; lia) ltac:(lia)) as Hd.
    destruct m' as [|p|p]; try lia. cbn [Z.to_pos]. cbn [Zdigits2] in Hd.
    rewrite Hd, fexp_eq. lia. }
  destruct (Z.eqb_spec m (2 ^ 53)) as [E53|N53].
  - destruct (Z.leb_spec (e + 1) 971) as [L|G]; [|congruence].
    intros _. cbn [valid_binary]. unfold bounded.
    rewrite Hcan by lia. apply Z.leb_le. exact L.
  - destruct (Z.leb_spec e 971) as [L|G]; [|congruence].
    intros _. cbn [valid_binary]. unfold bounded.
    apply andb_true_iff. split; [|apply Z.leb_le; exact L].
    destruct (Z_lt_le_dec emin e) as [L'|G'].
    + apply Hcan; lia.
    + assert (e = emin) by lia. subst e.
      unfold canonical_mantissa. apply Z.eqb_eq.
      pose proof (Zdigits2_le_53 m ltac:(lia) ltac:(lia)) as Hd.
      destruct m as [|p|p]; try lia. cbn [Z.to_pos]. cbn [Zdigits2] in Hd.
      rewrite fexp_eq. lia.
Qed.

Lemma inject_cond_Zopp (s : bool) (x : Z) :
  inject_Z (cond_Zopp s x) == signed s (inject_Z x).
Proof.
  destruct s; unfold cond_Zopp, signed; [|reflexivity].
  rewrite inject_Z_opp. reflexivity.
Qed.

Lemma signed_mult (s : bool) (x y : Q) : signed s x * y == signed s (x * y).
Proof. destruct s; unfold signed; ring. Qed.

Lemma signed_wd (s : bool) (x y : Q) : x == y -> signed s x == signed s y.
Proof. intros H. destruct s; unfold signed; rewrite H; reflexivity. Qed.

Lemma make_rational (s : bool) (m e : Z) :
  (0 <= m)%Z -> make s m e <> S754_infinity s ->
  exists a, rational (make s m e) = Some a /\
            a == signed s (inject_Z m * 2 ^ e).
Proof.
  intros Hm. unfold make.
  destruct (Z.eqb_spec m 0) as [E0|N0].
  - intros _. exists 0. split; [reflexivity|]. subst m.
    destruct s; unfold signed; ring.
  - destruct (Z.eqb_spec m (2 ^ 53)) as [E53|N53].
    + destruct (Z.leb_spec (e + 1) 971) as [L|G]; [|congruence].
      intros _. eexists. split; [reflexivity|].
      rewrite inject_cond_Zopp, signed_mult. apply signed_wd.
      subst m. rewrite pow2_add.
      change (Z.pos (Z.to_pos (2 ^ 52))) with (2 ^ 52)%Z.
      assert (E : inject_Z (2 ^ 53) == inject_Z (2 ^ 52) * 2 ^ 1) by reflexivity.
      rewrite E. ring.
    + destruct (Z.leb_spec e 971) as [L|G]; [|congruence].
      intros _. eexists. split; [reflexivity|].
      rewrite inject_cond_Zopp, signed_mult. apply signed_wd.
      rewrite Z2Pos.id by lia. reflexivity.
Qed.

Lemma scaled_dist (x y P : Q) :
  0 < P -> Qabs (x * P - y * P) == Qabs (x - y) * P.
Proof.
  intros HP. assert (E : x * P - y * P == (x - y) * P) by ring.
  rewrite E, Qabs_Qmult, (Qabs_pos P) by lra. reflexivity.
Qed.

(** What a rounded mantissa says about the number divided by [2 ^ e]. *)
Lemma rounded_ratio (N W m : Z) :
  (0 <= N)%Z -> (0 < W)%Z ->
  (2 * Z.abs (N - m * W) <= W)%Z ->
  let t := inject_Z N / inject_Z W in
  0 <= t /\ Qabs (t - inject_Z m) <= 1 # 2 /\
  (t == inject_Z m + (1 # 2) -> (2 * Z.abs (N - m * W) = W)%Z) /\
  (forall k, (k * W <= N)%Z -> inject_Z k <= t) /\
  (forall k, (N < k * W)%Z -> t < inject_Z k).
Proof.
  intros HN HW Hb t.
  assert (Hw : 0 < inject_Z W).
  { change 0 with (inject_Z 0). rewrite <- Zlt_Qlt. exact HW. }
  assert (En : inject_Z N == t * inject_Z W).
  { unfold t. field. lra. }
  assert (Hle : forall k, (k * W <= N)%Z -> inject_Z k <= t).
  { intros k Hk. rewrite Zle_Qle, inject_Z_mult, En in Hk.
    apply Qmult_le_r in Hk; assumption. }
  assert (Hlt : forall k, (N < k * W)%Z -> t < inject_Z k).
  { intros k Hk. rewrite Zlt_Qlt, inject_Z_mult, En in Hk.
    apply Qmult_lt_r in Hk; assumption. }
  assert (H0 : 0 <= t) by (apply (Hle 0%Z); lia).
  split; [exact H0|]. split; [|split; [|split; assumption]].
  - apply Qabs_Qle_condition.
    assert (H1 : ((2 * m - 1) * W <= 2 * N)%Z) by lia.
    assert (H2 : (2 * N <= (2 * m + 1) * W)%Z) by lia.
    rewrite Zle_Qle, !inject_Z_mult, En in H1, H2.
    assert (E1 : inject_Z (2 * m - 1) == 2 * inject_Z m - 1).
    { unfold Z.sub. rewrite inject_Z_plus, inject_Z_mult. reflexivity. }
    assert (E2 : inject_Z (2 * m + 1) == 2 * inject_Z m + 1).
    { rewrite inject_Z_plus, inject_Z_mult. reflexivity. }
    rewrite E1 in H1. rewrite E2 in H2.
    change (inject_Z 2) with 2 in H1, H2.
    assert (H1' : (2 * inject_Z m - 1) * inject_Z W <= (2 * t) * inject_Z W)
      by lra.
    assert (H2' : (2 * t) * inject_Z W <= (2 * inject_Z m + 1) * inject_Z W)
      by lra.
    apply Qmult_le_r in H1', H2'; try assumption. split; lra.
  - intros E.
    assert (E' : inject_Z (2 * N) == inject_Z ((2 * m + 1) * W)).
    { rewrite !inject_Z_mult, inject_Z_plus, inject_Z_mult, En, E.
      change (inject_Z 2) with 2. change (inject_Z 1) with 1. ring. }
    apply (proj1 (inject_Z_injective _ _)) in E'. lia.
Qed.

(** The number that the pair of a mantissa and an exponent stands for. *)
Lemma ratio_value (N D e0 e : Z) :
  (0 < D)%Z -> (e0 <= e)%Z ->
  inject_Z N / inject_Z D * 2 ^ e0 ==
  inject_Z N / inject_Z (D * 2 ^ (e - e0)) * 2 ^ e.
Proof.
  intros HD He.
  assert (Hd : 0 < inject_Z D).
  { change 0 with (inject_Z 0). rewrite <- Zlt_Qlt. exact HD. }
  rewrite inject_Z_mult, pow2_Z by lia.
  replace e with ((e - e0) + e0)%Z at 2 by lia. rewrite pow2_add.
  pose proof (pow2_pos (e - e0)). field. split; lra.
Qed.

Lemma mult_le_both (t P c1 c2 : Q) :
  0 <= c1 -> 0 <= c2 -> c1 <= t -> c2 <= P -> c1 * c2 <= t * P.
Proof. intros. nra. Qed.

Lemma mult_lt_both (t P c1 c2 : Q) :
  0 <= t -> 0 < P -> t < c1 -> P <= c2 -> t * P < c1 * c2.
Proof. intros. nra. Qed.

(** The floats on the side of [v], and those on the other side. *)
Lemma nearest_scaled (s : bool) (t P : Q) (m : Z) (a : Q) (e : Z) :
  P = 2 ^ e -> 0 <= t ->
  Qabs (t - inject_Z m) <= 1 # 2 ->
  ((emin < e)%Z -> inject_Z (2 ^ 52) <= t) ->
  a == signed s (inject_Z m * P) ->
  forall g b, is_float g -> rational g = Some b ->
              Qabs (a - signed s (t * P)) <= Qabs (b - signed s (t * P)).
Proof.
  intros EP Ht0 Hnear Hlo Ha g b Hg Eb.
  assert (HP : 0 < P) by (rewrite EP; apply pow2_pos).
  assert (El : Qabs (a - signed s (t * P)) == Qabs (t - inject_Z m) * P).
  { rewrite Ha, dist_same. rewrite (scaled_dist _ _ _ HP).
    rewrite Qabs_Qminus. reflexivity. }
  rewrite El.
  assert (H0 : Qabs (t - inject_Z m) * P <= t * P).
  { apply Qmult_le_compat_r; [|lra].
    pose proof (near_int t m 0 Hnear) as H.
    assert (E : t - inject_Z 0 == t) by (change (inject_Z 0) with 0; ring).
    rewrite E in H. rewrite (Qabs_pos t Ht0) in H. exact H. }
  assert (HtP : 0 <= t * P) by nra.
  destruct g as [sg|sg| |sg mg eg]; try discriminate Eb.
  - injection Eb as <-.
    assert (E : 0 - signed s (t * P) == signed (negb s) (t * P)).
    { destruct s; unfold signed, negb; ring. }
    rewrite E. rewrite (Qabs_signed _ _ HtP). exact H0.
  - injection Eb as <-.
    destruct (valid_finite sg mg eg Hg) as (Heg & Hmg & _).
    set (c := inject_Z (Z.pos mg) * 2 ^ eg).
    assert (Hc : 0 <= c).
    { unfold c. pose proof (pow2_pos eg).
      assert (0 <= inject_Z (Z.pos mg))
        by (change 0 with (inject_Z 0); rewrite <- Zle_Qle; lia).
      nra. }
    assert (Eb : inject_Z (cond_Zopp sg (Z.pos mg)) * 2 ^ eg == signed sg c).
    { rewrite inject_cond_Zopp, signed_mult. reflexivity. }
    rewrite Eb.
    destruct (Bool.bool_dec sg s) as [->|Hne].
    + rewrite dist_same.
      destruct (Z_le_gt_dec e eg) as [L|G].
      * assert (Ec : c == inject_Z (Z.pos mg * 2 ^ (eg - e)) * P).
        { unfold c. rewrite inject_Z_mult, pow2_Z, EP by lia.
          replace eg with ((eg - e) + e)%Z at 1 by lia.
          rewrite pow2_add. ring. }
        rewrite Ec. rewrite (scaled_dist _ _ _ HP).
        apply Qmult_le_compat_r; [|lra].
        rewrite (Qabs_Qminus (inject_Z _) t). apply near_int. exact Hnear.
      * set (u := inject_Z (Z.pos mg) / 2 ^ (e - eg)).
        assert (Hp2 : 2 <= 2 ^ (e - eg)).
        { change 2 with (2 ^ 1) at 1. apply pow2_le. lia. }
        assert (Ec : c == u * P).
        { unfold c, u. rewrite EP.
          replace e with ((e - eg) + eg)%Z at 2 by lia.
          rewrite pow2_add. pose proof (pow2_pos (e - eg)). field. lra. }
        rewrite Ec. rewrite (scaled_dist _ _ _ HP).
        apply Qmult_le_compat_r; [|lra].
        rewrite (Qabs_Qminus u t).
        apply (near_below t u m (2 ^ 52)); [exact Hnear| |apply Hlo; lia].
        assert (Hmg' : inject_Z (Z.pos mg) <= inject_Z (2 ^ 53))
          by (rewrite <- Zle_Qle; lia).
        assert (Hmg0 : 0 <= inject_Z (Z.pos mg))
          by (change 0 with (inject_Z 0); rewrite <- Zle_Qle; lia).
        assert (E53 : inject_Z (2 ^ 53) == 2 * inject_Z (2 ^ 52)) by reflexivity.
        unfold u. apply Qle_shift_div_r; [pose proof (pow2_pos (e - eg)); lra|].
        rewrite E53 in Hmg'.
        assert (0 <= inject_Z (2 ^ 52))
          by (change 0 with (inject_Z 0); rewrite <- Zle_Qle; lia).
        nra.
    + assert (Es : sg = negb s) by (destruct sg, s; simpl; congruence).
      rewrite Es. rewrite (dist_opp s c (t * P) Hc HtP).
      apply Qle_trans with (t * P); [exact H0 | lra].
Qed.

Lemma inject_nonneg (z : Z) : (0 <= z)%Z -> 0 <= inject_Z z.
Proof. intros H. change 0 with (inject_Z 0). rewrite <- Zle_Qle. exact H. Qed.

(** A number rounded by [rounds] is beyond the floats exactly from
    [huge] on; below it, the float is a nearest one. *)
Lemma rounds_nearest (N D e0 : Z) (s : bool) (f : spec_float) :
  (0 <= N)%Z -> (0 < D)%Z -> rounds N D e0 s f ->
  let x := inject_Z N / inject_Z D * 2 ^ e0 in
  (huge <= x /\ f = S754_infinity s) \/
  (x < huge /\ f <> S754_infinity s /\ nearest (signed s x) f).
Proof.
  intros HN HD (e & m & He0 & Hemin & Hlo & Hhi & Hb & Htie & Hm & ->) x.
  set (W := (D * 2 ^ (e - e0))%Z) in *.
  assert (HW : (0 < W)%Z).
  { unfold W. pose proof (Z.pow_pos_nonneg 2 (e - e0)). nia. }
  destruct (rounded_ratio N W m HN HW Hb) as (Ht0 & Hnear & Htie' & Hle & Hlt).
  set (t := inject_Z N / inject_Z W) in *.
  assert (Ex : x == t * 2 ^ e) by (apply ratio_value; assumption).
  set (P := 2 ^ e) in *.
  assert (HP : 0 < P) by apply pow2_pos.
  assert (Ht53 : t < inject_Z (2 ^ 53)) by (apply Hlt; exact Hhi).
  assert (Ht52 : (emin < e)%Z -> inject_Z (2 ^ 52) <= t)
    by (intros H; apply Hle, Hlo, H).
  assert (Hm53 : (m <= 2 ^ 53)%Z).
  { set (c := (2 ^ 53)%Z) in *. nia. }
  assert (Hm52 : (emin < e)%Z -> (2 ^ 52 <= m)%Z).
  { intros H. specialize (Hlo H).
    assert (E : (2 ^ 53 = 2 * 2 ^ 52)%Z) by reflexivity.
    set (c := (2 ^ 52)%Z) in *. nia. }
  apply Qabs_Qle_condition in Hnear as Hnear'. destruct Hnear' as [Hn1 Hn2].
  (* below [huge]: the float is finite and nearest *)
  assert (Hnearest : make s m e <> S754_infinity s ->
                     nearest (signed s x) (make s m e)).
  { intros Hni. split; [apply make_float; try assumption; lia|].
    destruct (make_rational s m e Hm Hni) as (a & Ea & Ha).
    exists a. split; [exact Ea|]. intros g b Hg Eb.
    assert (E : signed s x == signed s (t * P)) by (apply signed_wd; exact Ex).
    rewrite E.
    exact (nearest_scaled s t P m a e eq_refl Ht0 Hnear Ht52 Ha g b Hg Eb). }
  assert (Hc1 : 0 <= inject_Z (2 ^ 53) - (1 # 2)) by (vm_compute; discriminate).
  assert (Eh1 : (inject_Z (2 ^ 53) - (1 # 2)) * 2 ^ 971 == huge)
    by (vm_compute; reflexivity).
  unfold make in *.
  destruct (Z.eqb_spec m 0) as [E0|N0].
  - (* the number is rounded to zero *)
    right. split; [|split; [discriminate | apply Hnearest; discriminate]].
    assert (Ee : e = emin) by lia.
    rewrite Ex. subst m. unfold P. rewrite Ee.
    change (inject_Z 0) with 0 in Hn2.
    apply Qle_lt_trans with ((1 # 2) * 2 ^ emin);
      [|vm_compute; reflexivity].
    apply Qmult_le_compat_r; [lra | vm_compute; discriminate].
  - destruct (Z.eqb_spec m (2 ^ 53)) as [E53|N53].
    + destruct (Z.leb_spec (e + 1) 971) as [L|G].
      * right. split; [|split; [discriminate | apply Hnearest; discriminate]].
        rewrite Ex.
        apply Qlt_le_trans with (inject_Z (2 ^ 53) * 2 ^ 970);
          [|vm_compute; discriminate].
        apply mult_lt_both; [exact Ht0 | exact HP | exact Ht53|].
        apply pow2_le. lia.
      * left. split; [|reflexivity]. rewrite Ex, <- Eh1.
        apply mult_le_both.
        -- exact Hc1.
        -- vm_compute; discriminate.
        -- rewrite E53 in Hn1. lra.
        -- apply pow2_le. lia.
    + destruct (Z.leb_spec e 971) as [L|G].
      * right. split; [|split; [discriminate | apply Hnearest; discriminate]].
        rewrite Ex, <- Eh1.
        apply mult_lt_both; [exact Ht0 | exact HP | |apply pow2_le; lia].
        destruct (Z_le_gt_dec m (2 ^ 53 - 2)) as [L2|G2].
        -- assert (H : inject_Z m <= inject_Z (2 ^ 53 - 2))
             by (rewrite <- Zle_Qle; exact L2).
           assert (E : inject_Z (2 ^ 53 - 2) == inject_Z (2 ^ 53) - 2)
             by reflexivity.
           rewrite E in H. lra.
        -- assert (Em : m = (2 ^ 53 - 1)%Z) by lia.
           assert (E : inject_Z m == inject_Z (2 ^ 53) - 1)
             by (rewrite Em; reflexivity).
           assert (Hle' : t <= inject_Z m + (1 # 2)) by lra.
           apply Qle_lt_or_eq in Hle'. destruct Hle' as [Hlt'|Heq].
           ++ lra.
           ++ exfalso. apply Htie', Htie in Heq.
              rewrite Em in Heq. vm_compute in Heq. discriminate Heq.
      * left. split; [|reflexivity]. rewrite Ex.
        apply Qle_trans with (inject_Z (2 ^ 52) * 2 ^ 972);
          [vm_compute; discriminate|].
        apply mult_le_both.
        -- vm_compute; discriminate.
        -- vm_compute; discriminate.
        -- apply Ht52. unfold emin. lia.
        -- apply pow2_le. lia.
Qed.

Lemma nearest_wd (v v' : Q) (f : spec_float) :
  v == v' -> nearest v f -> nearest v' f.
Proof.
  intros E (Hf & a & Ea & H). split; [exact Hf|].
  exists a. split; [exact Ea|]. intros g b Hg Eb.
  rewrite <- E. apply (H g b Hg Eb).
Qed.

Lemma rounds_rounded (N D e0 : Z) (s : bool) (f : spec_float) (v : Q) :
  (0 <= N)%Z -> (0 < D)%Z -> rounds N D e0 s f ->
  v == signed s (inject_Z N / inject_Z D * 2 ^ e0) ->
  rounded v f.
Proof.
  intros HN HD Hr Ev.
  assert (Hx : 0 <= inject_Z N / inject_Z D * 2 ^ e0).
  { pose proof (pow2_pos e0). pose proof (inject_nonneg N HN).
    assert (0 < inject_Z D)
      by (change 0 with (inject_Z 0); rewrite <- Zlt_Qlt; exact HD).
    assert (0 <= inject_Z N / inject_Z D)
      by (apply Qle_shift_div_l; [assumption | lra]).
    nra. }
  assert (Ea : Qabs v == inject_Z N / inject_Z D * 2 ^ e0).
  { rewrite Ev. apply Qabs_signed. exact Hx. }
  destruct (rounds_nearest N D e0 s f HN HD Hr) as [[H1 H2]|(H1 & H2 & H3)].
  - left. split; [rewrite Ea; exact H1 | eauto].
  - right. split; [rewrite Ea; exact H1|].
    apply (nearest_wd (signed s (inject_Z N / inject_Z D * 2 ^ e0)));
      [symmetry; exact Ev | exact H3].
Qed.

Lemma rounded_zero (s : bool) (v : Q) : v == 0 -> rounded v (S754_zero s).
Proof.
  intros E. right. split; [rewrite E; vm_compute; reflexivity|].
  split; [reflexivity|]. exists 0. split; [reflexivity|].
  intros g b _ _. rewrite E.
  assert (E0 : 0 - 0 == 0) by ring. rewrite E0. apply Qabs_nonneg.
Qed.

Lemma signed_xorb (s1 s2 : bool) (x y : Q) :
  ~ y == 0 ->
  signed (xorb s1 s2) (x / y) == signed s1 x / signed s2 y.
Proof.
  intros Hy. destruct s1, s2; unfold signed, xorb; field; lra.
Qed.

Lemma inject_pos_neq (p : positive) : ~ inject_Z (Z.pos p) == 0.
Proof.
  intros H. change 0 with (inject_Z 0) in H.
  apply (proj1 (inject_Z_injective _ _)) in H. discriminate H.
Qed.

(** The value of a finite float. *)
Lemma rational_finite (s : bool) (m : positive) (e : Z) :
  exists a, rational (S754_finite s m e) = Some a /\
            a == signed s (inject_Z (Z.pos m) * 2 ^ e).
Proof.
  eexists. split; [reflexivity|].
  rewrite inject_cond_Zopp, signed_mult. reflexivity.
Qed.

(** ** The quotient of two floats *)

Lemma SFdiv_finite_rounded (sx : bool) (mx : positive) (ex : Z)
      (sy : bool) (my : positive) (ey : Z) (v : Q) :
  v == signed sx (inject_Z (Z.pos mx) * 2 ^ ex) /
       signed sy (inject_Z (Z.pos my) * 2 ^ ey) ->
  rounded v (SFdiv prec emax (S754_finite sx mx ex) (S754_finite sy my ey)).
Proof.
  intros Ev.
  destruct (SFdiv_finite_rounds sx mx ex sy my ey) as (s0 & e0 & Hs & He & Hr).
  assert (Hp : (0 < 2 ^ s0)%Z) by (apply Z.pow_pos_nonneg; lia).
  apply (rounds_rounded (Z.pos mx * 2 ^ s0) (Z.pos my) e0 (xorb sx sy) _ v);
    [nia | lia | exact Hr |].
  rewrite Ev.
  pose proof (pow2_pos ex). pose proof (pow2_pos ey). pose proof (pow2_pos s0).
  pose proof (inject_pos_neq mx). pose proof (inject_pos_neq my).
  assert (Hy : ~ inject_Z (Z.pos my) * 2 ^ ey == 0).
  { intros E. assert (0 < inject_Z (Z.pos my))
      by (change 0 with (inject_Z 0); rewrite <- Zlt_Qlt; lia). nra. }
  rewrite <- signed_xorb by exact Hy. apply signed_wd.
  rewrite inject_Z_mult, pow2_Z by lia.
  assert (E : 2 ^ ex == 2 ^ s0 * 2 ^ e0 * 2 ^ ey).
  { rewrite <- !pow2_add. replace (s0 + e0 + ey)%Z with ex by lia.
    reflexivity. }
  rewrite E. field. split; lra.
Qed.

Lemma SFdiv_rounded (f g : spec_float) (a b : Q) :
  rational f = Some a -> rational g = Some b -> ~ b == 0 ->
  rounded (a / b) (SFdiv prec emax f g).
Proof.
  intros Ea Eb Hb.
  destruct g as [sy|sy| |sy my ey]; try discriminate Eb.
  { injection Eb as <-. exfalso. apply Hb. reflexivity. }
  destruct f as [sx|sx| |sx mx ex]; try discriminate Ea.
  - injection Ea as <-. cbn [SFdiv]. apply rounded_zero.
    unfold Qdiv. ring.
  - destruct (rational_finite sx mx ex) as (a' & Ea' & Ha).
    destruct (rational_finite sy my ey) as (b' & Eb' & Hb').
    rewrite Ea in Ea'. injection Ea' as <-.
    rewrite Eb in Eb'. injection Eb' as <-.
    apply SFdiv_finite_rounded. rewrite Ha, Hb'. reflexivity.
Qed.

(** ** The quotient of two integers *)

Lemma rational_exact (x : Z) :
  exists a, rational (exact x) = Some a /\ a == inject_Z x.
Proof.
  destruct x as [|p|p]; cbn [exact].
  - exists 0. split; reflexivity.
  - destruct (rational_finite false p 0) as (a & Ea & Ha).
    exists a. split; [exact Ea|]. rewrite Ha. unfold signed.
    change (2 ^ 0) with 1. ring.
  - destruct (rational_finite true p 0) as (a & Ea & Ha).
    exists a. split; [exact Ea|]. rewrite Ha. unfold signed.
    change (2 ^ 0) with 1. change (Z.neg p) with (- Z.pos p)%Z.
    rewrite inject_Z_opp. ring.
Qed.

Lemma int_quotient_rounded (x y : Z) :
  y <> 0%Z ->
  rounded (inject_Z x / inject_Z y) (SFdiv prec emax (exact x) (exact y)).
Proof.
  intros Hy.
  destruct (rational_exact x) as (a & Ea & Ha).
  destruct (rational_exact y) as (b & Eb & Hb).
  assert (Hb0 : ~ b == 0).
  { rewrite Hb. intros E. change 0 with (inject_Z 0) in E.
    apply (proj1 (inject_Z_injective _ _)) in E. contradiction. }
  pose proof (SFdiv_rounded _ _ a b Ea Eb Hb0) as H.
  destruct H as [[H1 H2]|[H1 H2]].
  - left. split; [|exact H2]. rewrite <- Ha, <- Hb. exact H1.
  - right. split; [rewrite <- Ha, <- Hb; exact H1|].
    apply (nearest_wd (a / b)); [rewrite Ha, Hb; reflexivity | exact H2].
Qed.

(** ** The conversion of an integer *)

Lemma int_rounded (n : Z) :
  rounded (inject_Z n) (binary_normalize prec emax n 0 false).
Proof.
  assert (H : forall s p,
             rounded (signed s (inject_Z (Z.pos p)))
                     (binary_round prec emax s p 0)).
  { intros s p.
    destruct (binary_round_rounds s p 0) as (N & e1 & HN & He & EN & Hr).
    apply (rounds_rounded N 1 e1 s); [lia | lia | exact Hr |].
    apply signed_wd. rewrite EN, inject_Z_mult, pow2_Z by lia.
    assert (E : 2 ^ (0 - e1) * 2 ^ e1 == 1).
    { rewrite <- pow2_add. replace (0 - e1 + e1)%Z with 0%Z by lia.
      reflexivity. }
    change (inject_Z 1) with 1.
    assert (E' : inject_Z (Z.pos p) * 2 ^ (0 - e1) / 1 * 2 ^ e1 ==
                 inject_Z (Z.pos p) * (2 ^ (0 - e1) * 2 ^ e1)) by (field).
    rewrite E', E. ring. }
  destruct n as [|p|p]; cbn [binary_normalize].
  - apply rounded_zero. reflexivity.
  - apply (H false p).
  - pose proof (H true p) as Hp. unfold signed in Hp.
    change (Z.neg p) with (- Z.pos p)%Z. rewrite inject_Z_opp. exact Hp.
Qed.

End NearestFacts.

(** * Facts about true division *)
Module QuotientFacts.
Import Py Nearest NearestFacts.

Lemma rounded_cases (v : Q) (q : spec_float) :
  rounded v q ->
  ((huge <= Qabs v)%Q /\ exists s, q = S754_infinity s) \/
  ((Qabs v < huge)%Q /\ nearest v q /\ checked q = Ok q).
Proof.
  intros [[H1 [s ->]]|[H1 H2]]; [left; eauto|right].
  split; [exact H1|]. split; [exact H2|].
  destruct H2 as (_ & a & Ea & _). destruct q; try discriminate Ea; reflexivity.
Qed.

Lemma nonzero_rational (g : spec_float) (b : Q) :
  rational g = Some b -> (~ b == 0)%Q -> float_is_zero g = false.
Proof.
  intros E Hb. destruct g; try discriminate E; try reflexivity.
  injection E as <-. exfalso. apply Hb. reflexivity.
Qed.

Lemma rational_nonzero (g : spec_float) (b : Q) :
  rational g = Some b -> float_is_zero g = false -> (~ b == 0)%Q.
Proof.
  intros E Hz. destruct g as [s|s| |s m e]; try discriminate.
  destruct (rational_finite s m e) as (b' & Eb & Hb).
  rewrite E in Eb. injection Eb as <-. rewrite Hb.
  assert (0 < inject_Z (Z.pos m) * 2 ^ e)%Q.
  { pose proof (pow2_pos e).
    assert (0 < inject_Z (Z.pos m))%Q
      by (change 0%Q with (inject_Z 0); rewrite <- Zlt_Qlt; lia).
    nra. }
  destruct s; unfold signed; lra.
Qed.

Lemma float_div_quotient (f g : spec_float) (a b : Q) :
  rational f = Some a -> rational g = Some b -> (~ b == 0)%Q ->
  float_quotient (a / b) (float_div f g).
Proof.
  intros Ea Eb Hb. unfold float_div.
  rewrite (nonzero_rational g b Eb Hb).
  destruct (SFdiv_rounded f g a b Ea Eb Hb) as [[H1 [s H2]]|[H1 H2]].
  - left. split; [exact H1|]. exists s. rewrite H2. reflexivity.
  - right. split; [exact H1|]. eauto.
Qed.

Lemma truediv_int_int (x y : Z) :
  y <> 0%Z ->
  int_quotient (inject_Z x / inject_Z y) (truediv (VInt x) (VInt y)).
Proof.
  intros Hy. cbn [truediv]. rewrite (proj2 (Z.eqb_neq y 0) Hy).
  destruct (rounded_cases _ _ (int_quotient_rounded x y Hy))
    as [[H1 [s H2]]|(H1 & H2 & H3)].
  - left. split; [exact H1|]. rewrite H2. reflexivity.
  - right. split; [exact H1|]. rewrite H3. cbn [bind]. eauto.
Qed.

Lemma float_of_int_cases (n : Z) :
  ((huge <= Qabs (inject_Z n))%Q /\ float_of_int n = Raise OverflowError) \/
  ((Qabs (inject_Z n) < huge)%Q /\
   exists f, nearest (inject_Z n) f /\ float_of_int n = Ok f).
Proof.
  unfold float_of_int.
  destruct (rounded_cases _ _ (int_rounded n)) as [[H1 [s H2]]|(H1 & H2 & H3)].
  - left. split; [exact H1|]. rewrite H2. reflexivity.
  - right. split; [exact H1|]. eauto.
Qed.

Lemma truediv_not_division_by_zero (vl vr : value) :
  truediv vl vr <> Raise DivisionByZero.
Proof.
  unfold truediv, float_div, float_of_int, checked.
  repeat match goal with
         | |- context [if ?c then _ else _] => destruct c
         | |- context [match ?x with _ => _ end] => destruct x
         end; simpl; discriminate.
Qed.

End QuotientFacts.

(** * The tests of the source

    What the four [run_test] calls at the end of the source return: only
    the first statement of a text is parsed and evaluated. *)
Example run_test_precedence :
  run_test 10 precedence_test = (Ok (VInt 14), ∅).
Proof. reflexivity. Qed.

Example run_test_three_statements :
  run_test 10 three_statements = (Ok (VInt 5), {["x" := VInt 5]}).
Proof. reflexivity. Qed.

Example run_test_if :
  run_test 10 if_test = (Ok (VInt 10), {["x" := VInt 10]}).
Proof. reflexivity. Qed.

Example run_test_while :
  run_test 10 while_test = (Ok (VInt 0), {["x" := VInt 0]}).
Proof. reflexivity. Qed.

Example run_test_division_by_zero :
  run_test 10 "5 / 0" = (Raise DivisionByZero, ∅).
Proof. reflexivity. Qed.

(** * The properties of the specification *)

Import Parser Interpreter PyFacts ParserFacts InterpreterFacts.
Import Nearest.


(** C1 (defect of the code): a non-empty token sequence can yield the
    no-statement result.  The text [def] is scanned to the single token
    KEYWORD [def]; [statement] tests a KEYWORD for [if] and for [while]
    only, has no [else] for the other keywords, and so returns [None]
    with nothing consumed and nothing raised. *)
Theorem parse_def_keyword_returns_none :
  Lexer.tokenize "def" = Ok [KEYWORD "def"] /\
  [KEYWORD "def"] <> [] /\
  parse [KEYWORD "def"] = Ok (None, 0).
Proof. split; [reflexivity|]. split; [discriminate | reflexivity]. Qed.



(** C3 (defect of the code): where the parser needs a token and none is
    left, the failure is not the "Unexpected end of input" of [consume].
    After [1 +] the loop of [addition] calls [multiplication], and
    [primary] reads [self.current_token().type] with [current_token()]
    being [None]: an AttributeError.  No token sequence at all makes
    [parse] raise the end-of-input exception. *)
Theorem parse_trailing_operator_raises_attribute_error :
  Lexer.tokenize "1 +" = Ok [NUMBER 1; OPERATOR "+"] /\
  parse [NUMBER 1; OPERATOR "+"] = Raise AttributeError /\
  (forall tokens : list Token, parse tokens <> Raise UnexpectedEnd).
Proof.
  split; [reflexivity|]. split; [reflexivity|].
  intros tokens H. apply parse_raises in H as [H|H]; discriminate H.
Qed.

(** C4: [a + b * c] is parsed with the product as the right operand of
    the sum, and evaluates to [a + b * c]; for [2 + 3 * 4] the tree is
    the sum of 2 and the product of 3 and 4, and the value is 14. *)
Theorem multiplication_binds_tighter :
  Lexer.tokenize "2 + 3 * 4" =
    Ok [NUMBER 2; OPERATOR "+"; NUMBER 3; OPERATOR "*"; NUMBER 4] /\
  (forall a b c : Z,
      parse [NUMBER a; OPERATOR "+"; NUMBER b; OPERATOR "*"; NUMBER c] =
        Ok (Some (BinaryOpNode (NumberNode a) "+"
                    (BinaryOpNode (NumberNode b) "*" (NumberNode c))), 5) /\
      forall env,
        evaluates (Some (BinaryOpNode (NumberNode a) "+"
                           (BinaryOpNode (NumberNode b) "*" (NumberNode c))))
                  env (Ok (VInt (a + b * c))) env) /\
  (2 + 3 * 4 = 14)%Z.
Proof.
  split; [reflexivity|]. split; [|reflexivity].
  intros a b c. split; [reflexivity|].
  intros env. exists 3. split; [reflexivity | discriminate].
Qed.

(** C6: an AssignmentNode evaluates its expression, stores the value
    under the name, replacing what was bound to it, and returns that
    value; a VariableNode whose name the dictionary does not hold
    evaluates to 0. *)
Theorem assignment_stores_and_returns (name : string) (e : node)
        (env env1 : Env) (v : value) (y : string) (env0 : Env) :
  evaluates (Some e) env (Ok v) env1 ->
  env0 !! y = None ->
  evaluates (Some (AssignmentNode name e)) env (Ok v) (<[name := v]> env1) /\
  (<[name := v]> env1) !! name = Some v /\
  (forall k, k <> name -> (<[name := v]> env1) !! k = env1 !! k) /\
  evaluates (Some (VariableNode y)) env0 (Ok (VInt 0)) env0.
Proof.
  intros He Hy. split; [apply evaluates_assignment; exact He|].
  split; [apply lookup_insert_eq|].
  split; [intros k Hk; apply lookup_insert_ne; congruence|].
  pose proof (evaluates_variable y env0) as Hv. rewrite Hy in Hv. exact Hv.
Qed.

(** The text [x = 5] evaluates to 5 and leaves [x] bound to 5; the
    variable [y] then evaluates to 0. *)
Lemma assignment_stores_and_returns_witness :
  Lexer.tokenize "x = 5" = Ok [IDENTIFIER "x"; OPERATOR "="; NUMBER 5] /\
  parse [IDENTIFIER "x"; OPERATOR "="; NUMBER 5] =
    Ok (Some (AssignmentNode "x" (NumberNode 5)), 3) /\
  evaluates (Some (NumberNode 5)) ∅ (Ok (VInt 5)) ∅ /\
  ({["x" := VInt 5]} : Env) !! "y" = None /\
  evaluates (Some (AssignmentNode "x" (NumberNode 5))) ∅
            (Ok (VInt 5)) (<["x" := VInt 5]> ∅) /\
  (<["x" := VInt 5]> (∅ : Env)) !! "x" = Some (VInt 5) /\
  (forall k, k <> "x" -> (<["x" := VInt 5]> (∅ : Env)) !! k = (∅ : Env) !! k) /\
  evaluates (Some (VariableNode "y")) {["x" := VInt 5]}
            (Ok (VInt 0)) {["x" := VInt 5]}.
Proof.
  split; [reflexivity|]. split; [reflexivity|].
  assert (H5 : evaluates (Some (NumberNode 5)) ∅ (Ok (VInt 5)) ∅)
    by (exists 1; split; [reflexivity | discriminate]).
  assert (Hy : ({["x" := VInt 5]} : Env) !! "y" = None) by reflexivity.
  split; [exact H5|]. split; [exact Hy|].
  exact (assignment_stores_and_returns "x" (NumberNode 5) ∅ ∅ (VInt 5) "y"
           {["x" := VInt 5]} H5 Hy).
Defined.

(** C7: a call of [interpret], however it ends, changes the dictionary
    only at names that some AssignmentNode of the tree assigns to; a tree
    without AssignmentNode leaves the dictionary as it was, also when the
    call raises. *)
Theorem only_assignments_write_the_environment (fuel : nat) (n : node)
        (env env' : Env) (r : outcome value) :
  interpret fuel (Some n) env = (r, env') ->
  (forall k, k ∉ assigned n -> env' !! k = env !! k) /\
  (has_assignment n = false -> env' = env).
Proof.
  intros H. exact (proj1 (interpret_while_loop_frame fuel) _ _ _ _ H).
Qed.

(** [x / 0] with [x] bound to 1 raises and leaves the dictionary alone. *)
Lemma only_assignments_write_the_environment_witness :
  interpret 3 (Some (BinaryOpNode (VariableNode "x") "/" (NumberNode 0)))
            {["x" := VInt 1]} = (Raise DivisionByZero, {["x" := VInt 1]}) /\
  (forall k, k ∉ assigned (BinaryOpNode (VariableNode "x") "/" (NumberNode 0)) ->
             ({["x" := VInt 1]} : Env) !! k = ({["x" := VInt 1]} : Env) !! k) /\
  (has_assignment (BinaryOpNode (VariableNode "x") "/" (NumberNode 0)) = false ->
   ({["x" := VInt 1]} : Env) = {["x" := VInt 1]}).
Proof.
  split; [reflexivity|].
  apply (only_assignments_write_the_environment 3
           (BinaryOpNode (VariableNode "x") "/" (NumberNode 0))
           {["x" := VInt 1]} {["x" := VInt 1]} (Raise DivisionByZero)).
  reflexivity.
Defined.

(** C8: an IfNode evaluates its condition first.  On a non-zero number
    the call is the evaluation of the then-branch, started with the
    dictionary the condition left.  On zero it is the evaluation of the
    else-branch when there is one, and otherwise it returns [None] with
    the dictionary as the condition left it, no branch being evaluated. *)
Theorem if_selects_branch (c : node) (t e : option node)
        (env env1 : Env) (v : value) :
  evaluates (Some c) env (Ok v) env1 ->
  (Py.nonzero v ->
   forall r env2, evaluates (Some (IfNode c t e)) env r env2 <->
                  evaluates t env1 r env2) /\
  (Py.zero v ->
   forall e', e = Some e' ->
   forall r env2, evaluates (Some (IfNode c t e)) env r env2 <->
                  evaluates (Some e') env1 r env2) /\
  (Py.zero v -> e = None ->
   forall r env2, evaluates (Some (IfNode c t e)) env r env2 <->
                  r = Ok VNone /\ env2 = env1).
Proof.
  intros Hc. split; [|split].
  - intros Hv r env2.
    pose proof (evaluates_if c t e env v env1 r env2 Hc) as H.
    rewrite (truthy_nonzero v Hv) in H. exact H.
  - intros Hv e' -> r env2.
    pose proof (evaluates_if c t (Some e') env v env1 r env2 Hc) as H.
    rewrite (truthy_zero v Hv) in H. exact H.
  - intros Hv -> r env2.
    pose proof (evaluates_if c t None env v env1 r env2 Hc) as H.
    rewrite (truthy_zero v Hv) in H. exact H.
Qed.

(** A condition that is 0, without else-branch: the then-branch
    [None] (which would raise) is not evaluated. *)
Lemma if_selects_branch_witness :
  evaluates (Some (NumberNode 0)) ∅ (Ok (VInt 0)) ∅ /\
  (Py.zero (VInt 0) /\ (None : option node) = None) /\
  evaluates (Some (IfNode (NumberNode 0) None None)) ∅ (Ok VNone) ∅.
Proof.
  assert (H0 : evaluates (Some (NumberNode 0)) ∅ (Ok (VInt 0)) ∅)
    by (exists 1; split; [reflexivity | discriminate]).
  split; [exact H0|]. split; [split; reflexivity|].
  apply (proj2 (proj2 (if_selects_branch (NumberNode 0) None None ∅ ∅ (VInt 0) H0))
           eq_refl eq_refl).
  split; reflexivity.
Defined.

(** C9: a WhileNode whose condition is zero at the first check returns
    [None] with the dictionary as that check left it, whatever the body
    is.  In general the call returns [r] exactly when the condition gave
    a non-zero number some [length rs] times in a row, each check being
    followed by one evaluation of the body (results [rs]), the next check
    gave no such number, and [r] is the last of [rs], or [None] when
    there is none. *)
Theorem while_evaluates_body_once_per_true_check (c : node) (b : option node)
        (env : Env) :
  (forall v env1,
      evaluates (Some c) env (Ok v) env1 -> Py.zero v ->
      evaluates (Some (WhileNode c b)) env (Ok VNone) env1) /\
  (forall r env',
      evaluates (Some (WhileNode c b)) env (Ok r) env' <->
      exists rs envk v,
        iterations c b env rs envk /\
        evaluates (Some c) envk (Ok v) env' /\
        ~ Py.nonzero v /\
        r = List.last rs VNone).
Proof.
  split.
  - intros v env1 Hc Hz. apply evaluates_while.
    apply (loops_unfold _ _ _ _ _ _ _ _ Hc).
    rewrite (truthy_zero v Hz). auto.
  - intros r env'. rewrite evaluates_while. split.
    + intros (fuel & H & _). eapply while_loop_iterations. exact H.
    + intros (rs & envk & v & Hit & Hv & Hz & ->).
      eapply iterations_loops; eassumption.
Qed.


(** The loop [while 3 - x: x = x + 1], started with no variable, checks
    its condition four times and evaluates its body three times. *)
Lemma while_evaluates_body_once_per_true_check_witness :
  evaluates (Some count_to_three) ∅ (Ok (VInt 3)) {["x" := VInt 3]} /\
  exists rs envk v,
    iterations (BinaryOpNode (NumberNode 3) "-" (VariableNode "x"))
               (Some (AssignmentNode "x"
                        (BinaryOpNode (VariableNode "x") "+" (NumberNode 1))))
               ∅ rs envk /\
    evaluates (Some (BinaryOpNode (NumberNode 3) "-" (VariableNode "x")))
              envk (Ok v) {["x" := VInt 3]} /\
    ~ Py.nonzero v /\
    VInt 3 = List.last rs VNone.
Proof.
  assert (H : evaluates (Some count_to_three) ∅ (Ok (VInt 3)) {["x" := VInt 3]})
    by (exists 10; split; [vm_compute; reflexivity | discriminate]).
  split; [exact H|].
  exact (proj1 (proj2 (while_evaluates_body_once_per_true_check _ _ ∅) _ _) H).
Defined.

(** C10: a BinaryOpNode whose operator is none of [+], [-], [*], [/]
    evaluates both operands, left first, and returns [None]; nothing is
    raised, whatever the operand values are. *)
Theorem unknown_operator_returns_none (l r : node) (op : string)
        (env env1 env2 : Env) (vl vr : value) :
  op <> "+" -> op <> "-" -> op <> "*" -> op <> "/" ->
  evaluates (Some l) env (Ok vl) env1 ->
  evaluates (Some r) env1 (Ok vr) env2 ->
  evaluates (Some (BinaryOpNode l op r)) env (Ok VNone) env2.
Proof.
  intros H1 H2 H3 H4 Hl Hr.
  pose proof (evaluates_binary_op l op r env vl env1 vr env2 Hl Hr) as H.
  unfold binary_op in H.
  apply String.eqb_neq in H1, H2, H3, H4.
  rewrite H1, H2, H3, H4 in H. exact H.
Qed.

Lemma unknown_operator_returns_none_witness :
  ("<" <> "+" /\ "<" <> "-" /\ "<" <> "*" /\ "<" <> "/") /\
  evaluates (Some (NumberNode 1)) ∅ (Ok (VInt 1)) ∅ /\
  evaluates (Some (NumberNode 2)) ∅ (Ok (VInt 2)) ∅ /\
  evaluates (Some (BinaryOpNode (NumberNode 1) "<" (NumberNode 2))) ∅
            (Ok VNone) ∅.
Proof.
  assert (H1 : evaluates (Some (NumberNode 1)) ∅ (Ok (VInt 1)) ∅)
    by (exists 1; split; [reflexivity | discriminate]).
  assert (H2 : evaluates (Some (NumberNode 2)) ∅ (Ok (VInt 2)) ∅)
    by (exists 1; split; [reflexivity | discriminate]).
  split; [repeat split; discriminate|]. split; [exact H1|]. split; [exact H2|].
  apply (unknown_operator_returns_none (NumberNode 1) (NumberNode 2) "<"
           ∅ ∅ ∅ (VInt 1) (VInt 2)); try discriminate; assumption.
Defined.

(** C5, as the specification states it, fails: the operands of
    [10 ** 400 / 1] evaluate to the values [10 ** 400] and 1, the right one
    is not zero, and the call returns no quotient.  Python's true division
    raises OverflowError, the quotient being too large for a [float]. *)
Lemma division_overflow_counterexample :
  evaluates (Some (NumberNode ten_to_the_400)) ∅ (Ok (VInt ten_to_the_400)) ∅ /\
  evaluates (Some (NumberNode 1)) ∅ (Ok (VInt 1)) ∅ /\
  Py.nonzero (VInt 1) /\
  evaluates (Some (BinaryOpNode (NumberNode ten_to_the_400) "/" (NumberNode 1)))
            ∅ (Raise OverflowError) ∅ /\
  ~ (exists q env',
        evaluates (Some (BinaryOpNode (NumberNode ten_to_the_400) "/"
                           (NumberNode 1))) ∅ (Ok q) env').
Proof.
  assert (H : evaluates (Some (BinaryOpNode (NumberNode ten_to_the_400) "/"
                                 (NumberNode 1))) ∅ (Raise OverflowError) ∅)
    by (exists 2; split; [vm_compute; reflexivity | discriminate]).
  split; [apply evaluates_number|]. split; [apply evaluates_number|].
  split; [simpl; lia|]. split; [exact H|].
  intros (q & env' & Hq).
  destruct (evaluates_det _ _ _ _ _ _ H Hq) as [E _]. discriminate E.
Qed.

(** C5, amended.  For a BinaryOpNode with operator [/] whose operands
    evaluate to the values [vl] and [vr] the call ends, and it raises the
    division-by-zero exception exactly when [vr] is a zero: 0, 0.0 or
    -0.0.  Otherwise the result is that of true division, never an
    integer quotient:
    - of two ints, a float nearest to the exact quotient [x / y], or an
      OverflowError when the quotient is [2 ** 1024 - 2 ** 970] or more in
      magnitude;
    - of two finite floats, a float nearest to the quotient of the two,
      or an infinity from the same bound on;
    - of an int and a finite float, the same after the int is replaced by
      a float nearest to it, or an OverflowError when the int is
      [2 ** 1024 - 2 ** 970] or more in magnitude;
    - a TypeError when an operand is [None]. *)
Theorem division_by_zero_iff_right_operand_zero (l r : node)
        (env env1 env2 : Env) (vl vr : value) :
  evaluates (Some l) env (Ok vl) env1 ->
  evaluates (Some r) env1 (Ok vr) env2 ->
  exists res,
    evaluates (Some (BinaryOpNode l "/" r)) env res env2 /\
    (res = Raise DivisionByZero <-> Py.zero vr) /\
    (forall x y, vl = VInt x -> vr = VInt y -> y <> 0%Z ->
       int_quotient (inject_Z x / inject_Z y) res) /\
    (forall f g a b,
       vl = VFloat f -> vr = VFloat g ->
       Py.rational f = Some a -> Py.rational g = Some b -> (~ b == 0)%Q ->
       float_quotient (a / b) res) /\
    (forall x g b,
       vl = VInt x -> vr = VFloat g ->
       Py.rational g = Some b -> (~ b == 0)%Q ->
       ((huge <= Qabs (inject_Z x))%Q /\ res = Raise OverflowError) \/
       ((Qabs (inject_Z x) < huge)%Q /\
        exists f a, nearest (inject_Z x) f /\ Py.rational f = Some a /\
                    float_quotient (a / b) res)) /\
    (forall f y a,
       vl = VFloat f -> vr = VInt y ->
       Py.rational f = Some a -> y <> 0%Z ->
       ((huge <= Qabs (inject_Z y))%Q /\ res = Raise OverflowError) \/
       ((Qabs (inject_Z y) < huge)%Q /\
        exists g b, nearest (inject_Z y) g /\ Py.rational g = Some b /\
                    (~ b == 0)%Q /\ float_quotient (a / b) res)) /\
    (vl = VNone \/ vr = VNone -> ~ Py.zero vr -> res = Raise TypeError).
Proof.
  intros Hl Hr.
  pose proof (evaluates_binary_op l "/" r env vl env1 vr env2 Hl Hr) as H.
  exists (binary_op "/" vl vr). split; [exact H|]. clear H Hl Hr.
  unfold binary_op. cbn [String.eqb Ascii.eqb Bool.eqb].
  destruct (Py.eq_zero vr) eqn:Z.
  - (* the right operand is a zero *)
    pose proof (proj1 (eq_zero_iff vr) Z) as Hz.
    split; [tauto|].
    split; [intros x y _ -> Hy; simpl in Hz; contradiction|].
    split; [intros f g a b _ -> _ Eb Hb; cbn [Py.eq_zero] in Z;
            rewrite (QuotientFacts.nonzero_rational g b Eb Hb) in Z;
            discriminate Z|].
    split; [intros x g b _ -> Eb Hb; cbn [Py.eq_zero] in Z;
            rewrite (QuotientFacts.nonzero_rational g b Eb Hb) in Z;
            discriminate Z|].
    split; [intros f y a _ -> _ Hy; simpl in Hz; contradiction|].
    intros _ Hnz. contradiction.
  - assert (Hnz : ~ Py.zero vr).
    { intros Hz. apply eq_zero_iff in Hz. congruence. }
    split.
    { split; [|tauto]. intros E. exfalso.
      exact (QuotientFacts.truediv_not_division_by_zero vl vr E). }
    split; [intros x y -> -> Hy; apply QuotientFacts.truediv_int_int; exact Hy|].
    split; [intros f g a b -> -> Ea Eb Hb; cbn [Py.truediv];
            apply QuotientFacts.float_div_quotient; assumption|].
    split.
    { intros x g b -> -> Eb Hb. cbn [Py.truediv].
      destruct (QuotientFacts.float_of_int_cases x)
        as [[H1 H2]|(H1 & f & H2 & H3)].
      - left. rewrite H2. auto.
      - right. split; [exact H1|]. rewrite H3. cbn [bind].
        destruct H2 as (Hf & a & Ea & Hn). exists f, a.
        split; [split; [exact Hf|]; exists a; auto|].
        split; [exact Ea|].
        apply QuotientFacts.float_div_quotient; assumption. }
    split.
    { intros f y a -> -> Ea Hy. cbn [Py.truediv].
      destruct (QuotientFacts.float_of_int_cases y)
        as [[H1 H2]|(H1 & g & H2 & H3)].
      - left. rewrite H2. auto.
      - right. split; [exact H1|]. rewrite H3. cbn [bind].
        pose proof (float_of_int_nonzero y g Hy H3) as Hgz.
        destruct H2 as (Hg & b & Eb & Hn). exists g, b.
        pose proof (QuotientFacts.rational_nonzero g b Eb Hgz) as Hb.
        split; [split; [exact Hg|]; exists b; auto|].
        split; [exact Eb|]. split; [exact Hb|].
        apply QuotientFacts.float_div_quotient; assumption. }
    intros [-> | ->] _; [reflexivity|].
    destruct vl; reflexivity.
Qed.

(** The text [5 / 0] is parsed to a division, and the division raises
    when it is evaluated. *)
Lemma division_by_zero_iff_right_operand_zero_witness :
  Lexer.tokenize "5 / 0" = Ok [NUMBER 5; OPERATOR "/"; NUMBER 0] /\
  parse [NUMBER 5; OPERATOR "/"; NUMBER 0] =
    Ok (Some (BinaryOpNode (NumberNode 5) "/" (NumberNode 0)), 3) /\
  evaluates (Some (NumberNode 5)) ∅ (Ok (VInt 5)) ∅ /\
  evaluates (Some (NumberNode 0)) ∅ (Ok (VInt 0)) ∅ /\
  evaluates (Some (BinaryOpNode (NumberNode 5) "/" (NumberNode 0))) ∅
            (Raise DivisionByZero) ∅.
Proof.
  assert (H5 : evaluates (Some (NumberNode 5)) ∅ (Ok (VInt 5)) ∅)
    by (exists 1; split; [reflexivity | discriminate]).
  assert (H0 : evaluates (Some (NumberNode 0)) ∅ (Ok (VInt 0)) ∅)
    by (exists 1; split; [reflexivity | discriminate]).
  split; [reflexivity|]. split; [reflexivity|].
  split; [exact H5|]. split; [exact H0|].
  destruct (division_by_zero_iff_right_operand_zero
              (NumberNode 5) (NumberNode 0) ∅ ∅ ∅ (VInt 5) (VInt 0) H5 H0)
    as (res & Hres & Hiff & _).
  assert (E : res = Raise DivisionByZero) by (apply Hiff; reflexivity).
  rewrite <- E. exact Hres.
Defined.

(** * More facts about the lexer *)
Module LexerScan.
Import Lexer Shape.
Local Open Scope list_scope.

Lemma list_ascii_append (a b : string) :
  list_ascii_of_string (String.append a b) =
  list_ascii_of_string a ++ list_ascii_of_string b.
Proof. induction a as [|c a IH]; simpl; [reflexivity | rewrite IH; reflexivity]. Qed.

Lemma append_cons (x : ascii) (a b : string) :
  String.append (String x a) b = String x (String.append a b).
Proof. reflexivity. Qed.

Lemma append_assoc (a b c : string) :
  String.append (String.append a b) c = String.append a (String.append b c).
Proof.
  induction a as [|x a IH]; [reflexivity|].
  rewrite !append_cons, IH. reflexivity.
Qed.

Lemma append_empty_r (a : string) : String.append a "" = a.
Proof.
  induction a as [|x a IH]; [reflexivity|]. rewrite append_cons, IH. reflexivity.
Qed.

(** A scan takes the longest run of characters that pass the test. *)
Lemma scan_while_run (p : ascii -> bool) (run : list ascii) :
  forall rest acc,
    forallb p run = true -> stops p rest = true ->
    scan_while p (run ++ rest) acc =
    (String.append acc (string_of_list_ascii run), rest).
Proof.
  induction run as [|c run IH]; intros rest acc Hrun Hstop; simpl in *.
  - rewrite append_empty_r. destruct rest as [|c rest]; [reflexivity|].
    simpl in Hstop. apply negb_true_iff in Hstop. simpl. rewrite Hstop.
    reflexivity.
  - apply andb_true_iff in Hrun as [Hc Hrun]. rewrite Hc.
    rewrite IH by assumption. rewrite append_assoc. reflexivity.
Qed.

(** Every scan is of that form. *)
Lemma scan_while_split (p : ascii -> bool) (text : list ascii) :
  exists run rest,
    text = run ++ rest /\ forallb p run = true /\ stops p rest = true.
Proof.
  induction text as [|c text (run & rest & -> & Hrun & Hstop)].
  - exists [], []. auto.
  - destruct (p c) eqn:Hc.
    + exists (c :: run), rest. simpl. rewrite Hc. auto.
    + exists [], (c :: run ++ rest). simpl. rewrite Hc. auto.
Qed.

Lemma tokenize_loop_acc (fuel : nat) :
  forall text acc,
    tokenize_loop fuel text acc =
    bind (tokenize_loop fuel text []) (fun r => Ok (acc ++ r)).
Proof.
  induction fuel as [|fuel IH]; intros [|c text] acc; simpl;
    try (rewrite app_nil_r; reflexivity); try reflexivity.
  assert (Hpush : forall rest tok,
             tokenize_loop fuel rest (acc ++ [tok]) =
             bind (tokenize_loop fuel rest [tok]) (fun r => Ok (acc ++ r))).
  { intros rest tok. rewrite (IH rest (acc ++ [tok])), (IH rest [tok]).
    destruct (tokenize_loop fuel rest []) as [r| |]; simpl; try reflexivity.
    rewrite <- app_assoc. reflexivity. }
  destruct (isspace c); [apply IH|].
  destruct (isdigit c); [destruct (get_number (c :: text)); apply Hpush|].
  destruct (isalpha c); [destruct (get_identifier (c :: text)); apply Hpush|].
  destruct (is_operator_char c); [apply Hpush | reflexivity].
Qed.

Lemma tokenize_loop_fuel (fuel : nat) :
  forall text acc fuel',
    length text <= fuel -> length text <= fuel' ->
    tokenize_loop fuel text acc = tokenize_loop fuel' text acc.
Proof.
  induction fuel as [|fuel IH]; intros [|c text] acc [|fuel'] H H'; simpl in *;
    try reflexivity; try lia.
  destruct (isspace c); [apply IH; lia|].
  destruct (isdigit c) eqn:D.
  { pose proof (LexerFacts.get_number_rest c text D) as Hr.
    destruct (get_number (c :: text)) as [tok rest]. simpl in Hr.
    apply IH; lia. }
  destruct (isalpha c) eqn:A.
  { pose proof (LexerFacts.get_identifier_rest c text A) as Hr.
    destruct (get_identifier (c :: text)) as [tok rest]. simpl in Hr.
    apply IH; lia. }
  destruct (is_operator_char c); [apply IH; lia | reflexivity].
Qed.

(** [tokenize] on the characters of a text. *)
Lemma tokenize_chars (text : string) (fuel : nat) :
  String.length text <= fuel ->
  tokenize text = tokenize_loop fuel (list_ascii_of_string text) [].
Proof.
  intros H. unfold tokenize.
  apply tokenize_loop_fuel; rewrite LexerFacts.length_list_ascii; lia.
Qed.

Lemma stops_head (p : ascii -> bool) (c : ascii) (rest : list ascii) :
  p c = true -> stops p (c :: rest) = false.
Proof. intros H. simpl. rewrite H. reflexivity. Qed.

(** One step of the loop at a run of digits, and at a word. *)
Lemma tokenize_loop_number (fuel : nat) (c : ascii) (run rest : list ascii)
      (acc : list Token) :
  isdigit c = true -> forallb isdigit run = true -> stops isdigit rest = true ->
  tokenize_loop (S fuel) ((c :: run) ++ rest) acc =
  tokenize_loop fuel rest
    (acc ++ [NUMBER (int_of_digits (string_of_list_ascii (c :: run)))]).
Proof.
  intros Hc Hrun Hstop.
  assert (Hs : isspace c = false).
  { revert Hc. destruct c as [[] [] [] [] [] [] [] []]; vm_compute; congruence. }
  cbn [app tokenize_loop]. rewrite Hs, Hc.
  unfold get_number.
  change (c :: run ++ rest) with ((c :: run) ++ rest).
  rewrite (scan_while_run isdigit (c :: run) rest "")
    by (simpl; rewrite ?Hc; assumption).
  reflexivity.
Qed.

Lemma tokenize_loop_word (fuel : nat) (c : ascii) (run rest : list ascii)
      (acc : list Token) :
  isalpha c = true -> forallb isalnum run = true -> stops isalnum rest = true ->
  tokenize_loop (S fuel) ((c :: run) ++ rest) acc =
  tokenize_loop fuel rest
    (acc ++ [word_token (string_of_list_ascii (c :: run))]).
Proof.
  intros Hc Hrun Hstop.
  assert (Hs : isspace c = false /\ isdigit c = false).
  { revert Hc. destruct c as [[] [] [] [] [] [] [] []]; vm_compute; auto; congruence. }
  destruct Hs as [Hs Hd].
  cbn [app tokenize_loop]. rewrite Hs, Hd, Hc.
  unfold get_identifier.
  change (c :: run ++ rest) with ((c :: run) ++ rest).
  rewrite (scan_while_run isalnum (c :: run) rest "")
    by (simpl; unfold isalnum at 1; rewrite ?Hc; assumption).
  unfold word_token, is_keyword. simpl String.append.
  destruct (existsb _ keywords); reflexivity.
Qed.

End LexerScan.

(** * What the lexer accepts and what it builds *)
Module LexerProps.
Import Lexer Shape LexerScan.
Local Open Scope list_scope.

Lemma forallb_suffix (p : ascii -> bool) (run rest : list ascii) :
  forallb p (run ++ rest) = true -> forallb p rest = true.
Proof. rewrite forallb_app. intros H. apply andb_true_iff in H. tauto. Qed.

Lemma digit_accepted c : isdigit c = true -> accepted c = true.
Proof. unfold accepted. intros ->. rewrite orb_true_r. reflexivity. Qed.

Lemma not_accepted c :
  accepted c = false ->
  isspace c = false /\ isdigit c = false /\ isalpha c = false /\
  is_operator_char c = false.
Proof.
  unfold accepted. intros H.
  apply orb_false_iff in H as [H H4]. apply orb_false_iff in H as [H H3].
  apply orb_false_iff in H as [H1 H2]. auto.
Qed.

(** The loop on a text of accepted characters returns. *)
Lemma tokenize_loop_accepted (fuel : nat) :
  forall text acc,
    length text <= fuel -> forallb accepted text = true ->
    exists tokens, tokenize_loop fuel text acc = Ok tokens.
Proof.
  induction fuel as [|fuel IH]; intros [|c text] acc Hlen Hall; simpl in *;
    eauto; try lia.
  apply andb_true_iff in Hall as [Hc Hall].
  destruct (isspace c) eqn:S; [apply IH; [lia | assumption]|].
  destruct (isdigit c) eqn:D.
  { destruct (scan_while_split isdigit text) as (run & rest & -> & Hrun & Hstop).
    pose proof (tokenize_loop_number fuel c run rest acc D Hrun Hstop) as E.
    cbn [app tokenize_loop] in E. rewrite S, D in E. rewrite E.
    apply IH; [rewrite length_app in Hlen; lia | eapply forallb_suffix; eassumption]. }
  destruct (isalpha c) eqn:A.
  { destruct (scan_while_split isalnum text) as (run & rest & -> & Hrun & Hstop).
    pose proof (tokenize_loop_word fuel c run rest acc A Hrun Hstop) as E.
    cbn [app tokenize_loop] in E. rewrite S, D, A in E. rewrite E.
    apply IH; [rewrite length_app in Hlen; lia | eapply forallb_suffix; eassumption]. }
  unfold accepted in Hc. rewrite S, D, A in Hc. simpl in Hc. rewrite Hc.
  apply IH; [lia | assumption].
Qed.

(** The loop stops at the first character that is not accepted. *)
Lemma tokenize_loop_rejected (fuel : nat) :
  forall pre c post acc,
    length (pre ++ c :: post) <= fuel ->
    forallb accepted pre = true -> accepted c = false ->
    tokenize_loop fuel (pre ++ c :: post) acc = Raise (UnknownSymbol c).
Proof.
  induction fuel as [|fuel IH]; intros pre c post acc Hlen Hall Hc.
  { rewrite length_app in Hlen. simpl in Hlen. lia. }
  destruct (not_accepted c Hc) as (C1 & C2 & C3 & C4).
  destruct pre as [|d pre].
  { simpl. rewrite C1, C2, C3, C4. reflexivity. }
  simpl in Hall. apply andb_true_iff in Hall as [Hd Hall].
  rewrite length_app in Hlen. simpl in Hlen.
  assert (Hsuffix : forall p run rest,
             pre = run ++ rest -> p c = false -> stops p rest = true ->
             stops p (rest ++ c :: post) = true).
  { intros p run [|x rest] _ Hp Hs; simpl in *; [rewrite Hp; reflexivity | exact Hs]. }
  destruct (isspace d) eqn:S.
  { simpl. rewrite S. apply IH; [rewrite length_app; simpl; lia | assumption | assumption]. }
  destruct (isdigit d) eqn:D.
  { destruct (scan_while_split isdigit pre) as (run & rest & E & Hrun & Hstop).
    pose proof (Hsuffix isdigit run rest E C2 Hstop) as Hstop'.
    rewrite E. replace ((d :: run ++ rest) ++ c :: post)
      with ((d :: run) ++ (rest ++ c :: post)) by (simpl; rewrite <- app_assoc; reflexivity).
    rewrite (tokenize_loop_number fuel d run _ acc D Hrun Hstop').
    subst pre. apply IH; [rewrite !length_app in *; simpl; lia | | assumption].
    eapply forallb_suffix; eassumption. }
  destruct (isalpha d) eqn:A.
  { assert (C5 : isalnum c = false) by (unfold isalnum; rewrite C2, C3; reflexivity).
    destruct (scan_while_split isalnum pre) as (run & rest & E & Hrun & Hstop).
    pose proof (Hsuffix isalnum run rest E C5 Hstop) as Hstop'.
    rewrite E. replace ((d :: run ++ rest) ++ c :: post)
      with ((d :: run) ++ (rest ++ c :: post)) by (simpl; rewrite <- app_assoc; reflexivity).
    rewrite (tokenize_loop_word fuel d run _ acc A Hrun Hstop').
    subst pre. apply IH; [rewrite !length_app in *; simpl; lia | | assumption].
    eapply forallb_suffix; eassumption. }
  unfold accepted in Hd. rewrite S, D, A in Hd. simpl in Hd.
  simpl. rewrite S, D, A, Hd.
  apply IH; [rewrite length_app; simpl; lia | assumption | assumption].
Qed.

End LexerProps.

Module LexerTokens.
Import Lexer Shape LexerScan LexerProps.
Local Open Scope list_scope.

Lemma digit_value (c : ascii) :
  isdigit c = true -> (0 <= Z.of_nat (nat_of_ascii c) - 48 <= 9)%Z.
Proof.
  unfold isdigit. intros H. apply andb_true_iff in H as [H1 H2].
  apply Nat.leb_le in H1, H2. lia.
Qed.

Lemma int_of_digits_nonneg (run : list ascii) :
  forallb isdigit run = true ->
  (0 <= int_of_digits (string_of_list_ascii run))%Z.
Proof.
  unfold int_of_digits. rewrite list_ascii_of_string_of_list_ascii.
  assert (H : forall acc, (0 <= acc)%Z -> forallb isdigit run = true ->
              (0 <= fold_left (fun a c => 10 * a + (Z.of_nat (nat_of_ascii c) - 48)) run acc)%Z).
  { induction run as [|c run IH]; intros acc Hacc Hrun; simpl in *; [exact Hacc|].
    apply andb_true_iff in Hrun as [Hc Hrun]. apply IH; [|exact Hrun].
    pose proof (digit_value c Hc). lia. }
  apply H. lia.
Qed.

(** The value of a run of digits, digit by digit. *)
Lemma int_of_digits_snoc (num : string) (c : ascii) :
  int_of_digits (String.append num (String c "")) =
  (10 * int_of_digits num + (Z.of_nat (nat_of_ascii c) - 48))%Z.
Proof.
  unfold int_of_digits. rewrite list_ascii_append, fold_left_app. reflexivity.
Qed.

Lemma lexed_number (c : ascii) (run : list ascii) :
  isdigit c = true -> forallb isdigit run = true ->
  lexed (NUMBER (int_of_digits (string_of_list_ascii (c :: run)))) = true.
Proof.
  intros Hc Hrun. unfold lexed. apply Z.leb_le.
  apply (int_of_digits_nonneg (c :: run)). simpl. rewrite Hc. exact Hrun.
Qed.

Lemma lexed_word (c : ascii) (run : list ascii) :
  isalpha c = true -> forallb isalnum run = true ->
  lexed (word_token (string_of_list_ascii (c :: run))) = true.
Proof.
  intros Hc Hrun. unfold word_token.
  destruct (is_keyword _) eqn:K; unfold lexed; [exact K|].
  rewrite K. cbn [string_of_list_ascii is_word].
  rewrite list_ascii_of_string_of_list_ascii, Hc, Hrun. reflexivity.
Qed.

Lemma tokenize_loop_lexed (fuel : nat) :
  forall text acc tokens,
    length text <= fuel -> forallb lexed acc = true ->
    tokenize_loop fuel text acc = Ok tokens ->
    forallb lexed tokens = true.
Proof.
  induction fuel as [|fuel IH]; intros [|c text] acc tokens Hlen Hacc; simpl in *;
    try (intros [= <-]; exact Hacc); try lia; try discriminate.
  assert (Hpush : forall tok, lexed tok = true -> forallb lexed (acc ++ [tok]) = true).
  { intros tok Htok. rewrite forallb_app, Hacc. simpl. rewrite Htok. reflexivity. }
  destruct (isspace c) eqn:S; [apply IH; [lia | assumption]|].
  destruct (isdigit c) eqn:D.
  { destruct (scan_while_split isdigit text) as (run & rest & -> & Hrun & Hstop).
    pose proof (tokenize_loop_number fuel c run rest acc D Hrun Hstop) as E.
    cbn [app tokenize_loop] in E. rewrite S, D in E. rewrite E.
    rewrite length_app in Hlen.
    apply IH; [lia | apply Hpush, lexed_number; assumption]. }
  destruct (isalpha c) eqn:A.
  { destruct (scan_while_split isalnum text) as (run & rest & -> & Hrun & Hstop).
    pose proof (tokenize_loop_word fuel c run rest acc A Hrun Hstop) as E.
    cbn [app tokenize_loop] in E. rewrite S, D, A in E. rewrite E.
    rewrite length_app in Hlen.
    apply IH; [lia | apply Hpush, lexed_word; assumption]. }
  destruct (is_operator_char c) eqn:O; [|discriminate].
  apply IH; [lia | apply Hpush; exact O].
Qed.

Lemma space_stops (w : ascii) (rest tail : list ascii) (p : ascii -> bool) :
  p w = false -> stops p rest = true -> stops p (rest ++ w :: tail) = true.
Proof. intros Hw. destruct rest; simpl; [rewrite Hw; reflexivity | auto]. Qed.

Lemma space_class (w : ascii) :
  isspace w = true -> isdigit w = false /\ isalnum w = false.
Proof.
  destruct w as [[] [] [] [] [] [] [] []]; vm_compute; auto; congruence.
Qed.

(** Texts on both sides of a whitespace character are scanned apart. *)
Lemma tokenize_loop_space (fuel : nat) (w : ascii) (l2 : list ascii) :
  isspace w = true ->
  forall l1 acc t1 fuel2,
    length l1 <= fuel -> length (l1 ++ w :: l2) <= fuel2 ->
    tokenize_loop fuel l1 acc = Ok t1 ->
    tokenize_loop fuel2 (l1 ++ w :: l2) acc = tokenize_loop (length l2) l2 t1.
Proof.
  intros Hw. destruct (space_class w Hw) as [Wd Wa].
  induction fuel as [|fuel IH]; intros [|c l1] acc t1 [|fuel2] H1 H2;
    simpl in H1, H2; try lia.
  - simpl. intros [= <-]. rewrite Hw. apply tokenize_loop_fuel; lia.
  - simpl. intros [= <-]. rewrite Hw. apply tokenize_loop_fuel; lia.
  - rewrite length_app in H2. simpl in H2.
    cbn [app tokenize_loop].
    destruct (isspace c) eqn:S.
    { apply IH; [lia | rewrite length_app; simpl; lia]. }
    destruct (isdigit c) eqn:D.
    { destruct (scan_while_split isdigit l1) as (run & rest & -> & Hrun & Hstop).
      pose proof (tokenize_loop_number fuel c run rest acc D Hrun Hstop) as E.
      cbn [app tokenize_loop] in E. rewrite S, D in E. rewrite E.
      pose proof (tokenize_loop_number fuel2 c run (rest ++ w :: l2) acc D Hrun
                    (space_stops w rest l2 isdigit Wd Hstop)) as E2.
      cbn [app tokenize_loop] in E2. rewrite S, D in E2.
      rewrite <- app_assoc. rewrite E2.
      rewrite !length_app in *. simpl in *.
      apply IH; [lia | rewrite length_app; simpl; lia]. }
    destruct (isalpha c) eqn:A.
    { destruct (scan_while_split isalnum l1) as (run & rest & -> & Hrun & Hstop).
      pose proof (tokenize_loop_word fuel c run rest acc A Hrun Hstop) as E.
      cbn [app tokenize_loop] in E. rewrite S, D, A in E. rewrite E.
      pose proof (tokenize_loop_word fuel2 c run (rest ++ w :: l2) acc A Hrun
                    (space_stops w rest l2 isalnum Wa Hstop)) as E2.
      cbn [app tokenize_loop] in E2. rewrite S, D, A in E2.
      rewrite <- app_assoc. rewrite E2.
      rewrite !length_app in *. simpl in *.
      apply IH; [lia | rewrite length_app; simpl; lia]. }
    destruct (is_operator_char c); [|discriminate].
    apply IH; [lia | rewrite length_app; simpl; lia].
Qed.

End LexerTokens.

(** * Further properties of the lexer *)

(** X1: an ASCII text of whitespace, digits, letters and the nine
    operator characters, with no run of more than 4300 digits, is always
    tokenized: [tokenize] returns a token list.  (Beyond ASCII the tests
    of [str] accept more than those of [Lexer], and a longer run of
    digits is refused by [int]: both are left out by the first two
    hypotheses.) *)
Theorem tokenize_accepted_text (text : string) :
  Shape.ascii_text (list_ascii_of_string text) = true ->
  Shape.within_int_limit (list_ascii_of_string text) = true ->
  forallb Shape.accepted (list_ascii_of_string text) = true ->
  exists tokens, Lexer.tokenize text = Ok tokens.
Proof.
  intros _ _ H. apply LexerProps.tokenize_loop_accepted; [|exact H].
  rewrite LexerFacts.length_list_ascii. lia.
Qed.

Lemma tokenize_accepted_text_witness :
  Shape.ascii_text (list_ascii_of_string "if (a1 < 22) b = c") = true /\
  Shape.within_int_limit (list_ascii_of_string "if (a1 < 22) b = c") = true /\
  forallb Shape.accepted (list_ascii_of_string "if (a1 < 22) b = c") = true /\
  exists tokens, Lexer.tokenize "if (a1 < 22) b = c" = Ok tokens.
Proof.
  split; [reflexivity|]. split; [reflexivity|]. split; [reflexivity|].
  apply tokenize_accepted_text; reflexivity.
Defined.

(** X2: [tokenize] fails at the first ASCII character it has no branch
    for, with the exception that carries this character, whatever follows
    it; the text before it is ASCII text of accepted characters, with no
    run of more than 4300 digits. *)
Theorem tokenize_first_unknown_symbol (text : string)
        (pre : list ascii) (c : ascii) (post : list ascii) :
  list_ascii_of_string text = (pre ++ c :: post)%list ->
  Shape.ascii_text pre = true ->
  Shape.within_int_limit pre = true ->
  forallb Shape.accepted pre = true ->
  Shape.is_ascii c = true ->
  Shape.accepted c = false ->
  Lexer.tokenize text = Raise (UnknownSymbol c).
Proof.
  intros E _ _ Hpre _ Hc. unfold Lexer.tokenize. rewrite E.
  apply LexerProps.tokenize_loop_rejected; [|exact Hpre|exact Hc].
  rewrite <- E, LexerFacts.length_list_ascii. lia.
Qed.

Lemma tokenize_first_unknown_symbol_witness :
  list_ascii_of_string "x = 5 ; y # 3" =
    (list_ascii_of_string "x = 5 " ++ ";"%char :: list_ascii_of_string " y # 3")%list /\
  Shape.ascii_text (list_ascii_of_string "x = 5 ") = true /\
  Shape.within_int_limit (list_ascii_of_string "x = 5 ") = true /\
  forallb Shape.accepted (list_ascii_of_string "x = 5 ") = true /\
  Shape.is_ascii ";"%char = true /\
  Shape.accepted ";"%char = false /\
  Lexer.tokenize "x = 5 ; y # 3" = Raise (UnknownSymbol ";"%char).
Proof.
  split; [reflexivity|]. split; [reflexivity|]. split; [reflexivity|].
  split; [reflexivity|]. split; [reflexivity|]. split; [reflexivity|].
  apply (tokenize_first_unknown_symbol "x = 5 ; y # 3"
           (list_ascii_of_string "x = 5 ") ";"%char
           (list_ascii_of_string " y # 3")); reflexivity.
Defined.

(** X3: every token that [tokenize] returns for an ASCII text with no
    run of more than 4300 digits is of one of four shapes: a NUMBER that is not negative; a KEYWORD that is one
    of [if], [else], [while], [def]; an IDENTIFIER that is an ASCII letter
    followed by ASCII letters and digits and is none of these four words;
    an OPERATOR that is one of the nine operator characters. *)
Theorem tokenize_builds_lexed_tokens (text : string) (tokens : list Token) :
  Shape.ascii_text (list_ascii_of_string text) = true ->
  Shape.within_int_limit (list_ascii_of_string text) = true ->
  Lexer.tokenize text = Ok tokens ->
  forallb Shape.lexed tokens = true.
Proof.
  intros _ _ H. eapply LexerTokens.tokenize_loop_lexed; [| |exact H].
  - rewrite LexerFacts.length_list_ascii. lia.
  - reflexivity.
Qed.

Lemma tokenize_builds_lexed_tokens_witness :
  Shape.ascii_text (list_ascii_of_string "while x1 < 10") = true /\
  Shape.within_int_limit (list_ascii_of_string "while x1 < 10") = true /\
  Lexer.tokenize "while x1 < 10" =
    Ok [KEYWORD "while"; IDENTIFIER "x1"; OPERATOR "<"; NUMBER 10] /\
  forallb Shape.lexed
          [KEYWORD "while"; IDENTIFIER "x1"; OPERATOR "<"; NUMBER 10] = true.
Proof.
  split; [reflexivity|]. split; [reflexivity|]. split; [reflexivity|].
  apply (tokenize_builds_lexed_tokens "while x1 < 10"); reflexivity.
Defined.

(** X4: whitespace separates: the tokens of two texts joined by a
    whitespace character are the tokens of the first followed by the
    tokens of the second. *)
Theorem tokenize_whitespace_separates (s1 s2 : string) (w : ascii)
        (t1 t2 : list Token) :
  Lexer.isspace w = true ->
  Lexer.tokenize s1 = Ok t1 ->
  Lexer.tokenize s2 = Ok t2 ->
  Lexer.tokenize (String.append s1 (String w s2)) = Ok (t1 ++ t2)%list.
Proof.
  intros Hw H1 H2. unfold Lexer.tokenize at 1.
  rewrite LexerScan.list_ascii_append. cbn [list_ascii_of_string].
  rewrite (LexerTokens.tokenize_loop_space (String.length s1) w
             (list_ascii_of_string s2) Hw (list_ascii_of_string s1) [] t1).
  - rewrite LexerScan.tokenize_loop_acc.
    rewrite LexerFacts.length_list_ascii. unfold Lexer.tokenize in H2.
    rewrite H2. reflexivity.
  - rewrite LexerFacts.length_list_ascii. lia.
  - rewrite <- (LexerFacts.length_list_ascii (String.append _ _)).
    rewrite LexerScan.list_ascii_append. cbn [list_ascii_of_string]. lia.
  - exact H1.
Qed.

Lemma tokenize_whitespace_separates_witness :
  Lexer.isspace "010"%char = true /\
  Lexer.tokenize "x = 5" = Ok [IDENTIFIER "x"; OPERATOR "="; NUMBER 5] /\
  Lexer.tokenize "y" = Ok [IDENTIFIER "y"] /\
  Lexer.tokenize (String.append "x = 5" (String "010"%char "y")) =
    Ok ([IDENTIFIER "x"; OPERATOR "="; NUMBER 5] ++ [IDENTIFIER "y"])%list.
Proof.
  split; [reflexivity|]. split; [reflexivity|]. split; [reflexivity|].
  apply tokenize_whitespace_separates; reflexivity.
Defined.

(** X5: in ASCII text with no run of more than 4300 digits, a run of
    digits is one NUMBER token, whatever follows it, as long as that is
    no digit: the digits of [12abc] are the number 12, and the letters
    after them are scanned on their own, without an error. *)
Theorem tokenize_number_run (digits rest : string) (tokens : list Token) :
  digits <> "" ->
  forallb Lexer.isdigit (list_ascii_of_string digits) = true ->
  Shape.ascii_text (list_ascii_of_string (String.append digits rest)) = true ->
  Shape.within_int_limit
    (list_ascii_of_string (String.append digits rest)) = true ->
  Shape.stops Lexer.isdigit (list_ascii_of_string rest) = true ->
  Lexer.tokenize rest = Ok tokens ->
  Lexer.tokenize (String.append digits rest) =
    Ok (NUMBER (Lexer.int_of_digits digits) :: tokens).
Proof.
  intros Hne Hrun _ _ Hstop Hrest.
  destruct digits as [|c run]; [congruence|].
  cbn [list_ascii_of_string forallb] in Hrun.
  apply andb_true_iff in Hrun as [Hc Hrun].
  rewrite (LexerScan.tokenize_chars _
             (S (String.length run + String.length rest))).
  2: { rewrite <- LexerFacts.length_list_ascii, LexerScan.list_ascii_append,
         length_app, !LexerFacts.length_list_ascii. simpl. lia. }
  rewrite LexerScan.list_ascii_append. cbn [list_ascii_of_string].
  rewrite (LexerScan.tokenize_loop_number _ c _ _ [] Hc Hrun Hstop).
  rewrite LexerScan.tokenize_loop_acc.
  rewrite <- (LexerScan.tokenize_chars rest) by lia. rewrite Hrest.
  cbn [bind app string_of_list_ascii].
  rewrite string_of_list_ascii_of_string. reflexivity.
Qed.

Lemma tokenize_number_run_witness :
  "12" <> "" /\
  forallb Lexer.isdigit (list_ascii_of_string "12") = true /\
  Shape.ascii_text (list_ascii_of_string (String.append "12" "abc")) = true /\
  Shape.within_int_limit
    (list_ascii_of_string (String.append "12" "abc")) = true /\
  Shape.stops Lexer.isdigit (list_ascii_of_string "abc") = true /\
  Lexer.tokenize "abc" = Ok [IDENTIFIER "abc"] /\
  Lexer.tokenize (String.append "12" "abc") = Ok [NUMBER 12; IDENTIFIER "abc"].
Proof.
  split; [discriminate|]. split; [reflexivity|].
  split; [reflexivity|]. split; [reflexivity|].
  split; [reflexivity|]. split; [reflexivity|].
  apply (tokenize_number_run "12" "abc" [IDENTIFIER "abc"]);
    [discriminate | reflexivity | reflexivity | reflexivity
     | reflexivity | reflexivity].
Defined.

(** X6: in ASCII text with no run of more than 4300 digits, a letter
    with the letters and digits after it is one token, up to the first character that is neither: KEYWORD when
    the word is [if], [else], [while] or [def], and IDENTIFIER otherwise,
    the value being the word itself. *)
Theorem tokenize_word_run (word rest : string) (tokens : list Token) :
  Shape.is_word word = true ->
  Shape.ascii_text (list_ascii_of_string (String.append word rest)) = true ->
  Shape.within_int_limit
    (list_ascii_of_string (String.append word rest)) = true ->
  Shape.stops Lexer.isalnum (list_ascii_of_string rest) = true ->
  Lexer.tokenize rest = Ok tokens ->
  Lexer.tokenize (String.append word rest) =
    Ok (Shape.word_token word :: tokens).
Proof.
  intros Hword _ _ Hstop Hrest.
  destruct word as [|c run]; [discriminate|].
  cbn [Shape.is_word] in Hword.
  apply andb_true_iff in Hword as [Hc Hrun].
  rewrite (LexerScan.tokenize_chars _
             (S (String.length run + String.length rest))).
  2: { rewrite <- LexerFacts.length_list_ascii, LexerScan.list_ascii_append,
         length_app, !LexerFacts.length_list_ascii. simpl. lia. }
  rewrite LexerScan.list_ascii_append. cbn [list_ascii_of_string].
  rewrite (LexerScan.tokenize_loop_word _ c _ _ [] Hc Hrun Hstop).
  rewrite LexerScan.tokenize_loop_acc.
  rewrite <- (LexerScan.tokenize_chars rest) by lia. rewrite Hrest.
  cbn [bind app string_of_list_ascii].
  rewrite string_of_list_ascii_of_string. reflexivity.
Qed.

Lemma tokenize_word_run_witness :
  Shape.is_word "while" = true /\
  Shape.ascii_text (list_ascii_of_string (String.append "while" "(x1)")) = true /\
  Shape.within_int_limit
    (list_ascii_of_string (String.append "while" "(x1)")) = true /\
  Shape.stops Lexer.isalnum (list_ascii_of_string "(x1)") = true /\
  Lexer.tokenize "(x1)" = Ok [OPERATOR "("; IDENTIFIER "x1"; OPERATOR ")"] /\
  Lexer.tokenize (String.append "while" "(x1)") =
    Ok [KEYWORD "while"; OPERATOR "("; IDENTIFIER "x1"; OPERATOR ")"].
Proof.
  split; [reflexivity|]. split; [reflexivity|]. split; [reflexivity|].
  split; [reflexivity|]. split; [reflexivity|].
  apply (tokenize_word_run "while" "(x1)"
           [OPERATOR "("; IDENTIFIER "x1"; OPERATOR ")"]); reflexivity.
Defined.

(** * More facts about the parser *)
Module ParserProps.
Import Parser ParserFacts Shape.
Local Open Scope list_scope.

(** ** Positions stay within the tokens *)

Lemma multiplication_loop_within (tokens : list Token) fuel :
  forall node0 pos a pos',
    multiplication_loop tokens fuel node0 pos = Ok (a, pos') ->
    pos <= length tokens -> pos' <= length tokens.
Proof.
  induction fuel as [|fuel IH]; intros node0 pos a pos'; simpl;
    destruct (at_operator tokens _ pos) eqn:G; try discriminate;
    try (intros [= <- <-]; lia).
  destruct (at_operator_true _ _ _ G) as (op & Htok & _).
  rewrite (consume_operator _ _ _ Htok). simpl.
  intros H _. step_in H. apply primary_pos in E as [-> Hlt].
  apply IH in H; lia.
Qed.

Lemma multiplication_within (tokens : list Token) fuel pos a pos' :
  multiplication tokens fuel pos = Ok (a, pos') -> pos' <= length tokens.
Proof.
  unfold multiplication. intros H. step_in H.
  apply primary_pos in E as [-> Hlt].
  apply multiplication_loop_within in H; lia.
Qed.

Lemma addition_loop_within (tokens : list Token) fuel :
  forall node0 pos a pos',
    addition_loop tokens fuel node0 pos = Ok (a, pos') ->
    pos <= length tokens -> pos' <= length tokens.
Proof.
  induction fuel as [|fuel IH]; intros node0 pos a pos'; simpl;
    destruct (at_operator tokens _ pos) eqn:G; try discriminate;
    try (intros [= <- <-]; lia).
  destruct (at_operator_true _ _ _ G) as (op & Htok & _).
  rewrite (consume_operator _ _ _ Htok). simpl.
  intros H _. step_in H. apply multiplication_within in E.
  apply IH in H; lia.
Qed.

Lemma expression_within (tokens : list Token) fuel pos a pos' :
  expression tokens fuel pos = Ok (a, pos') -> pos' <= length tokens.
Proof.
  unfold expression, addition. intros H. step_in H.
  apply multiplication_within in E.
  apply addition_loop_within in H; lia.
Qed.

Lemma statement_within (tokens : list Token) fuel :
  forall pos a pos',
    statement tokens fuel pos = Ok (a, pos') ->
    pos <= length tokens -> pos' <= length tokens.
Proof.
  induction fuel as [|fuel IH]; intros pos a pos'; simpl; [discriminate|].
  unfold current_token.
  destruct (tokens !! pos) as [tok|] eqn:Htok; [|intros [= <- <-]; lia].
  destruct (String.eqb (type tok) "KEYWORD").
  - destruct (value_is tok "if"); [|destruct (value_is tok "while")].
    + unfold some_node, if_statement. intros H Hpos.
      step_in H. step_in H. step_in H.
      apply expression_within in E0. apply IH in E1; [|lia].
      destruct (at_else tokens _) eqn:GE.
      * step_in H. step_in H. injection H as <- <-.
        apply consume_pos in E2 as [-> Ht]. apply lookup_in_range in Ht.
        apply IH in E3; lia.
      * injection H as <- <-. lia.
    + unfold some_node, while_statement. intros H Hpos.
      step_in H. step_in H. step_in H. injection H as <- <-.
      apply expression_within in E0. apply IH in E1; lia.
    + intros [= <- <-]; lia.
  - destruct (at_assignment tokens pos).
    + unfold some_node, assignment. intros H Hpos.
      step_in H. step_in H. step_in H. injection H as <- <-.
      apply expression_within in E1. lia.
    + unfold some_node. intros H Hpos. step_in H. injection H as <- <-.
      apply expression_within in E. lia.
Qed.

(** A statement that is read takes at least one token. *)
Lemma statement_some_pos (tokens : list Token) fuel pos n pos' :
  statement tokens fuel pos = Ok (Some n, pos') -> pos < pos'.
Proof.
  destruct fuel as [|fuel]; simpl; [discriminate|].
  unfold current_token.
  destruct (tokens !! pos) as [tok|] eqn:Htok; [|discriminate].
  destruct (String.eqb (type tok) "KEYWORD").
  - destruct (value_is tok "if"); [|destruct (value_is tok "while")].
    + unfold some_node, if_statement. intros H.
      step_in H. step_in H. step_in H.
      apply consume_pos in E as [-> _]. apply expression_pos in E0.
      apply statement_pos in E1.
      destruct (at_else tokens _).
      * step_in H. step_in H. injection H as <- <-.
        apply consume_pos in E as [-> _]. apply statement_pos in E2. lia.
      * injection H as <- <-. lia.
    + unfold some_node, while_statement. intros H.
      step_in H. step_in H. step_in H. injection H as <- <-.
      apply consume_pos in E as [-> _]. apply expression_pos in E0.
      apply statement_pos in E1. lia.
    + discriminate.
  - destruct (at_assignment tokens pos).
    + unfold some_node, assignment. intros H.
      step_in H. step_in H. step_in H. injection H as <- <-.
      apply consume_pos in E as [-> _]. apply consume_pos in E0 as [-> _].
      apply expression_pos in E1. lia.
    + unfold some_node. intros H. step_in H. injection H as <- <-.
      apply expression_pos in E. lia.
Qed.

End ParserProps.

Module ParserFailures.
Import Parser ParserFacts Shape.
Local Open Scope list_scope.

Lemma existsb_incl (f : string -> bool) (l1 l2 : list string) :
  incl l1 l2 -> existsb f l1 = true -> existsb f l2 = true.
Proof.
  intros Hincl H. apply existsb_exists in H as (x & Hx & Hf).
  apply existsb_exists. exists x. split; [apply Hincl; exact Hx | exact Hf].
Qed.

Lemma ready_after (tokens : list Token) (pos : nat) (tok : Token) :
  tokens !! pos = Some tok -> dangling tok = true -> ready tokens (S pos).
Proof. intros H D. right. eauto. Qed.

Lemma ready_at (tokens : list Token) (pos : nat) (tok : Token) :
  tokens !! pos = Some tok -> ready tokens pos.
Proof. intros H. left. eauto. Qed.

Lemma primary_failure (tokens : list Token) pos e :
  primary tokens pos = Raise e -> ready tokens pos -> parse_failure tokens e.
Proof.
  rewrite primary_eq. intros H R.
  destruct (tokens !! pos) as [tok|] eqn:Htok.
  - right. destruct tok; simpl in H; try discriminate H; injection H as <-;
      (split; [reflexivity | eexists _, _; split; [exact Htok | reflexivity]]).
  - injection H as <-. left. split; [reflexivity|].
    destruct R as [(tok & Ht)|(p & tok & -> & Ht & D)]; [congruence|].
    exists tok. split; [|exact D].
    apply lookup_ge_None in Htok. pose proof (lookup_in_range _ _ _ Ht).
    replace (length tokens - 1) with p by lia. exact Ht.
Qed.

Lemma operator_dangling (tokens : list Token) ops pos :
  incl ops ["+"; "-"; "*"; "/"; "="] ->
  at_operator tokens ops pos = true ->
  exists op, tokens !! pos = Some (OPERATOR op) /\ dangling (OPERATOR op) = true.
Proof.
  intros Hincl G. destruct (at_operator_true _ _ _ G) as (op & Htok & Hop).
  exists op. split; [exact Htok|]. unfold dangling.
  eapply existsb_incl; eassumption.
Qed.

Lemma incl_mul : incl ["*"; "/"] ["+"; "-"; "*"; "/"; "="].
Proof. intros x [<-|[<-|[]]]; simpl; auto. Qed.

Lemma incl_add : incl ["+"; "-"] ["+"; "-"; "*"; "/"; "="].
Proof. intros x [<-|[<-|[]]]; simpl; auto. Qed.

Lemma multiplication_loop_failure (tokens : list Token) fuel :
  forall node0 pos e,
    multiplication_loop tokens fuel node0 pos = Raise e ->
    parse_failure tokens e.
Proof.
  induction fuel as [|fuel IH]; intros node0 pos e; simpl;
    destruct (at_operator tokens _ pos) eqn:G; try discriminate.
  destruct (operator_dangling _ _ _ incl_mul G) as (op & Htok & D).
  rewrite (consume_operator _ _ _ Htok). simpl.
  destruct (primary tokens (S pos)) as [[r p2]| x |] eqn:E; simpl;
    try discriminate.
  - apply IH.
  - intros [= <-]. eapply primary_failure; [exact E|].
    eapply ready_after; eassumption.
Qed.

Lemma multiplication_failure (tokens : list Token) fuel pos e :
  multiplication tokens fuel pos = Raise e -> ready tokens pos ->
  parse_failure tokens e.
Proof.
  unfold multiplication. intros H R.
  destruct (primary tokens pos) as [[r p1]| x |] eqn:E; simpl in H;
    try discriminate.
  - eapply multiplication_loop_failure; exact H.
  - injection H as <-. eapply primary_failure; eassumption.
Qed.

Lemma addition_loop_failure (tokens : list Token) fuel :
  forall node0 pos e,
    addition_loop tokens fuel node0 pos = Raise e ->
    parse_failure tokens e.
Proof.
  induction fuel as [|fuel IH]; intros node0 pos e; simpl;
    destruct (at_operator tokens _ pos) eqn:G; try discriminate.
  destruct (operator_dangling _ _ _ incl_add G) as (op & Htok & D).
  rewrite (consume_operator _ _ _ Htok). simpl.
  destruct (multiplication tokens fuel (S pos)) as [[r p2]| x |] eqn:E; simpl;
    try discriminate.
  - apply IH.
  - intros [= <-]. eapply multiplication_failure; [exact E|].
    eapply ready_after; eassumption.
Qed.

Lemma expression_failure (tokens : list Token) fuel pos e :
  expression tokens fuel pos = Raise e -> ready tokens pos ->
  parse_failure tokens e.
Proof.
  unfold expression, addition. intros H R.
  destruct (multiplication tokens fuel pos) as [[r p1]| x |] eqn:E;
    simpl in H; try discriminate.
  - eapply addition_loop_failure; exact H.
  - injection H as <-. eapply multiplication_failure; eassumption.
Qed.

Lemma keyword_dangling (tok : Token) (v : string) :
  String.eqb (type tok) "KEYWORD" = true -> value_is tok v = true ->
  In v ["if"; "while"] -> dangling tok = true.
Proof.
  destruct tok as [n|s|s|s]; simpl; try discriminate.
  intros _ Hv Hin. apply String.eqb_eq in Hv as ->.
  destruct Hin as [<-|[<-|[]]]; reflexivity.
Qed.

Lemma assign_dangling (tok : Token) :
  String.eqb (type tok) "OPERATOR" = true -> value_is tok "=" = true ->
  dangling tok = true.
Proof.
  destruct tok as [n|s|s|s]; simpl; try discriminate.
  intros _ Hv. apply String.eqb_eq in Hv as ->. reflexivity.
Qed.

Lemma statement_failure (tokens : list Token) fuel :
  forall pos e,
    statement tokens fuel pos = Raise e -> parse_failure tokens e.
Proof.
  induction fuel as [|fuel IH]; intros pos e; simpl; [discriminate|].
  unfold current_token.
  destruct (tokens !! pos) as [tok|] eqn:Htok; [|discriminate].
  destruct (String.eqb (type tok) "KEYWORD") eqn:K.
  - destruct (value_is tok "if") eqn:V1; [|destruct (value_is tok "while") eqn:V2];
      [| |discriminate].
    + unfold some_node, if_statement.
      rewrite (consume_checked _ _ _ _ _ Htok K V1). simpl.
      destruct (expression tokens fuel (S pos)) as [[c p2]| x |] eqn:E2; simpl;
        try discriminate.
      2: { intros [= <-]. eapply expression_failure; [exact E2|].
           eapply ready_after; [exact Htok|].
           eapply keyword_dangling; [exact K | exact V1 | simpl; auto]. }
      destruct (statement tokens fuel p2) as [[ib p3]| x |] eqn:E3; simpl;
        try discriminate; [|intros [= <-]; eapply IH; eassumption].
      destruct (at_else tokens p3) eqn:GE; [|discriminate].
      destruct (at_else_true _ _ GE) as (tok' & Htok' & K' & V').
      rewrite (consume_checked _ _ _ _ _ Htok' K' V'). simpl.
      destruct (statement tokens fuel (S p3)) as [[eb p5]| x |] eqn:E5; simpl;
        try discriminate. intros [= <-]; eapply IH; eassumption.
    + unfold some_node, while_statement.
      rewrite (consume_checked _ _ _ _ _ Htok K V2). simpl.
      destruct (expression tokens fuel (S pos)) as [[c p2]| x |] eqn:E2; simpl;
        try discriminate.
      2: { intros [= <-]. eapply expression_failure; [exact E2|].
           eapply ready_after; [exact Htok|].
           eapply keyword_dangling; [exact K | exact V2 | simpl; auto]. }
      destruct (statement tokens fuel p2) as [[ib p3]| x |] eqn:E3; simpl;
        try discriminate. intros [= <-]; eapply IH; eassumption.
  - destruct (at_assignment tokens pos) eqn:GA.
    + destruct (at_assignment_true _ _ GA)
        as (tok1 & nxt & Htok1 & K1 & Hnxt & K2 & V2).
      unfold some_node, assignment.
      rewrite (consume_typed _ _ _ _ Htok1 K1). simpl.
      rewrite (consume_checked _ _ _ _ _ Hnxt K2 V2). simpl.
      destruct (expression tokens fuel (S (S pos))) as [[c p2]| x |] eqn:E2;
        simpl; try discriminate.
      intros [= <-]. eapply expression_failure; [exact E2|].
      eapply ready_after; [exact Hnxt|]. apply assign_dangling; assumption.
    + unfold some_node.
      destruct (expression tokens fuel pos) as [[c p2]| x |] eqn:E2;
        simpl; try discriminate.
      intros [= <-]. eapply expression_failure; [exact E2|].
      eapply ready_at; exact Htok.
Qed.

End ParserFailures.

Module ParserTrees.
Import Parser ParserFacts Shape.
Local Open Scope list_scope.

(** ** The trees that the parser builds *)

Lemma primary_expression (tokens : list Token) pos a pos' :
  primary tokens pos = Ok (a, pos') -> is_expression a = true.
Proof.
  rewrite primary_eq. destruct (tokens !! pos) as [[]|]; try discriminate;
    intros [= <- _]; reflexivity.
Qed.

Lemma operator_arithmetic (tokens : list Token) ops pos :
  incl ops ["+"; "-"; "*"; "/"] ->
  at_operator tokens ops pos = true ->
  exists op, tokens !! pos = Some (OPERATOR op) /\ is_arithmetic op = true.
Proof.
  intros Hincl G. destruct (at_operator_true _ _ _ G) as (op & Htok & Hop).
  exists op. split; [exact Htok|]. unfold is_arithmetic.
  eapply ParserFailures.existsb_incl; eassumption.
Qed.

Lemma incl_mul4 : incl ["*"; "/"] ["+"; "-"; "*"; "/"].
Proof. intros x [<-|[<-|[]]]; simpl; auto. Qed.

Lemma incl_add4 : incl ["+"; "-"] ["+"; "-"; "*"; "/"].
Proof. intros x [<-|[<-|[]]]; simpl; auto. Qed.

Lemma multiplication_loop_expression (tokens : list Token) fuel :
  forall node0 pos a pos',
    multiplication_loop tokens fuel node0 pos = Ok (a, pos') ->
    is_expression node0 = true -> is_expression a = true.
Proof.
  induction fuel as [|fuel IH]; intros node0 pos a pos'; simpl;
    destruct (at_operator tokens _ pos) eqn:G; try discriminate;
    try (intros [= <- <-]; auto).
  destruct (operator_arithmetic _ _ _ incl_mul4 G) as (op & Htok & A).
  rewrite (consume_operator _ _ _ Htok). simpl.
  intros H H0. step_in H. apply primary_expression in E.
  eapply IH; [exact H|]. simpl. rewrite A, H0, E. reflexivity.
Qed.

Lemma multiplication_expression (tokens : list Token) fuel pos a pos' :
  multiplication tokens fuel pos = Ok (a, pos') -> is_expression a = true.
Proof.
  unfold multiplication. intros H. step_in H.
  apply primary_expression in E.
  eapply multiplication_loop_expression; eassumption.
Qed.

Lemma addition_loop_expression (tokens : list Token) fuel :
  forall node0 pos a pos',
    addition_loop tokens fuel node0 pos = Ok (a, pos') ->
    is_expression node0 = true -> is_expression a = true.
Proof.
  induction fuel as [|fuel IH]; intros node0 pos a pos'; simpl;
    destruct (at_operator tokens _ pos) eqn:G; try discriminate;
    try (intros [= <- <-]; auto).
  destruct (operator_arithmetic _ _ _ incl_add4 G) as (op & Htok & A).
  rewrite (consume_operator _ _ _ Htok). simpl.
  intros H H0. step_in H. apply multiplication_expression in E.
  eapply IH; [exact H|]. simpl. rewrite A, H0, E. reflexivity.
Qed.

Lemma expression_expression (tokens : list Token) fuel pos a pos' :
  expression tokens fuel pos = Ok (a, pos') -> is_expression a = true.
Proof.
  unfold expression, addition. intros H. step_in H.
  apply multiplication_expression in E.
  eapply addition_loop_expression; eassumption.
Qed.

Lemma expression_statement (n : node) :
  is_expression n = true -> is_statement n = true.
Proof. destruct n; simpl; auto; discriminate. Qed.

Lemma statement_statement (tokens : list Token) fuel :
  forall pos n pos',
    statement tokens fuel pos = Ok (Some n, pos') -> is_statement n = true.
Proof.
  induction fuel as [|fuel IH]; intros pos n pos'; simpl; [discriminate|].
  assert (IH' : forall p b p', statement tokens fuel p = Ok (b, p') ->
                  match b with Some b' => is_statement b' | None => true end = true).
  { intros p [b|] p' Hb; [eapply IH; exact Hb | reflexivity]. }
  unfold current_token.
  destruct (tokens !! pos) as [tok|] eqn:Htok; [|discriminate].
  destruct (String.eqb (type tok) "KEYWORD").
  - destruct (value_is tok "if"); [|destruct (value_is tok "while")].
    + unfold some_node, if_statement. intros H.
      step_in H. step_in H. step_in H.
      apply expression_expression in E0. apply IH' in E1.
      destruct (at_else tokens _).
      * step_in H. step_in H. injection H as <- _.
        apply IH' in E3. simpl. rewrite E0, E1, E3. reflexivity.
      * injection H as <- _. simpl. rewrite E0, E1. reflexivity.
    + unfold some_node, while_statement. intros H.
      step_in H. step_in H. step_in H. injection H as <- _.
      apply expression_expression in E0. apply IH' in E1.
      simpl. rewrite E0, E1. reflexivity.
    + discriminate.
  - destruct (at_assignment tokens pos).
    + unfold some_node, assignment. intros H.
      step_in H. step_in H. step_in H. injection H as <- _.
      apply expression_expression in E1. exact E1.
    + unfold some_node. intros H. step_in H. injection H as <- _.
      apply expression_statement. eapply expression_expression; exact E.
Qed.

(** An expression holds no AssignmentNode. *)
Lemma expression_has_no_assignment (n : node) :
  is_expression n = true -> Interpreter.has_assignment n = false.
Proof.
  induction n as [v|x|l IHl op r IHr|x e IHe|c t e|c b]; simpl;
    try reflexivity; try discriminate.
  intros H. apply andb_true_iff in H as [H Hr].
  apply andb_true_iff in H as [_ Hl].
  rewrite (IHl Hl), (IHr Hr). reflexivity.
Qed.

End ParserTrees.

Module ParserConsumes.
Import Parser ParserFacts Shape.
Local Open Scope list_scope.

(** ** The tokens that the parser consumes *)

Lemma consumed_none (tokens : list Token) pos : consumed tokens pos pos.
Proof. intros i Hi. lia. Qed.

Lemma consumed_one (tokens : list Token) pos tok :
  tokens !! pos = Some tok -> consumable tok = true ->
  consumed tokens pos (S pos).
Proof. intros H C i Hi. replace i with pos by lia. eauto. Qed.

Lemma consumed_trans (tokens : list Token) a b c :
  consumed tokens a b -> consumed tokens b c -> consumed tokens a c.
Proof.
  intros H1 H2 i Hi. destruct (decide (i < b)); [apply H1 | apply H2]; lia.
Qed.

Lemma dangling_consumable (tok : Token) :
  dangling tok = true -> consumable tok = true.
Proof.
  destruct tok as [n|s|s|s]; unfold dangling, consumable; auto.
  apply ParserFailures.existsb_incl.
  intros x [<-|[<-|[]]]; simpl; auto.
Qed.

Lemma primary_consumed (tokens : list Token) pos a pos' :
  primary tokens pos = Ok (a, pos') -> consumed tokens pos pos'.
Proof.
  rewrite primary_eq. destruct (tokens !! pos) as [[]|] eqn:E; try discriminate;
    intros [= _ <-]; eapply consumed_one; eauto.
Qed.

Lemma multiplication_loop_consumed (tokens : list Token) fuel :
  forall node0 pos a pos',
    multiplication_loop tokens fuel node0 pos = Ok (a, pos') ->
    consumed tokens pos pos'.
Proof.
  induction fuel as [|fuel IH]; intros node0 pos a pos'; simpl;
    destruct (at_operator tokens _ pos) eqn:G; try discriminate;
    try (intros [= <- <-]; apply consumed_none).
  destruct (ParserFailures.operator_dangling _ _ _ ParserFailures.incl_mul G)
    as (op & Htok & D).
  rewrite (consume_operator _ _ _ Htok). simpl.
  intros H. step_in H.
  eapply consumed_trans;
    [eapply consumed_one; [exact Htok | apply dangling_consumable; exact D]|].
  eapply consumed_trans; [eapply primary_consumed; exact E|].
  eapply IH; exact H.
Qed.

Lemma multiplication_consumed (tokens : list Token) fuel pos a pos' :
  multiplication tokens fuel pos = Ok (a, pos') -> consumed tokens pos pos'.
Proof.
  unfold multiplication. intros H. step_in H.
  eapply consumed_trans; [eapply primary_consumed; exact E|].
  eapply multiplication_loop_consumed; exact H.
Qed.

Lemma addition_loop_consumed (tokens : list Token) fuel :
  forall node0 pos a pos',
    addition_loop tokens fuel node0 pos = Ok (a, pos') ->
    consumed tokens pos pos'.
Proof.
  induction fuel as [|fuel IH]; intros node0 pos a pos'; simpl;
    destruct (at_operator tokens _ pos) eqn:G; try discriminate;
    try (intros [= <- <-]; apply consumed_none).
  destruct (ParserFailures.operator_dangling _ _ _ ParserFailures.incl_add G)
    as (op & Htok & D).
  rewrite (consume_operator _ _ _ Htok). simpl.
  intros H. step_in H.
  eapply consumed_trans;
    [eapply consumed_one; [exact Htok | apply dangling_consumable; exact D]|].
  eapply consumed_trans; [eapply multiplication_consumed; exact E|].
  eapply IH; exact H.
Qed.

Lemma expression_consumed (tokens : list Token) fuel pos a pos' :
  expression tokens fuel pos = Ok (a, pos') -> consumed tokens pos pos'.
Proof.
  unfold expression, addition. intros H. step_in H.
  eapply consumed_trans; [eapply multiplication_consumed; exact E|].
  eapply addition_loop_consumed; exact H.
Qed.

Lemma consume_consumed (tokens : list Token) ty v pos tok pos' :
  consume tokens ty v pos = Ok (tok, pos') -> consumable tok = true ->
  consumed tokens pos pos'.
Proof.
  intros H C. apply consume_pos in H as [-> Ht].
  eapply consumed_one; eassumption.
Qed.

Lemma statement_consumed (tokens : list Token) fuel :
  forall pos a pos',
    statement tokens fuel pos = Ok (a, pos') -> consumed tokens pos pos'.
Proof.
  induction fuel as [|fuel IH]; intros pos a pos'; simpl; [discriminate|].
  unfold current_token.
  destruct (tokens !! pos) as [tok|] eqn:Htok;
    [|intros [= <- <-]; apply consumed_none].
  destruct (String.eqb (type tok) "KEYWORD") eqn:K.
  - destruct (value_is tok "if") eqn:V1;
      [|destruct (value_is tok "while") eqn:V2].
    + unfold some_node, if_statement. intros H.
      step_in H. step_in H. step_in H.
      pose proof (consume_pos _ _ _ _ _ _ E) as [-> _].
      eapply consumed_trans.
      { eapply consumed_one; [exact Htok|]. apply dangling_consumable.
        eapply ParserFailures.keyword_dangling; [exact K | exact V1 | simpl; auto]. }
      eapply consumed_trans; [eapply expression_consumed; exact E0|].
      eapply consumed_trans; [eapply IH; exact E1|].
      destruct (at_else tokens _) eqn:GE.
      * destruct (at_else_true _ _ GE) as (tok' & Htok' & K' & V').
        step_in H. step_in H. injection H as <- <-.
        pose proof (consume_pos _ _ _ _ _ _ E2) as [-> _].
        eapply consumed_trans; [|eapply IH; exact E3].
        eapply consumed_one; [exact Htok'|].
        destruct tok' as [?|?|s|?]; simpl in *; try discriminate.
        apply String.eqb_eq in V' as ->. reflexivity.
      * injection H as <- <-. apply consumed_none.
    + unfold some_node, while_statement. intros H.
      step_in H. step_in H. step_in H. injection H as <- <-.
      pose proof (consume_pos _ _ _ _ _ _ E) as [-> _].
      eapply consumed_trans.
      { eapply consumed_one; [exact Htok|]. apply dangling_consumable.
        eapply ParserFailures.keyword_dangling; [exact K | exact V2 | simpl; auto]. }
      eapply consumed_trans; [eapply expression_consumed; exact E0|].
      eapply IH; exact E1.
    + intros [= <- <-]. apply consumed_none.
  - destruct (at_assignment tokens pos) eqn:GA.
    + destruct (at_assignment_true _ _ GA)
        as (tok1 & nxt & Htok1 & K1 & Hnxt & K2 & V2).
      unfold some_node, assignment.
      rewrite (consume_typed _ _ _ _ Htok1 K1). simpl.
      rewrite (consume_checked _ _ _ _ _ Hnxt K2 V2). simpl.
      intros H. step_in H. injection H as <- <-.
      eapply consumed_trans.
      { eapply consumed_one; [exact Htok1|].
        destruct tok1; simpl in *; try discriminate; reflexivity. }
      eapply consumed_trans.
      { eapply consumed_one; [exact Hnxt|]. apply dangling_consumable.
        apply ParserFailures.assign_dangling; assumption. }
      eapply expression_consumed; exact E.
    + unfold some_node. intros H. step_in H. injection H as <- <-.
      eapply expression_consumed; exact E.
Qed.

End ParserConsumes.

Module ParserChains.
Import Parser ParserFacts Shape.
Local Open Scope list_scope.

(** ** Operators of one level associate to the left *)

Lemma lookup_at_end (pre rest : list Token) :
  (pre ++ rest) !! length pre = head rest.
Proof.
  rewrite lookup_app_r by lia. rewrite Nat.sub_diag. destruct rest; reflexivity.
Qed.

Lemma at_operator_items (pre : list Token) (items : list (string * Z))
      (ops : list string) :
  at_operator (pre ++ operand_tokens items) ops (length pre) =
  match items with
  | [] => false
  | item :: _ => existsb (String.eqb item.1) ops
  end.
Proof.
  unfold at_operator, current_token. rewrite lookup_at_end.
  destruct items as [|[op n] items]; reflexivity.
Qed.

Lemma other_level (op : string) :
  (existsb (String.eqb op) ["+"; "-"] = true ->
   existsb (String.eqb op) ["*"; "/"] = false) /\
  (existsb (String.eqb op) ["*"; "/"] = true ->
   existsb (String.eqb op) ["+"; "-"] = false).
Proof.
  simpl. split; intros H;
    repeat (apply orb_true_iff in H as [H|H]; [apply String.eqb_eq in H as ->; reflexivity|]);
    discriminate.
Qed.

Lemma operators_in_cons (ops : list string) (op : string) (n : Z)
      (items : list (string * Z)) :
  operators_in ops ((op, n) :: items) =
  existsb (String.eqb op) ops && operators_in ops items.
Proof. reflexivity. Qed.

Lemma step_tokens (pre : list Token) (op : string) (n : Z) (rest : list Token) :
  pre ++ OPERATOR op :: NUMBER n :: rest =
  (pre ++ [OPERATOR op; NUMBER n]) ++ rest.
Proof. rewrite <- app_assoc. reflexivity. Qed.

Lemma primary_number (pre : list Token) (op : string) (n : Z) (rest : list Token) :
  primary (pre ++ OPERATOR op :: NUMBER n :: rest) (S (length pre)) =
  Ok (NumberNode n, S (S (length pre))).
Proof.
  rewrite primary_eq.
  replace (pre ++ OPERATOR op :: NUMBER n :: rest)
    with ((pre ++ [OPERATOR op]) ++ NUMBER n :: rest)
    by (rewrite <- app_assoc; reflexivity).
  rewrite (list_lookup_middle _ _ _ (S (length pre)))
    by (rewrite length_app; simpl; lia).
  reflexivity.
Qed.

Lemma consume_operator_middle (pre : list Token) (op : string) (rest : list Token) :
  consume (pre ++ OPERATOR op :: rest) "OPERATOR" None (length pre) =
  Ok (OPERATOR op, S (length pre)).
Proof. apply consume_operator. apply list_lookup_middle. reflexivity. Qed.

Lemma multiplication_loop_chain (items : list (string * Z)) :
  forall pre acc fuel,
    operators_in ["*"; "/"] items = true -> length items <= fuel ->
    multiplication_loop (pre ++ operand_tokens items) fuel acc (length pre) =
    Ok (chain acc items, length (pre ++ operand_tokens items)).
Proof.
  induction items as [|[op n] items IH]; intros pre acc fuel Hops Hfuel.
  - destruct fuel; simpl; rewrite (at_operator_items pre []);
      rewrite app_nil_r; reflexivity.
  - rewrite operators_in_cons in Hops. simpl in Hfuel.
    apply andb_true_iff in Hops as [Hop Hops].
    destruct fuel as [|fuel]; [lia|].
    cbn [multiplication_loop]. rewrite at_operator_items. cbn [fst]. rewrite Hop.
    cbn [operand_tokens flat_map fst snd app].
    rewrite consume_operator_middle. cbn [bind].
    rewrite primary_number. cbn [bind str_value].
    rewrite step_tokens.
    replace (S (S (length pre))) with (length (pre ++ [OPERATOR op; NUMBER n]))
      by (rewrite length_app; simpl; lia).
    apply (IH (pre ++ [OPERATOR op; NUMBER n])); [exact Hops | lia].
Qed.

Lemma multiplication_loop_stops (items : list (string * Z)) (pre : list Token)
      (acc : node) (fuel : nat) :
  operators_in ["+"; "-"] items = true ->
  multiplication_loop (pre ++ operand_tokens items) fuel acc (length pre) =
  Ok (acc, length pre).
Proof.
  intros Hops.
  assert (G : at_operator (pre ++ operand_tokens items) ["*"; "/"] (length pre) = false).
  { rewrite at_operator_items. destruct items as [|[op n] items]; [reflexivity|].
    rewrite operators_in_cons in Hops. apply andb_true_iff in Hops as [Hop _].
    apply (proj1 (other_level op)). exact Hop. }
  destruct fuel; simpl; rewrite G; reflexivity.
Qed.

Lemma addition_loop_chain (items : list (string * Z)) :
  forall pre acc fuel,
    operators_in ["+"; "-"] items = true -> length items <= fuel ->
    addition_loop (pre ++ operand_tokens items) fuel acc (length pre) =
    Ok (chain acc items, length (pre ++ operand_tokens items)).
Proof.
  induction items as [|[op n] items IH]; intros pre acc fuel Hops Hfuel.
  - destruct fuel; simpl; rewrite (at_operator_items pre []);
      rewrite app_nil_r; reflexivity.
  - rewrite operators_in_cons in Hops. simpl in Hfuel.
    apply andb_true_iff in Hops as [Hop Hops].
    destruct fuel as [|fuel]; [lia|].
    cbn [addition_loop]. rewrite at_operator_items. cbn [fst]. rewrite Hop.
    cbn [operand_tokens flat_map fst snd app].
    rewrite consume_operator_middle. cbn [bind].
    unfold multiplication. rewrite primary_number. cbn [bind str_value].
    rewrite step_tokens.
    replace (S (S (length pre))) with (length (pre ++ [OPERATOR op; NUMBER n]))
      by (rewrite length_app; simpl; lia).
    rewrite (multiplication_loop_stops items _ _ fuel Hops). cbn [bind].
    apply (IH (pre ++ [OPERATOR op; NUMBER n])); [exact Hops | lia].
Qed.

Lemma addition_loop_end (tokens : list Token) (acc : node) (fuel : nat) :
  addition_loop tokens fuel acc (length tokens) = Ok (acc, length tokens).
Proof.
  assert (G : forall ops, at_operator tokens ops (length tokens) = false).
  { intros ops. unfold at_operator, current_token.
    rewrite lookup_ge_None_2 by lia. reflexivity. }
  destruct fuel; simpl; rewrite G; reflexivity.
Qed.

Lemma length_operand_tokens (items : list (string * Z)) :
  length (operand_tokens items) = 2 * length items.
Proof.
  induction items as [|[op n] items IH]; [reflexivity|].
  cbn [operand_tokens flat_map app length]. fold (operand_tokens items).
  rewrite IH. lia.
Qed.

(** The whole of [parse] on a number followed by operators and numbers. *)
Lemma parse_chain (first : Z) (items : list (string * Z)) :
  operators_in ["+"; "-"] items = true \/ operators_in ["*"; "/"] items = true ->
  parse (NUMBER first :: operand_tokens items) =
  Ok (Some (chain (NumberNode first) items), S (2 * length items)).
Proof.
  intros Hops.
  assert (Hlen : length (NUMBER first :: operand_tokens items) = S (2 * length items)).
  { cbn [length]. rewrite length_operand_tokens. reflexivity. }
  unfold parse. rewrite Hlen.
  cbn [statement]. unfold current_token. cbn [lookup list_lookup].
  cbn [type String.eqb Ascii.eqb Bool.eqb].
  replace (at_assignment (NUMBER first :: operand_tokens items) 0) with false
    by reflexivity.
  unfold some_node, expression, addition, multiplication.
  rewrite primary_eq. cbn [lookup list_lookup bind].
  change (NUMBER first :: operand_tokens items)
    with ([NUMBER first] ++ operand_tokens items).
  change 1 with (length [NUMBER first]).
  destruct Hops as [Hops|Hops].
  - rewrite (multiplication_loop_stops items _ _ _ Hops). cbn [bind].
    rewrite addition_loop_chain by (exact Hops || lia). cbn [bind].
    rewrite length_app, length_operand_tokens. reflexivity.
  - rewrite multiplication_loop_chain by (exact Hops || lia). cbn [bind].
    rewrite addition_loop_end. cbn [bind].
    rewrite length_app, length_operand_tokens. reflexivity.
Qed.

End ParserChains.

(** * Further properties of the parser *)

(** X7: [parse] returns [None], the result for no statement, in two
    cases only: the token list is empty, or it starts with a KEYWORD that
    is neither [if] nor [while]; no token is consumed then. *)
Theorem parse_returns_none_iff (tokens : list Token) (pos : nat) :
  parse tokens = Ok (None, pos) <->
  pos = 0 /\
  (tokens = [] \/
   exists v rest, tokens = KEYWORD v :: rest /\ v <> "if" /\ v <> "while").
Proof. apply parse_none. Qed.

(** X8: when [parse] returns a node it has consumed at least one token,
    and its position is not beyond the end of the tokens. *)
Theorem parse_position_bounds (tokens : list Token) (n : node) (pos : nat) :
  parse tokens = Ok (Some n, pos) ->
  0 < pos <= length tokens.
Proof.
  intros H. split.
  - eapply ParserProps.statement_some_pos. exact H.
  - eapply ParserProps.statement_within; [exact H | lia].
Qed.

Lemma parse_position_bounds_witness :
  parse [IDENTIFIER "x"; OPERATOR "("; NUMBER 1] = Ok (Some (VariableNode "x"), 1) /\
  0 < 1 <= length [IDENTIFIER "x"; OPERATOR "("; NUMBER 1].
Proof.
  split; [reflexivity|].
  apply (parse_position_bounds [IDENTIFIER "x"; OPERATOR "("; NUMBER 1]
           (VariableNode "x") 1).
  reflexivity.
Defined.

(** X9: [parse] fails in two ways only.  It raises the AttributeError of
    [primary] only when the last token is a binary operator, [=], [if] or
    [while], so that the operand after it is missing; it raises the
    exception of [primary] only when some token is neither a NUMBER nor an
    IDENTIFIER.  The three exceptions of [consume] are never raised. *)
Theorem parse_fails_for_a_missing_or_wrong_operand (tokens : list Token)
        (e : exn) :
  parse tokens = Raise e ->
  (e = AttributeError /\
   exists tok, tokens !! (length tokens - 1) = Some tok /\
               Shape.dangling tok = true) \/
  (e = InvalidPrimary /\
   exists pos tok, tokens !! pos = Some tok /\ Shape.operand tok = false).
Proof. intros H. eapply ParserFailures.statement_failure. exact H. Qed.

Lemma parse_fails_for_a_missing_or_wrong_operand_witness :
  parse [KEYWORD "if"; IDENTIFIER "x"; IDENTIFIER "y"; OPERATOR "="] =
    Raise AttributeError /\
  ((AttributeError = AttributeError /\
    exists tok,
      [KEYWORD "if"; IDENTIFIER "x"; IDENTIFIER "y"; OPERATOR "="] !!
        (length [KEYWORD "if"; IDENTIFIER "x"; IDENTIFIER "y"; OPERATOR "="] - 1)
      = Some tok /\ Shape.dangling tok = true) \/
   (AttributeError = InvalidPrimary /\
    exists pos tok,
      [KEYWORD "if"; IDENTIFIER "x"; IDENTIFIER "y"; OPERATOR "="] !! pos = Some tok /\
      Shape.operand tok = false)).
Proof.
  split; [reflexivity|].
  apply parse_fails_for_a_missing_or_wrong_operand. reflexivity.
Defined.

(** X10: the tokens that a successful [parse] has gone over are NUMBERs,
    IDENTIFIERs, the operators [+ - * / =] and the keywords [if], [else],
    [while]: a parenthesis, a comparison operator or [def] is never
    consumed, the parse stops in front of it. *)
Theorem parse_consumes_only_grammar_tokens (tokens : list Token)
        (stmt : option node) (pos : nat) :
  parse tokens = Ok (stmt, pos) ->
  forallb Shape.consumable (take pos tokens) = true.
Proof.
  intros H. apply forallb_forall. intros tok Hin.
  apply list_elem_of_In, list_elem_of_lookup in Hin as (i & Hi).
  apply lookup_take_Some in Hi as [Hi Hlt].
  destruct (ParserConsumes.statement_consumed _ _ _ _ _ H i) as (tok' & Ht & C);
    [lia|].
  congruence.
Qed.

Lemma parse_consumes_only_grammar_tokens_witness :
  parse [IDENTIFIER "x"; OPERATOR "*"; NUMBER 2; OPERATOR "<"; NUMBER 5] =
    Ok (Some (BinaryOpNode (VariableNode "x") "*" (NumberNode 2)), 3) /\
  forallb Shape.consumable
    (take 3 [IDENTIFIER "x"; OPERATOR "*"; NUMBER 2; OPERATOR "<"; NUMBER 5]) = true.
Proof.
  split; [reflexivity|].
  apply (parse_consumes_only_grammar_tokens
           [IDENTIFIER "x"; OPERATOR "*"; NUMBER 2; OPERATOR "<"; NUMBER 5]
           (Some (BinaryOpNode (VariableNode "x") "*" (NumberNode 2))) 3).
  reflexivity.
Defined.

(** X11: every tree that [parse] returns follows the grammar: the
    operator of a BinaryOpNode is one of [+ - * /], the condition of an
    IfNode or WhileNode and the value of an AssignmentNode are expressions
    (numbers, variables and binary operations only), and an expression
    holds no assignment, [if] or [while]. *)
Theorem parse_builds_statement_trees (tokens : list Token) (n : node)
        (pos : nat) :
  parse tokens = Ok (Some n, pos) ->
  Shape.is_statement n = true.
Proof. intros H. eapply ParserTrees.statement_statement. exact H. Qed.

Lemma parse_builds_statement_trees_witness :
  parse [KEYWORD "while"; IDENTIFIER "x"; OPERATOR "-"; NUMBER 5;
         IDENTIFIER "x"; OPERATOR "="; IDENTIFIER "x"; OPERATOR "+"; NUMBER 1] =
    Ok (Some (WhileNode (BinaryOpNode (VariableNode "x") "-" (NumberNode 5))
                (Some (AssignmentNode "x"
                         (BinaryOpNode (VariableNode "x") "+" (NumberNode 1))))), 9) /\
  Shape.is_statement
    (WhileNode (BinaryOpNode (VariableNode "x") "-" (NumberNode 5))
       (Some (AssignmentNode "x"
                (BinaryOpNode (VariableNode "x") "+" (NumberNode 1))))) = true.
Proof.
  split; [reflexivity|].
  eapply (parse_builds_statement_trees
            [KEYWORD "while"; IDENTIFIER "x"; OPERATOR "-"; NUMBER 5;
             IDENTIFIER "x"; OPERATOR "="; IDENTIFIER "x"; OPERATOR "+"; NUMBER 1]
            _ 9).
  reflexivity.
Defined.

(** X12: operators of one level associate to the left.  A number
    followed by any list of operators and numbers, the operators being
    all additive or all multiplicative, is parsed completely, to the tree
    that applies the operands one after the other from the left:
    [a - b - c] is [(a - b) - c]. *)
Theorem parse_associates_to_the_left (first : Z) (items : list (string * Z)) :
  Shape.operators_in ["+"; "-"] items = true \/
  Shape.operators_in ["*"; "/"] items = true ->
  parse (NUMBER first :: Shape.operand_tokens items) =
  Ok (Some (Shape.chain (NumberNode first) items), S (2 * length items)).
Proof. apply ParserChains.parse_chain. Qed.

Lemma parse_associates_to_the_left_witness :
  (Shape.operators_in ["+"; "-"] [("-", 3%Z); ("-", 2%Z)] = true \/
   Shape.operators_in ["*"; "/"] [("-", 3%Z); ("-", 2%Z)] = true) /\
  Lexer.tokenize "10 - 3 - 2" =
    Ok (NUMBER 10 :: Shape.operand_tokens [("-", 3%Z); ("-", 2%Z)]) /\
  parse (NUMBER 10 :: Shape.operand_tokens [("-", 3%Z); ("-", 2%Z)]) =
    Ok (Some (BinaryOpNode (BinaryOpNode (NumberNode 10) "-" (NumberNode 3))
                           "-" (NumberNode 2)), 5) /\
  run_test 10 "10 - 3 - 2" = (Ok (VInt 5), ∅).
Proof.
  split; [left; reflexivity|]. split; [reflexivity|]. split; [|reflexivity].
  apply (parse_associates_to_the_left 10 [("-", 3%Z); ("-", 2%Z)]).
  left. reflexivity.
Defined.

(** X13: what [expression] parses is evaluated without side effect: the
    condition of a parsed [if] or [while] and the value of a parsed
    assignment never change the dictionary, however their evaluation
    ends. *)
Theorem parsed_expression_leaves_environment (tokens : list Token)
        (budget pos pos' : nat) (e : node)
        (fuel : nat) (env env' : Env) (r : outcome value) :
  expression tokens budget pos = Ok (e, pos') ->
  interpret fuel (Some e) env = (r, env') ->
  env' = env.
Proof.
  intros Hp Hi.
  apply ParserTrees.expression_expression in Hp.
  apply ParserTrees.expression_has_no_assignment in Hp.
  destruct (proj1 (interpret_while_loop_frame fuel) _ _ _ _ Hi) as [_ H].
  apply H. exact Hp.
Qed.

Lemma parsed_expression_leaves_environment_witness :
  expression [IDENTIFIER "x"; OPERATOR "/"; NUMBER 0] 3 0 =
    Ok (BinaryOpNode (VariableNode "x") "/" (NumberNode 0), 3) /\
  interpret 3 (Some (BinaryOpNode (VariableNode "x") "/" (NumberNode 0)))
            {["x" := VInt 7]} = (Raise DivisionByZero, {["x" := VInt 7]}) /\
  ({["x" := VInt 7]} : Env) = {["x" := VInt 7]}.
Proof.
  split; [reflexivity|]. split; [reflexivity|].
  apply (parsed_expression_leaves_environment
           [IDENTIFIER "x"; OPERATOR "/"; NUMBER 0] 3 0 3
           (BinaryOpNode (VariableNode "x") "/" (NumberNode 0)) 3
           {["x" := VInt 7]} {["x" := VInt 7]} (Raise DivisionByZero));
    reflexivity.
Defined.

(** * More facts about the interpreter *)
Module InterpreterProps.
Import Interpreter InterpreterFacts Shape.

(** ** Trees without loops *)

Lemma interpret_loop_free (k : nat) :
  forall n env,
    height n <= k -> loop_free n = true ->
    (interpret (S k) (Some n) env).1 <> Timeout.
Proof.
  induction k as [|k IH]; intros n env Hh Hl.
  - destruct n; simpl in Hh; try lia; simpl; discriminate.
  - assert (IHo : forall (o : option node) env0,
               match o with Some o' => height o' | None => 0 end <= k ->
               match o with Some o' => loop_free o' | None => true end = true ->
               (interpret (S k) o env0).1 <> Timeout).
    { intros [o|] env0 Ho Lo; [apply IH; assumption | simpl; discriminate]. }
    destruct n as [v|x|l op r|x e|c t e|c b]; simpl in Hh, Hl;
      try discriminate; try (simpl; discriminate).
    + apply andb_true_iff in Hl as [Ll Lr].
      change (interpret (S (S k)) (Some (BinaryOpNode l op r)) env)
        with (and_then (interpret (S k) (Some l) env) (fun left_ vars1 =>
              and_then (interpret (S k) (Some r) vars1) (fun right_ vars2 =>
              (binary_op op left_ right_, vars2)))).
      pose proof (IH l env ltac:(lia) Ll) as H1.
      destruct (interpret (S k) (Some l) env) as [[vl| |] env1];
        cbn [and_then fst] in *; try discriminate; try congruence.
      pose proof (IH r env1 ltac:(lia) Lr) as H2.
      destruct (interpret (S k) (Some r) env1) as [[vr| |] env2];
        cbn [and_then fst] in *; try discriminate; try congruence.
      apply binary_op_not_timeout.
    + change (interpret (S (S k)) (Some (AssignmentNode x e)) env)
        with (and_then (interpret (S k) (Some e) env) (fun v vars1 =>
              (Ok v, <[x := v]> vars1))).
      pose proof (IH e env ltac:(lia) Hl) as H1.
      destruct (interpret (S k) (Some e) env) as [[v| |] env1];
        cbn [and_then fst] in *; try discriminate; congruence.
    + apply andb_true_iff in Hl as [Hl Le]. apply andb_true_iff in Hl as [Lc Lt].
      change (interpret (S (S k)) (Some (IfNode c t e)) env)
        with (and_then (interpret (S k) (Some c) env) (fun v vars1 =>
              if Py.truthy v then interpret (S k) t vars1
              else match e with
                   | Some _ => interpret (S k) e vars1
                   | None => (Ok VNone, vars1)
                   end)).
      pose proof (IH c env ltac:(lia) Lc) as H1.
      destruct (interpret (S k) (Some c) env) as [[v| |] env1];
        cbn [and_then fst] in *; try discriminate; try congruence.
      destruct (Py.truthy v); [apply IHo; [lia | exact Lt]|].
      destruct e as [e'|]; [|simpl; discriminate].
      apply (IHo (Some e')); [lia | exact Le].
Qed.

(** ** The exceptions of the interpreter *)

Lemma arith_exception f g a b e :
  Py.arith f g a b = Raise e -> interpreter_exception e = true.
Proof.
  unfold Py.arith, Py.float_of_int, Py.checked.
  destruct a as [|x|x], b as [|y|y]; simpl; try (intros [= <-]; reflexivity);
    try discriminate;
    match goal with
    | |- context [binary_normalize ?p ?m ?z ?e0 ?s] =>
        destruct (binary_normalize p m z e0 s)
    end; simpl; try discriminate; intros [= <-]; reflexivity.
Qed.

Lemma truediv_exception a b e :
  Py.eq_zero b = false -> Py.truediv a b = Raise e ->
  interpreter_exception e = true.
Proof.
  intros Z H.
  destruct a as [|x|f], b as [|y|g]; simpl in H;
    try (injection H as <-; reflexivity).
  - simpl in Z. rewrite Z in H.
    destruct (SFdiv Py.prec Py.emax (Py.exact x) (Py.exact y)); simpl in H;
      try discriminate H. injection H as <-. reflexivity.
  - simpl in Z. unfold Py.float_of_int, Py.float_div in H. rewrite Z in H.
    destruct (binary_normalize Py.prec Py.emax x 0 false); simpl in H;
      try discriminate H. injection H as <-. reflexivity.
  - simpl in Z. apply Z.eqb_neq in Z.
    destruct (Py.float_of_int y) as [g| x |] eqn:E; simpl in H.
    + unfold Py.float_div in H.
      rewrite (PyFacts.float_of_int_nonzero y g Z E) in H. discriminate H.
    + injection H as <-.
      unfold Py.float_of_int, Py.checked in E.
      destruct (binary_normalize Py.prec Py.emax y 0 false);
        try discriminate E. injection E as <-. reflexivity.
    + discriminate H.
  - simpl in Z. unfold Py.float_div in H. rewrite Z in H. discriminate H.
Qed.

Lemma binary_op_exception op a b e :
  binary_op op a b = Raise e -> interpreter_exception e = true.
Proof.
  unfold binary_op, Py.add, Py.sub, Py.mul.
  destruct (String.eqb op "+"); [apply arith_exception|].
  destruct (String.eqb op "-"); [apply arith_exception|].
  destruct (String.eqb op "*"); [apply arith_exception|].
  destruct (String.eqb op "/"); [|discriminate].
  destruct (Py.eq_zero b) eqn:Z; [intros [= <-]; reflexivity|].
  apply truediv_exception. exact Z.
Qed.

Lemma interpret_while_loop_exception (fuel : nat) :
  (forall n env e env',
      interpret fuel n env = (Raise e, env') ->
      interpreter_exception e = true) /\
  (forall c b res env e env',
      while_loop fuel c b res env = (Raise e, env') ->
      interpreter_exception e = true).
Proof.
  induction fuel as [|fuel [IHi IHw]]; split; simpl; try discriminate.
  - intros [[v|x|l op r|x e0|c t e0|c b]|] env e env' H; try discriminate.
    + destruct (interpret fuel (Some l) env) as [[vl| y |] env1] eqn:E1;
        simpl in H; try discriminate;
        [|injection H as <- <-; eapply IHi; exact E1].
      destruct (interpret fuel (Some r) env1) as [[vr| y |] env2] eqn:E2;
        simpl in H; try discriminate;
        [|injection H as <- <-; eapply IHi; exact E2].
      injection H as H _. eapply binary_op_exception; exact H.
    + destruct (interpret fuel (Some e0) env) as [[vl| y |] env1] eqn:E1;
        simpl in H; try discriminate.
      injection H as <- <-; eapply IHi; exact E1.
    + destruct (interpret fuel (Some c) env) as [[vc| y |] env1] eqn:E1;
        simpl in H; try discriminate;
        [|injection H as <- <-; eapply IHi; exact E1].
      destruct (Py.truthy vc); [eapply IHi; exact H|].
      destruct e0; [eapply IHi; exact H | discriminate].
    + eapply IHw; exact H.
    + injection H as <- _. reflexivity.
  - intros c b res env e env' H.
    destruct (interpret fuel (Some c) env) as [[vc| y |] env1] eqn:E1;
      simpl in H; try discriminate;
      [|injection H as <- <-; eapply IHi; exact E1].
    destruct (Py.truthy vc); [|discriminate].
    destruct (interpret fuel b env1) as [[vb| y |] env2] eqn:E2;
      simpl in H; try discriminate;
      [eapply IHw; exact H | injection H as <- <-; eapply IHi; exact E2].
Qed.

End InterpreterProps.

Module InterpreterRuns.
Import Interpreter InterpreterFacts Shape.

(** ** Trees without a missing body *)

Lemma binary_op_known op a b : binary_op op a b <> Raise UnknownNode.
Proof.
  unfold binary_op, Py.add, Py.sub, Py.mul, Py.truediv, Py.arith, Py.float_div,
    Py.float_of_int, Py.checked.
  repeat match goal with
         | |- context [if ?c then _ else _] => destruct c
         | |- context [match ?x with _ => _ end] => destruct x
         end; simpl; discriminate.
Qed.

Lemma interpret_while_loop_complete (fuel : nat) :
  (forall n env env',
      complete n = true ->
      interpret fuel (Some n) env <> (Raise UnknownNode, env')) /\
  (forall c b res env env',
      complete c = true -> complete b = true ->
      while_loop fuel c (Some b) res env <> (Raise UnknownNode, env')).
Proof.
  induction fuel as [|fuel [IHi IHw]]; split; simpl; try discriminate.
  - intros [v|x|l op r|x e0|c t e0|c b] env env' C; simpl in C; try discriminate.
    + apply andb_true_iff in C as [Cl Cr].
      destruct (interpret fuel (Some l) env) as [[vl| y |] env1] eqn:E1;
        simpl; try discriminate.
      * destruct (interpret fuel (Some r) env1) as [[vr| y |] env2] eqn:E2;
          simpl; try discriminate.
        -- intros [= H _]. exact (binary_op_known _ _ _ H).
        -- intros [= -> ->]. exact (IHi _ _ _ Cr E2).
      * intros [= -> ->]. exact (IHi _ _ _ Cl E1).
    + destruct (interpret fuel (Some e0) env) as [[vl| y |] env1] eqn:E1;
        simpl; try discriminate.
      intros [= -> ->]. exact (IHi _ _ _ C E1).
    + apply andb_true_iff in C as [C Ce]. apply andb_true_iff in C as [Cc Ct].
      destruct (interpret fuel (Some c) env) as [[vc| y |] env1] eqn:E1;
        simpl; try discriminate.
      * destruct (Py.truthy vc).
        -- destruct t as [t'|]; [apply IHi; exact Ct | discriminate].
        -- destruct e0 as [e'|]; [apply IHi; exact Ce | discriminate].
      * intros [= -> ->]. exact (IHi _ _ _ Cc E1).
    + apply andb_true_iff in C as [Cc Cb].
      destruct b as [b'|]; [|discriminate]. apply IHw; assumption.
  - intros c b res env env' Cc Cb.
    destruct (interpret fuel (Some c) env) as [[vc| y |] env1] eqn:E1;
      simpl; try discriminate.
    + destruct (Py.truthy vc); [|discriminate].
      destruct (interpret fuel (Some b) env1) as [[vb| y |] env2] eqn:E2;
        simpl; try discriminate.
      * apply IHw; assumption.
      * intros [= -> ->]. exact (IHi _ _ _ Cb E2).
    + intros [= -> ->]. exact (IHi _ _ _ Cc E1).
Qed.

(** ** Integer expressions *)

Lemma binary_op_int op x y :
  existsb (String.eqb op) ["+"; "-"; "*"] = true ->
  binary_op op (VInt x) (VInt y) =
  Ok (VInt (if String.eqb op "+" then x + y
            else if String.eqb op "-" then x - y else x * y)).
Proof.
  unfold binary_op. simpl.
  destruct (String.eqb op "+"); [reflexivity|].
  destruct (String.eqb op "-"); [reflexivity|].
  destruct (String.eqb op "*"); [reflexivity | discriminate].
Qed.

Lemma int_expression_evaluates (env : Env) (n : node) :
  int_env env -> int_expression n = true ->
  evaluates (Some n) env (Ok (VInt (int_denotation env n))) env.
Proof.
  intros Henv.
  induction n as [v|x|l IHl op r IHr|x e IHe|c t e|c b]; simpl;
    try discriminate; intros H.
  - apply evaluates_number.
  - pose proof (evaluates_variable x env) as Hv.
    destruct (env !! x) as [v|] eqn:E; [|exact Hv].
    destruct (Henv _ _ E) as [z ->]. exact Hv.
  - apply andb_true_iff in H as [H Hr]. apply andb_true_iff in H as [Hop Hl].
    rewrite <- (binary_op_int op _ _ Hop).
    eapply evaluates_binary_op; [apply IHl; exact Hl | apply IHr; exact Hr].
Qed.

(** ** Loops that do not end *)

Lemma while_loop_forever (c : node) (b : option node) :
  (forall env r env', evaluates (Some c) env r env' ->
                      exists v, r = Ok v /\ Py.nonzero v) ->
  (forall env e env', ~ evaluates b env (Raise e) env') ->
  forall fuel res env, (while_loop fuel c b res env).1 = Timeout.
Proof.
  intros Hc Hb. induction fuel as [|fuel IH]; intros res env; [reflexivity|].
  simpl.
  destruct (interpret fuel (Some c) env) as [[vc| y |] env1] eqn:E1; simpl;
    try reflexivity.
  - destruct (Hc env (Ok vc) env1) as (v & [= <-] & Hv);
      [exists fuel; split; [exact E1 | discriminate]|].
    rewrite (truthy_nonzero _ Hv).
    destruct (interpret fuel b env1) as [[vb| y |] env2] eqn:E2; simpl;
      try reflexivity.
    + apply IH.
    + exfalso. apply (Hb env1 y env2). exists fuel.
      split; [exact E2 | discriminate].
  - destruct (Hc env (Raise y) env1) as (v & Hv & _);
      [exists fuel; split; [exact E1 | discriminate]|]. discriminate Hv.
Qed.

(** ** Trees of the parser, over a dictionary of numbers *)

Lemma arith_numeric f g a b :
  numeric a = true -> numeric b = true ->
  match Py.arith f g a b with
  | Ok v => numeric v = true
  | Raise e => e = OverflowError
  | Timeout => False
  end.
Proof.
  unfold Py.arith, Py.float_of_int, Py.checked.
  destruct a as [|x|x], b as [|y|y]; simpl; try discriminate; intros _ _;
    try reflexivity;
    match goal with
    | |- context [binary_normalize ?p ?m ?z ?e0 ?s] =>
        destruct (binary_normalize p m z e0 s)
    end; reflexivity.
Qed.

Lemma truediv_numeric a b :
  numeric a = true -> numeric b = true -> Py.eq_zero b = false ->
  match Py.truediv a b with
  | Ok v => numeric v = true
  | Raise e => e = OverflowError
  | Timeout => False
  end.
Proof.
  intros Ha Hb Z.
  destruct a as [|x|f], b as [|y|g]; simpl in *; try discriminate.
  - rewrite Z.
    destruct (SFdiv Py.prec Py.emax (Py.exact x) (Py.exact y)); reflexivity.
  - unfold Py.float_of_int, Py.float_div. rewrite Z.
    destruct (binary_normalize Py.prec Py.emax x 0 false); reflexivity.
  - apply Z.eqb_neq in Z.
    destruct (Py.float_of_int y) as [g| e |] eqn:E; simpl.
    + unfold Py.float_div.
      rewrite (PyFacts.float_of_int_nonzero y g Z E). reflexivity.
    + unfold Py.float_of_int, Py.checked in E.
      destruct (binary_normalize Py.prec Py.emax y 0 false);
        try discriminate E. injection E as <-. reflexivity.
    + unfold Py.float_of_int, Py.checked in E.
      destruct (binary_normalize Py.prec Py.emax y 0 false); discriminate E.
  - unfold Py.float_div. rewrite Z. reflexivity.
Qed.

Lemma binary_op_numeric op a b :
  is_arithmetic op = true -> numeric a = true -> numeric b = true ->
  match binary_op op a b with
  | Ok v => numeric v = true
  | Raise e => expression_exception e = true
  | Timeout => False
  end.
Proof.
  intros Hop Ha Hb. unfold binary_op, Py.add, Py.sub, Py.mul.
  unfold is_arithmetic in Hop. simpl in Hop.
  assert (A : forall f g, match Py.arith f g a b with
                          | Ok v => numeric v = true
                          | Raise e => expression_exception e = true
                          | Timeout => False
                          end).
  { intros f g. pose proof (arith_numeric f g a b Ha Hb) as H.
    destruct (Py.arith f g a b); [exact H | subst; reflexivity | exact H]. }
  destruct (String.eqb op "+"); [apply A|].
  destruct (String.eqb op "-"); [apply A|].
  destruct (String.eqb op "*"); [apply A|].
  destruct (String.eqb op "/"); [|discriminate Hop].
  destruct (Py.eq_zero b) eqn:Z; [reflexivity|].
  pose proof (truediv_numeric a b Ha Hb Z) as H.
  destruct (Py.truediv a b); [exact H | subst; reflexivity | exact H].
Qed.

Lemma interpret_expression (fuel : nat) :
  forall n env r env',
    is_expression n = true -> numeric_env env ->
    interpret fuel (Some n) env = (r, env') ->
    env' = env /\
    match r with
    | Ok v => numeric v = true
    | Raise e => expression_exception e = true
    | Timeout => True
    end.
Proof.
  induction fuel as [|fuel IH]; intros n env r env' Hn Henv; simpl.
  { intros [= <- <-]. auto. }
  destruct n as [v|x|l op r0|x e0|c t e0|c b]; simpl in Hn; try discriminate.
  - intros [= <- <-]. auto.
  - intros [= <- <-]. split; [reflexivity|].
    destruct (env !! x) as [v|] eqn:E; [exact (Henv _ _ E) | reflexivity].
  - apply andb_true_iff in Hn as [Hn Hr]. apply andb_true_iff in Hn as [Hop Hl].
    destruct (interpret fuel (Some l) env) as [[vl| y |] env1] eqn:E1;
      destruct (IH _ _ _ _ Hl Henv E1) as [-> H1]; simpl;
      try (intros [= <- <-]; auto).
    destruct (interpret fuel (Some r0) env) as [[vr| y |] env2] eqn:E2;
      destruct (IH _ _ _ _ Hr Henv E2) as [-> H2]; simpl;
      try (intros [= <- <-]; auto).
    split; [reflexivity|].
    pose proof (binary_op_numeric op vl vr Hop H1 H2) as H.
    destruct (binary_op op vl vr); [exact H | exact H | exact I].
Qed.

Lemma numeric_insert (env : Env) k v :
  numeric_env env -> numeric v = true -> numeric_env (<[k := v]> env).
Proof.
  intros Henv Hv k' v'. destruct (decide (k' = k)) as [->|Hne].
  - rewrite lookup_insert_eq. intros [= <-]. exact Hv.
  - rewrite lookup_insert_ne by congruence. apply Henv.
Qed.

Lemma interpret_while_loop_statement (fuel : nat) :
  (forall n env r env',
      match n with Some n' => is_statement n' | None => true end = true ->
      numeric_env env ->
      interpret fuel n env = (r, env') ->
      numeric_env env' /\
      forall e, r = Raise e -> program_exception e = true) /\
  (forall c b res env r env',
      is_expression c = true ->
      match b with Some b' => is_statement b' | None => true end = true ->
      numeric_env env ->
      while_loop fuel c b res env = (r, env') ->
      numeric_env env' /\
      forall e, r = Raise e -> program_exception e = true).
Proof.
  assert (X : forall e, expression_exception e = true ->
                        program_exception e = true).
  { intros []; simpl; congruence. }
  assert (Hexp : forall f n env r env',
             is_expression n = true -> numeric_env env ->
             interpret f (Some n) env = (r, env') ->
             numeric_env env' /\
             forall e, r = Raise e -> program_exception e = true).
  { intros f n env r env' Hn Henv H.
    destruct (interpret_expression f _ _ _ _ Hn Henv H) as [-> Hr].
    split; [exact Henv|]. intros e ->. apply X. exact Hr. }
  induction fuel as [|fuel [IHi IHw]]; split.
  - intros n env r env' _ Henv [= <- <-]. split; [exact Henv | discriminate].
  - intros c b res env r env' _ _ Henv [= <- <-].
    split; [exact Henv | discriminate].
  - intros [n|] env r env' Hn Henv;
      [|simpl; intros [= <- <-]; split; [exact Henv|intros e [= <-]; reflexivity]].
    destruct (is_expression n) eqn:Ex; [apply Hexp; assumption|].
    destruct n as [v|x|l op r0|x e0|c t e0|c b]; simpl in Hn, Ex;
      try discriminate; try congruence; simpl.
    + destruct (interpret fuel (Some e0) env) as [[v| y |] env1] eqn:E1;
        destruct (interpret_expression fuel _ _ _ _ Hn Henv E1) as [-> H1];
        simpl; intros [= <- <-].
      * split; [apply numeric_insert; assumption | discriminate].
      * split; [exact Henv|]. intros e [= <-]. apply X. exact H1.
      * split; [exact Henv | discriminate].
    + apply andb_true_iff in Hn as [Hn He]. apply andb_true_iff in Hn as [Hc Ht].
      destruct (interpret fuel (Some c) env) as [[v| y |] env1] eqn:E1;
        destruct (interpret_expression fuel _ _ _ _ Hc Henv E1) as [-> H1];
        simpl.
      * destruct (Py.truthy v); [apply IHi; assumption|].
        destruct e0 as [e'|]; [apply IHi; assumption|].
        intros [= <- <-]. split; [exact Henv | discriminate].
      * intros [= <- <-]. split; [exact Henv|]. intros e [= <-]. apply X, H1.
      * intros [= <- <-]. split; [exact Henv | discriminate].
    + apply andb_true_iff in Hn as [Hc Hb]. apply IHw; assumption.
  - intros c b res env r env' Hc Hb Henv. simpl.
    destruct (interpret fuel (Some c) env) as [[v| y |] env1] eqn:E1;
      destruct (interpret_expression fuel _ _ _ _ Hc Henv E1) as [-> H1];
      simpl.
    + destruct (Py.truthy v);
        [|intros [= <- <-]; split; [exact Henv | discriminate]].
      destruct (interpret fuel b env) as [[vb| y |] env2] eqn:E2;
        destruct (IHi _ _ _ _ Hb Henv E2) as [Henv2 H2]; simpl.
      * apply IHw; assumption.
      * intros [= <- <-]. split; [exact Henv2|]. intros e [= <-].
        apply H2. reflexivity.
      * intros [= <- <-]. split; [exact Henv2 | discriminate].
    + intros [= <- <-]. split; [exact Henv|]. intros e [= <-]. apply X, H1.
    + intros [= <- <-]. split; [exact Henv | discriminate].
Qed.

End InterpreterRuns.

Module ProgramProps.
Import Lexer Parser ParserFacts Shape.
Local Open Scope list_scope.

(** ** The failures of the lexer *)

Lemma tokenize_loop_raises (fuel : nat) :
  forall text acc e,
    tokenize_loop fuel text acc = Raise e -> exists c, e = UnknownSymbol c.
Proof.
  induction fuel as [|fuel IH]; intros [|c text] acc e; simpl;
    try discriminate.
  destruct (isspace c); [apply IH|].
  destruct (isdigit c).
  { destruct (get_number (c :: text)) as [tok rest]. apply IH. }
  destruct (isalpha c).
  { destruct (get_identifier (c :: text)) as [tok rest]. apply IH. }
  destruct (is_operator_char c); [apply IH|].
  intros [= <-]. eauto.
Qed.

Lemma tokenize_loop_blank (fuel : nat) :
  forall text acc,
    length text <= fuel -> forallb isspace text = true ->
    tokenize_loop fuel text acc = Ok acc.
Proof.
  induction fuel as [|fuel IH]; intros [|c text] acc Hlen H; simpl in *;
    try reflexivity; try lia.
  apply andb_true_iff in H as [Hc H]. rewrite Hc. apply IH; [lia | exact H].
Qed.

(** ** Programs without [while] *)

Lemma no_while_lookup (tokens : list Token) :
  existsb is_while tokens = false ->
  forall i tok, tokens !! i = Some tok -> is_while tok = false.
Proof.
  induction tokens as [|t tokens IH]; intros H [|i] tok; simpl;
    try discriminate; simpl in H; apply orb_false_iff in H as [Ht H].
  - intros [= <-]. exact Ht.
  - apply IH. exact H.
Qed.

Lemma expression_loop_free (n : node) :
  is_expression n = true -> loop_free n = true.
Proof.
  induction n as [v|x|l IHl op r IHr|x e IHe|c t e|c b]; simpl;
    try reflexivity; try discriminate.
  intros H. apply andb_true_iff in H as [H Hr].
  apply andb_true_iff in H as [_ Hl].
  rewrite (IHl Hl), (IHr Hr). reflexivity.
Qed.

Lemma statement_loop_free (tokens : list Token) fuel :
  existsb is_while tokens = false ->
  forall pos n pos',
    statement tokens fuel pos = Ok (Some n, pos') -> loop_free n = true.
Proof.
  intros Hw.
  induction fuel as [|fuel IH]; intros pos n pos'; simpl; [discriminate|].
  assert (IH' : forall p b p', statement tokens fuel p = Ok (b, p') ->
                  match b with Some b' => loop_free b' | None => true end = true).
  { intros p [b|] p' Hb; [eapply IH; exact Hb | reflexivity]. }
  unfold current_token.
  destruct (tokens !! pos) as [tok|] eqn:Htok; [|discriminate].
  pose proof (no_while_lookup tokens Hw pos tok Htok) as Hnw.
  destruct (String.eqb (type tok) "KEYWORD") eqn:K.
  - destruct (value_is tok "if"); [|destruct (value_is tok "while") eqn:V].
    + unfold some_node, if_statement. intros H.
      step_in H. step_in H. step_in H.
      apply ParserTrees.expression_expression, expression_loop_free in E0.
      apply IH' in E1.
      destruct (at_else tokens _).
      * step_in H. step_in H. injection H as <- _.
        apply IH' in E3. simpl. rewrite E0, E1, E3. reflexivity.
      * injection H as <- _. simpl. rewrite E0, E1. reflexivity.
    + destruct tok; simpl in K, V, Hnw; try discriminate K. congruence.
    + discriminate.
  - destruct (at_assignment tokens pos).
    + unfold some_node, assignment. intros H.
      step_in H. step_in H. step_in H. injection H as <- _.
      apply ParserTrees.expression_expression, expression_loop_free in E1.
      exact E1.
    + unfold some_node. intros H. step_in H. injection H as <- _.
      eapply expression_loop_free, ParserTrees.expression_expression; exact E.
Qed.

End ProgramProps.

(** * Further properties of the interpreter *)

(** X14: the evaluation of a tree without WhileNode always ends, with a
    value or an exception, whatever the dictionary holds; its recursion
    goes no deeper than the height of the tree. *)
Theorem loop_free_tree_terminates (n : node) (env : Env) :
  Shape.loop_free n = true ->
  exists r env',
    interpret (S (Shape.height n)) (Some n) env = (r, env') /\ r <> Timeout.
Proof.
  intros H.
  pose proof (InterpreterProps.interpret_loop_free (Shape.height n) n env
                (Nat.le_refl _) H) as Hnt.
  destruct (interpret (S (Shape.height n)) (Some n) env) as [r env'].
  exists r, env'. split; [reflexivity | exact Hnt].
Qed.

Lemma loop_free_tree_terminates_witness :
  Shape.loop_free
    (IfNode (VariableNode "x")
            (Some (AssignmentNode "y" (BinaryOpNode (NumberNode 1) "/"
                                                    (VariableNode "x"))))
            None) = true /\
  exists r env',
    interpret 4
      (Some (IfNode (VariableNode "x")
               (Some (AssignmentNode "y" (BinaryOpNode (NumberNode 1) "/"
                                                       (VariableNode "x"))))
               None)) ∅ = (r, env') /\ r <> Timeout.
Proof.
  split; [reflexivity|].
  apply (loop_free_tree_terminates
           (IfNode (VariableNode "x")
              (Some (AssignmentNode "y" (BinaryOpNode (NumberNode 1) "/"
                                                      (VariableNode "x"))))
              None) ∅).
  reflexivity.
Defined.

(** X15: whatever the tree and the dictionary, [interpret] raises nothing
    but its two own exceptions ("Division by zero" and "Unknown node
    type"), a TypeError for arithmetic on [None], and an OverflowError
    for an [int] or a quotient beyond the range of [float].  The
    ZeroDivisionError of Python's [/] is never seen: the test
    [right == 0] holds for every divisor for which [/] would raise
    it. *)
Theorem interpret_raises_only_its_exceptions (fuel : nat) (n : option node)
        (env env' : Env) (e : exn) :
  interpret fuel n env = (Raise e, env') ->
  Shape.interpreter_exception e = true.
Proof.
  apply (proj1 (InterpreterProps.interpret_while_loop_exception fuel)).
Qed.

Lemma interpret_raises_only_its_exceptions_witness :
  interpret 3 (Some (BinaryOpNode (VariableNode "x") "/" (VariableNode "y")))
            {["x" := VFloat (S754_finite false 1 0)]} =
    (Raise DivisionByZero, {["x" := VFloat (S754_finite false 1 0)]}) /\
  Shape.interpreter_exception DivisionByZero = true.
Proof.
  split; [reflexivity|].
  apply (interpret_raises_only_its_exceptions 3
           (Some (BinaryOpNode (VariableNode "x") "/" (VariableNode "y")))
           {["x" := VFloat (S754_finite false 1 0)]}
           {["x" := VFloat (S754_finite false 1 0)]} DivisionByZero).
  reflexivity.
Defined.

(** X16: "Unknown node type" is raised for a missing body only: on a tree
    in which every [if] has its then-branch and every [while] its body,
    no call of [interpret] raises it. *)
Theorem complete_tree_never_raises_unknown_node (fuel : nat) (n : node)
        (env env' : Env) (r : outcome value) :
  Shape.complete n = true ->
  interpret fuel (Some n) env = (r, env') ->
  r <> Raise UnknownNode.
Proof.
  intros C H ->.
  exact (proj1 (InterpreterRuns.interpret_while_loop_complete fuel)
           n env env' C H).
Qed.

Lemma complete_tree_never_raises_unknown_node_witness :
  Shape.complete (WhileNode (VariableNode "x")
                    (Some (AssignmentNode "x" (NumberNode 0)))) = true /\
  interpret 5 (Some (WhileNode (VariableNode "x")
                       (Some (AssignmentNode "x" (NumberNode 0)))))
            {["x" := VInt 2]} = (Ok (VInt 0), {["x" := VInt 0]}) /\
  Ok (VInt 0) <> Raise UnknownNode.
Proof.
  split; [reflexivity|]. split; [reflexivity|].
  apply (complete_tree_never_raises_unknown_node 5
           (WhileNode (VariableNode "x")
              (Some (AssignmentNode "x" (NumberNode 0))))
           {["x" := VInt 2]} {["x" := VInt 0]} (Ok (VInt 0)));
    reflexivity.
Defined.

(** X17: an expression over [+], [-] and [*], evaluated in a dictionary
    that holds [int]s only, returns the exact integer it stands for
    (there is no overflow and no rounding), raises nothing, and leaves
    the dictionary as it was. *)
Theorem integer_expression_is_exact (n : node) (env : Env) :
  Shape.int_env env ->
  Shape.int_expression n = true ->
  evaluates (Some n) env (Ok (VInt (Shape.int_denotation env n))) env.
Proof. apply InterpreterRuns.int_expression_evaluates. Qed.

Lemma integer_expression_is_exact_witness :
  Shape.int_env {["x" := VInt 3]} /\
  Shape.int_expression
    (BinaryOpNode (BinaryOpNode (VariableNode "x") "*" (VariableNode "x"))
                  "-" (NumberNode 2)) = true /\
  evaluates
    (Some (BinaryOpNode (BinaryOpNode (VariableNode "x") "*" (VariableNode "x"))
                        "-" (NumberNode 2)))
    {["x" := VInt 3]}
    (Ok (VInt (Shape.int_denotation {["x" := VInt 3]}
                 (BinaryOpNode
                    (BinaryOpNode (VariableNode "x") "*" (VariableNode "x"))
                    "-" (NumberNode 2)))))
    {["x" := VInt 3]}.
Proof.
  assert (H : Shape.int_env {["x" := VInt 3]}).
  { intros k v Hk. apply lookup_singleton_Some in Hk as [_ <-]. eauto. }
  split; [exact H|]. split; [reflexivity|].
  apply (integer_expression_is_exact
           (BinaryOpNode
              (BinaryOpNode (VariableNode "x") "*" (VariableNode "x"))
              "-" (NumberNode 2))
           {["x" := VInt 3]} H).
  reflexivity.
Defined.

(** X18: a [while] whose condition is a non-zero number whenever its
    evaluation ends, and whose body never raises, does not end: the call
    neither returns nor raises, from any dictionary. *)
Theorem while_never_ends (c : node) (b : option node) :
  (forall env r env', evaluates (Some c) env r env' ->
                      exists v, r = Ok v /\ Py.nonzero v) ->
  (forall env e env', ~ evaluates b env (Raise e) env') ->
  forall env r env', ~ evaluates (Some (WhileNode c b)) env r env'.
Proof.
  intros Hc Hb env r env' H.
  apply evaluates_while in H. destruct H as (fuel & H & Hr).
  pose proof (InterpreterRuns.while_loop_forever c b Hc Hb fuel VNone env) as T.
  rewrite H in T. simpl in T. congruence.
Qed.

Lemma while_never_ends_witness :
  (forall env r env', evaluates (Some (NumberNode 1)) env r env' ->
                      exists v, r = Ok v /\ Py.nonzero v) /\
  (forall env e env',
      ~ evaluates (Some (AssignmentNode "x" (NumberNode 1))) env
                  (Raise e) env') /\
  forall env r env',
    ~ evaluates (Some (WhileNode (NumberNode 1)
                         (Some (AssignmentNode "x" (NumberNode 1)))))
                env r env'.
Proof.
  assert (H1 : forall env r env',
             evaluates (Some (NumberNode 1)) env r env' ->
             exists v, r = Ok v /\ Py.nonzero v).
  { intros env r env' H.
    destruct (evaluates_det _ _ _ _ _ _ H (evaluates_number 1 env)) as [-> _].
    exists (VInt 1). split; [reflexivity | simpl; lia]. }
  assert (H2 : forall env e env',
             ~ evaluates (Some (AssignmentNode "x" (NumberNode 1))) env
                         (Raise e) env').
  { intros env e env' H.
    destruct (evaluates_det _ _ _ _ _ _ H
                (evaluates_assignment "x" _ _ _ _ (evaluates_number 1 env)))
      as [E _].
    discriminate E. }
  split; [exact H1|]. split; [exact H2|].
  exact (while_never_ends (NumberNode 1)
           (Some (AssignmentNode "x" (NumberNode 1))) H1 H2).
Defined.

(** * Parser and interpreter together *)

(** X19: evaluated in a dictionary of numbers, what [parse] returns keeps
    the dictionary a dictionary of numbers, and can raise only "Division
    by zero", "Unknown node type" (for a missing statement) or
    OverflowError: no arithmetic on [None] happens, since conditions,
    operands and assigned values all come from [expression]. *)
Theorem parsed_program_keeps_numbers (tokens : list Token)
        (ast : option node) (pos fuel : nat) (env env' : Env)
        (r : outcome value) :
  parse tokens = Ok (ast, pos) ->
  Shape.numeric_env env ->
  interpret fuel ast env = (r, env') ->
  Shape.numeric_env env' /\
  forall e, r = Raise e -> Shape.program_exception e = true.
Proof.
  intros Hp Henv Hi.
  apply (proj1 (InterpreterRuns.interpret_while_loop_statement fuel)
           ast env r env'); [|exact Henv|exact Hi].
  destruct ast as [n|]; [|reflexivity].
  eapply ParserTrees.statement_statement. exact Hp.
Qed.

Lemma parsed_program_keeps_numbers_witness :
  parse [KEYWORD "while"; NUMBER 1] =
    Ok (Some (WhileNode (NumberNode 1) None), 2) /\
  Shape.numeric_env ∅ /\
  interpret 4 (Some (WhileNode (NumberNode 1) None)) ∅ =
    (Raise UnknownNode, ∅) /\
  Shape.numeric_env ∅ /\
  forall e, (Raise UnknownNode : outcome value) = Raise e -> Shape.program_exception e = true.
Proof.
  assert (H : Shape.numeric_env ∅).
  { intros k v Hk. rewrite lookup_empty in Hk. discriminate Hk. }
  split; [reflexivity|]. split; [exact H|]. split; [reflexivity|].
  apply (parsed_program_keeps_numbers [KEYWORD "while"; NUMBER 1]
           (Some (WhileNode (NumberNode 1) None)) 2 4 ∅ ∅
           (Raise UnknownNode)); [reflexivity | exact H | reflexivity].
Defined.

(** * The test driver *)

(** X20: [run_test] always ends on a text without the keyword [while]:
    it returns a value or raises. *)
Theorem run_test_without_while_terminates (code : string)
        (tokens : list Token) :
  Lexer.tokenize code = Ok tokens ->
  existsb Shape.is_while tokens = false ->
  exists fuel r env, run_test fuel code = (r, env) /\ r <> Timeout.
Proof.
  intros Ht Hw. unfold run_test. rewrite Ht.
  destruct (parse tokens) as [[[n|] pos]| e |] eqn:Hp.
  - apply ProgramProps.statement_loop_free in Hp; [|exact Hw].
    pose proof (InterpreterProps.interpret_loop_free (Shape.height n) n ∅
                  (Nat.le_refl _) Hp) as Hnt.
    exists (S (Shape.height n)).
    destruct (interpret (S (Shape.height n)) (Some n) ∅) as [r env].
    exists r, env. split; [reflexivity | exact Hnt].
  - exists 1, (Raise UnknownNode), ∅. split; [reflexivity | discriminate].
  - exists 0, (Raise e), ∅. split; [reflexivity | discriminate].
  - exfalso. exact (parse_terminates tokens Hp).
Qed.

Lemma run_test_without_while_terminates_witness :
  Lexer.tokenize "if x y = 2 else y = 3" =
    Ok [KEYWORD "if"; IDENTIFIER "x"; IDENTIFIER "y"; OPERATOR "="; NUMBER 2;
        KEYWORD "else"; IDENTIFIER "y"; OPERATOR "="; NUMBER 3] /\
  existsb Shape.is_while
    [KEYWORD "if"; IDENTIFIER "x"; IDENTIFIER "y"; OPERATOR "="; NUMBER 2;
     KEYWORD "else"; IDENTIFIER "y"; OPERATOR "="; NUMBER 3] = false /\
  exists fuel r env,
    run_test fuel "if x y = 2 else y = 3" = (r, env) /\ r <> Timeout.
Proof.
  split; [reflexivity|]. split; [reflexivity|].
  apply (run_test_without_while_terminates "if x y = 2 else y = 3"
           [KEYWORD "if"; IDENTIFIER "x"; IDENTIFIER "y"; OPERATOR "="; NUMBER 2;
            KEYWORD "else"; IDENTIFIER "y"; OPERATOR "="; NUMBER 3]);
    reflexivity.
Defined.

(** X21: on an empty text, or one of whitespace only, [run_test] raises
    "Unknown node type": the lexer returns no token, [parse] returns
    [None], and [interpret] has no branch for [None]. *)
Theorem run_test_blank_text_raises_unknown_node (code : string) (fuel : nat) :
  Shape.blank code = true ->
  run_test (S fuel) code = (Raise UnknownNode, ∅).
Proof.
  intros H. unfold run_test, Lexer.tokenize.
  rewrite ProgramProps.tokenize_loop_blank;
    [reflexivity | rewrite LexerFacts.length_list_ascii; lia | exact H].
Qed.

Lemma run_test_blank_text_raises_unknown_node_witness :
  Shape.blank "   " = true /\
  run_test 1 "   " = (Raise UnknownNode, ∅).
Proof.
  split; [reflexivity|].
  apply (run_test_blank_text_raises_unknown_node "   " 0). reflexivity.
Defined.

(** X22: the exceptions of [run_test] are: the lexer's "Unknown symbol";
    from the parser the AttributeError at the end of the tokens and
    "Number or identifier expected", never one of the three messages of
    [consume]; from the interpreter "Division by zero", "Unknown node
    type" and OverflowError.  The dictionary it leaves holds numbers
    only.  (Limits of the Python implementation, such as the recursion
    depth and the cap on the digits that [int] converts, are outside the
    model.) *)
Theorem run_test_raises_only (code : string) (fuel : nat)
        (r : outcome value) (env : Env) :
  run_test fuel code = (r, env) ->
  Shape.numeric_env env /\
  forall e, r = Raise e -> Shape.run_test_exception e = true.
Proof.
  assert (H0 : Shape.numeric_env ∅).
  { intros k v Hk. rewrite lookup_empty in Hk. discriminate Hk. }
  unfold run_test.
  destruct (Lexer.tokenize code) as [tokens| e |] eqn:Ht.
  - destruct (parse tokens) as [[ast pos]| e |] eqn:Hp.
    + intros Hi.
      destruct (proj1 (InterpreterRuns.interpret_while_loop_statement fuel)
                  ast ∅ r env) as [Henv He]; [|exact H0|exact Hi|].
      { destruct ast as [n|]; [|reflexivity].
        eapply ParserTrees.statement_statement. exact Hp. }
      split; [exact Henv|]. intros e Hr. specialize (He e Hr).
      destruct e; simpl in *; congruence.
    + intros [= <- <-]. split; [exact H0|]. intros e' [= <-].
      destruct (parse_raises tokens e Hp) as [-> | ->]; reflexivity.
    + intros [= <- <-]. split; [exact H0 | discriminate].
  - intros [= <- <-]. split; [exact H0|]. intros e' [= <-].
    destruct (ProgramProps.tokenize_loop_raises _ _ _ _ Ht) as [c ->].
    reflexivity.
  - intros [= <- <-]. split; [exact H0 | discriminate].
Qed.

Lemma run_test_raises_only_witness :
  run_test 5 "x = 1 +" = (Raise AttributeError, ∅) /\
  Shape.numeric_env ∅ /\
  forall e, (Raise AttributeError : outcome value) = Raise e ->
            Shape.run_test_exception e = true.
Proof.
  split; [reflexivity|].
  apply (run_test_raises_only "x = 1 +" 5 (Raise AttributeError) ∅).
  reflexivity.
Defined.
